(** * DevMemory: retrieval, aggregation, usage accounting and notification

    A shallow embedding of the decision logic of the DevMemory server:

    - [tokenEstimate] and [recordUsage] of the MCP layer (package [mcp]);
    - the embedding gateway [Embed] (package [embedding]);
    - the PostgreSQL store (package [store]): upserts, exact-key reads, the
      per-kind search executors and the cross-entity [SearchAll];
    - the in-memory [EventBus] (package [web]).

    Go's [int] is a 64-bit two's complement integer, modelled as [Z] with the
    wrap-around written out.  Go's [float64] is IEEE-754 binary64, modelled
    by the primitive floats.  A slice that may be [nil] is an [option]. *)

From Stdlib Require Import ZArith Floats Lia Sorting.Sorted.
From stdpp Require Import base option list gmap sets strings pretty.

Open Scope Z_scope.

(** * Part I: the embedding *)

(** ** Go integers *)

Module GoInt.

Definition min_int : Z := - 2 ^ 63.
Definition max_int : Z := 2 ^ 63 - 1.

(** Reduction of a mathematical integer to the value a 64-bit [int] holds. *)
Definition wrap (z : Z) : Z := (z + 2 ^ 63) mod 2 ^ 64 - 2 ^ 63.

Definition mul (a b : Z) : Z := wrap (a * b).

Definition in_range (z : Z) : Prop := min_int <= z <= max_int.

End GoInt.

(** ** Usage recorder: the token estimate

    [func tokenEstimate(toolName string, resultsCount int) int] *)

Definition tokenEstimate (toolName : string) (resultsCount : Z) : Z :=
  if String.eqb toolName "memory_search" then GoInt.mul resultsCount 500
  else if String.eqb toolName "session_search" then GoInt.mul resultsCount 2000
  else if String.eqb toolName "file_search" then GoInt.mul resultsCount 800
  else 100.

(** ** Scores: order facts about binary64 comparison

    Go's [a > b] on [float64] is the IEEE-754 comparison: false as soon as one
    side is NaN.  It is a strict partial order on all values and a strict
    total order (up to the two zeros) on the values that are not NaN. *)

Module Score.

Definition gt (a b : float) : bool := PrimFloat.ltb b a.
Definition ge (a b : float) : bool := PrimFloat.leb b a.
Definition is_nan (a : float) : bool := PrimFloat.is_nan a.

End Score.

(** ** The in-place sort of [SearchAll]

    [[
    for i := 0; i < len(a); i++ {
        for j := i + 1; j < len(a); j++ {
            if a[j].Score > a[i].Score { a[i], a[j] = a[j], a[i] }
        }
    }
    ]]
    The three copies of the loop (memories, sessions, files) differ only in
    the element type, so the embedding is polymorphic in it. *)

Section SortByScore.
Context {A : Type} (score : A -> float).

(** The body of the inner loop at indices [i] and [j]. *)
Definition swap_if_greater (i j : nat) (a : list A) : list A :=
  match a !! i, a !! j with
  | Some x, Some y =>
      if Score.gt (score y) (score x) then <[j:=x]> (<[i:=y]> a) else a
  | _, _ => a
  end.

(** The inner loop from index [j], with [n] iterations left. *)
Fixpoint inner_loop (i j n : nat) (a : list A) : list A :=
  match n with
  | O => a
  | S n' => inner_loop i (S j) n' (swap_if_greater i j a)
  end.

(** The outer loop from index [i], with [n] iterations left. *)
Fixpoint outer_loop (i n : nat) (a : list A) : list A :=
  match n with
  | O => a
  | S n' => outer_loop (S i) n' (inner_loop i (S i) (length a - S i) a)
  end.

Definition sort_desc (a : list A) : list A := outer_loop 0 (length a) a.

(** What one pass of the inner loop computes, on the list view: the
    running element [x] is exchanged with every later element that beats
    it. *)
Fixpoint select (x : A) (rest : list A) : A * list A :=
  match rest with
  | [] => (x, [])
  | y :: t =>
      if Score.gt (score y) (score x)
      then let '(m, t') := select y t in (m, x :: t')
      else let '(m, t') := select x t in (m, y :: t')
  end.

Fixpoint selection (n : nat) (l : list A) : list A :=
  match n, l with
  | S n', x :: rest => let '(m, t) := select x rest in m :: selection n' t
  | _, _ => l
  end.

(** "No later item has a strictly greater score than an earlier one". *)
Definition not_below (a b : A) : Prop := Score.gt (score b) (score a) = false.
Definition sorted_desc (l : list A) : Prop := StronglySorted not_below l.

End SortByScore.

(** [sortAndCap := func(n int) int { if n > limit { return limit }; return n }] *)
Definition sortAndCap (limit n : Z) : Z := if n >? limit then limit else n.

(** [a = a[:sortAndCap(len(a))]] *)
Definition cap {A} (limit : Z) (a : list A) : list A :=
  take (Z.to_nat (sortAndCap limit (Z.of_nat (length a)))) a.

(** ** Data model (package [store])

    [Vector = []float32]: a binary32 value is a binary64 value exactly, so
    coordinates are primitive floats; a [nil] vector is [None] at its use
    sites.  Timestamps are instants on a line ([Z]).  JSON documents
    ([Metadata], [Symbols]) are kept as their text. *)

Definition Vector := list float.

Record Project := {
  p_ID : string; p_Name : string; p_RootPath : string; p_Metadata : string;
  p_CreatedAt : Z; p_UpdatedAt : Z }.

Record Memory := {
  m_ID : Z; m_ProjectID : string; m_Topic : string; m_Key : string;
  m_Value : string; m_CreatedAt : Z; m_UpdatedAt : Z; m_CreatedBy : string;
  m_Score : float }.

Record Session := {
  s_ID : Z; s_ProjectID : string; s_SessionNum : Z; s_Title : string;
  s_Summary : string; s_Content : string; s_Metadata : string;
  s_CreatedAt : Z; s_Score : float }.

Record FileEntry := {
  f_ID : Z; f_ProjectID : string; f_FilePath : string; f_FileType : string;
  f_Symbols : string; f_Summary : string; f_LastIndexed : Z;
  f_Score : float }.

Record UsageStat := {
  u_ID : Z; u_ProjectID : string; u_ToolName : string; u_QueryText : string;
  u_ResultsCount : Z; u_TokensEstimated : Z; u_CreatedAt : Z }.

Record SearchAllResult := {
  Memories : list Memory; Sessions : list Session; Files : list FileEntry }.

(** ** The relational schema (migrations)

    Each content table is keyed by its natural key, which the schema declares
    [UNIQUE]; the remaining columns form the row. *)

Record project_row := {
  pr_name : string; pr_root_path : string; pr_metadata : string;
  pr_created_at : Z; pr_updated_at : Z }.

Record memory_row := {
  mr_id : Z; mr_value : string; mr_embedding : option Vector;
  mr_created_at : Z; mr_updated_at : Z; mr_created_by : string }.

Record session_row := {
  sr_id : Z; sr_title : string; sr_summary : string; sr_content : string;
  sr_embedding : option Vector; sr_metadata : string; sr_created_at : Z }.

Record file_row := {
  fr_id : Z; fr_file_type : string; fr_symbols : string; fr_summary : string;
  fr_embedding : option Vector; fr_last_indexed : Z }.

Record database := {
  projects : gmap string project_row;
  memories : gmap (string * string * string) memory_row;
  sessions : gmap (string * Z) session_row;
  file_index : gmap (string * string) file_row;
  usage_stats : list UsageStat;
  memories_id_seq : Z;
  sessions_id_seq : Z;
  file_index_id_seq : Z;
  usage_stats_id_seq : Z }.

(** [embedding vector(384)] *)
Definition schema_dim : nat := 384.

(** PostgreSQL [INTEGER] *)
Definition int4_ok (z : Z) : bool := (- 2 ^ 31 <=? z) && (z <? 2 ^ 31).

(** The statements the store sends, one constructor per SQL text. *)
Inductive stmt :=
| UpsertProject (id name root_path meta : string)
| SelectProject (id : string)
| SelectProjects
| UpsertMemory (project topic key value : string) (emb : option Vector)
               (created_by : string)
| SelectMemory (project topic key : string)
| SelectMemories (project : string) (topic : option string)
| DeleteMemoryRow (project topic key : string)
| SimilarMemories (project : string) (v : Vector) (limit : Z)
| KeywordMemories (project query : string) (limit : Z)
| UpsertSession (project : string) (num : Z) (title summary content : string)
                (emb : option Vector) (meta : string)
| SelectSession (project : string) (num : Z)
| SelectSessions (project : string)
| SimilarSessions (project : string) (v : Vector) (limit : Z)
| KeywordSessions (project query : string) (limit : Z)
| UpsertFile (project path file_type symbols summary : string)
             (emb : option Vector)
| SimilarFiles (project : string) (v : Vector) (limit : Z)
| KeywordFiles (project query : string) (limit : Z)
| InsertUsage (project tool query : string) (results tokens : Z).

(** Which of the two query strategies a statement belongs to. *)
Inductive strategy := Similarity | Keyword.

Definition strategy_of (q : stmt) : option strategy :=
  match q with
  | SimilarMemories _ _ _ | SimilarSessions _ _ _ | SimilarFiles _ _ _ =>
      Some Similarity
  | KeywordMemories _ _ _ | KeywordSessions _ _ _ | KeywordFiles _ _ _ =>
      Some Keyword
  | _ => None
  end.

Inductive error :=
| ErrNoRows            (* pgx.ErrNoRows *)
| ErrEngine            (* the engine did not answer or refused the statement *)
| ErrForeignKey        (* project_id REFERENCES projects(id) *)
| ErrDimension         (* a vector that is not a vector(384) *)
| ErrOutOfRange.       (* a value that does not fit an INTEGER column *)

(** An HTTP exchange with the embedding service, as [Embed] observes it. *)
Inductive decoded :=
| DecodeError
| Decoded (embedding : option Vector).

Inductive http_result :=
| TransportError
| Response (status : Z) (body : decoded).

(** What the code takes from outside the repository: the storage engine's
    own functions, the HTTP transport and three library functions.  A failure
    of the engine is a property of the statement sent, so that one tenant's
    query can fail while another's succeeds.  It shows in one of two ways:
    the call itself returns an error ([pg_fault]), or, for a statement sent
    with [pool.Query], the call returns rows whose stream breaks on the way
    ([pg_stream]); the error of a broken stream is the one [rows.Err()]
    holds. *)
Class Externals := {
  (** [pool.Exec], [pool.Query] or the [Scan] of [pool.QueryRow] returns an
      error for the statement (no connection, a cancelled context, a
      statement the engine does not prepare) *)
  pg_fault : stmt -> bool;
  (** for a statement sent with [pool.Query] that returned no error: the
      number of rows [rows.Next()] delivers before the stream breaks (0 when
      the statement fails as it is executed); [None] when every row is
      delivered *)
  pg_stream : stmt -> option nat;
  (** the order of the database's collation on [TEXT], as [ORDER BY] uses
      it: the first comes before the second or is the same text *)
  pg_collate_le : string -> string -> bool;
  (** whether the engine has drawn the id of the new row from the sequence
      by the time it refuses a vector of another dimension: it has when the
      length is tested as the row is built, it has not when it is tested as
      the statement is planned *)
  pg_id_drawn : stmt -> bool;
  (** pgvector's [<=>] *)
  cosine_distance : Vector -> Vector -> float;
  (** [to_tsvector('english', doc) @@ websearch_to_tsquery('english', q)] *)
  ts_match : string -> string -> bool;
  (** [ts_rank(to_tsvector('english', doc), websearch_to_tsquery('english', q))] *)
  ts_rank : string -> string -> float;
  (** [url.Parse] accepts the address *)
  url_ok : string -> bool;
  (** [client.Do] on a POST of the text to the address *)
  http_do : string -> string -> http_result;
  (** [strconv.Atoi] *)
  Atoi : string -> option Z;
  (** [json.Marshal] of the [[]any] that [json.Unmarshal] decodes the text
      into: the array written again; [None] (the slice stays [nil]) when the
      text is not a JSON array *)
  json_array : string -> option string }.

(** ** The world the server runs in *)

Record world := {
  w_db : database;
  w_log : list stmt;                 (* statements sent to the pool, oldest first *)
  w_net : list (string * string);    (* (url, text) of the HTTP calls made *)
  w_events : option (list string);   (* events handed to the publisher, if one is wired *)
  w_now : Z }.

Definition set_db (db : database) (w : world) : world :=
  {| w_db := db; w_log := w_log w; w_net := w_net w; w_events := w_events w;
     w_now := w_now w |}.

Definition log_stmt (q : stmt) (w : world) : world :=
  {| w_db := w_db w; w_log := w_log w ++ [q]; w_net := w_net w;
     w_events := w_events w; w_now := w_now w |}.

Definition log_call (url text : string) (w : world) : world :=
  {| w_db := w_db w; w_log := w_log w; w_net := w_net w ++ [(url, text)];
     w_events := w_events w; w_now := w_now w |}.

Definition M (A : Type) : Type := world -> A * world.

Definition ret {A} (a : A) : M A := fun w => (a, w).

Definition bind {A B} (c : M A) (k : A -> M B) : M B :=
  fun w => let '(a, w') := c w in k a w'.

Notation "'do' x <- c ; k" := (bind c (fun x => k))
  (at level 10, x pattern, c at level 100, k at level 200).

(** ** SQL evaluation helpers *)

(** [ORDER BY]: a stable insertion sort under the given "comes first or
    ties" test. *)
Fixpoint insert_by {A} (le : A -> A -> bool) (x : A) (l : list A) : list A :=
  match l with
  | [] => [x]
  | y :: t => if le x y then x :: y :: t else y :: insert_by le x t
  end.

Definition order_by {A} (le : A -> A -> bool) (l : list A) : list A :=
  foldr (insert_by le) [] l.

(** PostgreSQL's order on [double precision]: NaN sorts above every number. *)
Definition pg_float_le (a b : float) : bool :=
  if PrimFloat.is_nan b then true
  else if PrimFloat.is_nan a then false
  else PrimFloat.leb a b.

(** [LIMIT n] *)
Definition sql_limit {A} (n : Z) (l : list A) : list A := take (Z.to_nat n) l.

(** [COALESCE(a, b)] *)
Definition COALESCE {A} (a b : option A) : option A :=
  match a with Some _ => a | None => b end.

(** A vector bound to a [vector(384)] column must have that dimension. *)
Definition column_accepts (emb : option Vector) : bool :=
  match emb with
  | None => true
  | Some v => bool_decide (length v = schema_dim)
  end.

Definition zero_Project : Project :=
  {| p_ID := ""; p_Name := ""; p_RootPath := ""; p_Metadata := "";
     p_CreatedAt := 0; p_UpdatedAt := 0 |}.

Definition zero_Memory : Memory :=
  {| m_ID := 0; m_ProjectID := ""; m_Topic := ""; m_Key := ""; m_Value := "";
     m_CreatedAt := 0; m_UpdatedAt := 0; m_CreatedBy := ""; m_Score := 0%float |}.

Definition zero_Session : Session :=
  {| s_ID := 0; s_ProjectID := ""; s_SessionNum := 0; s_Title := "";
     s_Summary := ""; s_Content := ""; s_Metadata := ""; s_CreatedAt := 0;
     s_Score := 0%float |}.

Definition project_of_row (id : string) (r : project_row) : Project :=
  {| p_ID := id; p_Name := pr_name r; p_RootPath := pr_root_path r;
     p_Metadata := pr_metadata r; p_CreatedAt := pr_created_at r;
     p_UpdatedAt := pr_updated_at r |}.

Definition memory_of_row (k : string * string * string) (r : memory_row)
    (score : float) : Memory :=
  {| m_ID := mr_id r; m_ProjectID := k.1.1; m_Topic := k.1.2; m_Key := k.2;
     m_Value := mr_value r; m_CreatedAt := mr_created_at r;
     m_UpdatedAt := mr_updated_at r; m_CreatedBy := mr_created_by r;
     m_Score := score |}.

(** The session columns every query selects; [content] is selected by
    [GetSession] only. *)
Definition session_of_row (k : string * Z) (r : session_row)
    (content : string) (score : float) : Session :=
  {| s_ID := sr_id r; s_ProjectID := k.1; s_SessionNum := k.2;
     s_Title := sr_title r; s_Summary := sr_summary r; s_Content := content;
     s_Metadata := sr_metadata r; s_CreatedAt := sr_created_at r;
     s_Score := score |}.

Definition file_of_row (k : string * string) (r : file_row) (score : float)
    : FileEntry :=
  {| f_ID := fr_id r; f_ProjectID := k.1; f_FilePath := k.2;
     f_FileType := fr_file_type r; f_Symbols := fr_symbols r;
     f_Summary := fr_summary r; f_LastIndexed := fr_last_indexed r;
     f_Score := score |}.

(** The text the session full-text query indexes:
    [coalesce(title,'') || ' ' || coalesce(summary,'') || ' ' || coalesce(content,'')] *)
Definition session_document (r : session_row) : string :=
  sr_title r +:+ " " +:+ sr_summary r +:+ " " +:+ sr_content r.

(** Functional updates of one table. *)
Definition with_projects (t : gmap string project_row) (db : database) :=
  {| projects := t; memories := memories db; sessions := sessions db;
     file_index := file_index db; usage_stats := usage_stats db;
     memories_id_seq := memories_id_seq db;
     sessions_id_seq := sessions_id_seq db;
     file_index_id_seq := file_index_id_seq db;
     usage_stats_id_seq := usage_stats_id_seq db |}.

Definition with_memories (t : gmap (string * string * string) memory_row)
    (seq : Z) (db : database) :=
  {| projects := projects db; memories := t; sessions := sessions db;
     file_index := file_index db; usage_stats := usage_stats db;
     memories_id_seq := seq;
     sessions_id_seq := sessions_id_seq db;
     file_index_id_seq := file_index_id_seq db;
     usage_stats_id_seq := usage_stats_id_seq db |}.

Definition with_sessions (t : gmap (string * Z) session_row) (seq : Z)
    (db : database) :=
  {| projects := projects db; memories := memories db; sessions := t;
     file_index := file_index db; usage_stats := usage_stats db;
     memories_id_seq := memories_id_seq db;
     sessions_id_seq := seq;
     file_index_id_seq := file_index_id_seq db;
     usage_stats_id_seq := usage_stats_id_seq db |}.

Definition with_file_index (t : gmap (string * string) file_row) (seq : Z)
    (db : database) :=
  {| projects := projects db; memories := memories db;
     sessions := sessions db; file_index := t;
     usage_stats := usage_stats db;
     memories_id_seq := memories_id_seq db;
     sessions_id_seq := sessions_id_seq db;
     file_index_id_seq := seq;
     usage_stats_id_seq := usage_stats_id_seq db |}.

Definition with_usage_stats (t : list UsageStat) (seq : Z) (db : database) :=
  {| projects := projects db; memories := memories db;
     sessions := sessions db; file_index := file_index db;
     usage_stats := t;
     memories_id_seq := memories_id_seq db;
     sessions_id_seq := sessions_id_seq db;
     file_index_id_seq := file_index_id_seq db;
     usage_stats_id_seq := seq |}.

(** ** The PostgreSQL store (package [store], [PostgresStore]) *)

Section Store.
Context `{Externals}.

(** *** The pool *)

(** [pool.Exec]: the statement is sent.  Either the call fails, or the
    statement runs: [run] gives the error the engine answers, if any, and
    the database the statement leaves. *)
Definition pool_Exec (q : stmt)
    (run : Z -> database -> option error * database) : M (option error) :=
  fun w =>
    let w := log_stmt q w in
    if pg_fault q then (Some ErrEngine, w)
    else (fst (run (w_now w) (w_db w)),
          set_db (snd (run (w_now w) (w_db w))) w).

(** The rows of a result that [rows.Next()] delivers. *)
Definition delivered {R} (stream : option nat) (rows : list R) : list R :=
  match stream with
  | Some n => take n rows
  | None => rows
  end.

(** [pool.Query] followed by the loop
    [for rows.Next() { ...rows.Scan(...)...; xs = append(xs, x) }; return xs, nil].
    When the call returns an error the method returns it; otherwise it
    returns the rows delivered, and no error: no loop reads [rows.Err()]
    after its last [rows.Next()]. *)
Definition pool_Query {R} (q : stmt) (run : database -> list R)
    : M (list R * option error) :=
  fun w =>
    let w := log_stmt q w in
    if pg_fault q then (([], Some ErrEngine), w)
    else ((delivered (pg_stream q) (run (w_db w)), None), w).

(** [pool.QueryRow(...).Scan(...)]. *)
Definition pool_QueryRow {R} (q : stmt) (run : database -> option R)
    : M (option R * option error) :=
  fun w =>
    let w := log_stmt q w in
    if pg_fault q then ((None, Some ErrEngine), w)
    else match run (w_db w) with
         | Some r => ((Some r, None), w)
         | None => ((None, Some ErrNoRows), w)
         end.

(** *** Meaning of the statements *)

(** [INSERT INTO projects ... ON CONFLICT (id) DO UPDATE
     SET name=$2, root_path=$3, metadata=$4, updated_at=now()] *)
Definition upsert_project (id name root_path meta : string) (now : Z)
    (db : database) : option error * database :=
  let row :=
    match projects db !! id with
    | None => {| pr_name := name; pr_root_path := root_path;
                 pr_metadata := meta; pr_created_at := now;
                 pr_updated_at := now |}
    | Some old => {| pr_name := name; pr_root_path := root_path;
                     pr_metadata := meta;
                     pr_created_at := pr_created_at old;
                     pr_updated_at := now |}
    end in
  (None, with_projects (<[id := row]> (projects db)) db).

(** [SELECT ... FROM projects WHERE id=$1] *)
Definition select_project (id : string) (db : database) : option Project :=
  project_of_row id <$> projects db !! id.

(** [SELECT ... FROM projects ORDER BY name] *)
Definition select_projects (db : database) : list Project :=
  order_by (fun a b => pg_collate_le (p_Name a) (p_Name b))
    (map (fun kr => project_of_row kr.1 kr.2) (map_to_list (projects db))).

(** [INSERT INTO memories (project_id, topic, key, value, embedding, created_by)
     VALUES ($1, $2, $3, $4, $5::vector, $6)
     ON CONFLICT (project_id, topic, key) DO UPDATE
     SET value=$4, embedding=COALESCE($5::vector, memories.embedding),
         updated_at=now()]

    The row to insert takes its [id] from the table's sequence before the
    conflict is detected and before the foreign key is checked, and a
    sequence is not rolled back: an update of an existing row and an insert
    refused for its project both leave the sequence one further. *)
Definition upsert_memory (project topic key value : string)
    (emb : option Vector) (created_by : string) (now : Z) (db : database)
    : option error * database :=
  let id := memories_id_seq db in
  let drawn := with_memories (memories db) (id + 1) db in
  if negb (column_accepts emb)
  then (Some ErrDimension,
        if pg_id_drawn (UpsertMemory project topic key value emb created_by)
        then drawn else db)
  else if bool_decide (projects db !! project = None)
  then (Some ErrForeignKey, drawn)
  else
    let row :=
      match memories db !! (project, topic, key) with
      | None => {| mr_id := id; mr_value := value; mr_embedding := emb;
                   mr_created_at := now; mr_updated_at := now;
                   mr_created_by := created_by |}
      | Some old => {| mr_id := mr_id old; mr_value := value;
                       mr_embedding := COALESCE emb (mr_embedding old);
                       mr_created_at := mr_created_at old;
                       mr_updated_at := now;
                       mr_created_by := mr_created_by old |}
      end in
    (None,
     with_memories (<[(project, topic, key) := row]> (memories db))
       (id + 1) db).

(** [SELECT ... FROM memories WHERE project_id=$1 AND topic=$2 AND key=$3] *)
Definition select_memory (project topic key : string) (db : database)
    : option Memory :=
  (fun r => memory_of_row (project, topic, key) r 0%float)
    <$> memories db !! (project, topic, key).

(** [SELECT ... FROM memories WHERE project_id=$1 [AND topic=$2]
     ORDER BY topic, key] *)
Definition select_memories (project : string) (topic : option string)
    (db : database) : list Memory :=
  order_by (fun a b =>
              if String.eqb (m_Topic a) (m_Topic b)
              then pg_collate_le (m_Key a) (m_Key b)
              else pg_collate_le (m_Topic a) (m_Topic b))
    (omap (fun kr : (string * string * string) * memory_row =>
             if bool_decide (kr.1.1.1 = project)
                && match topic with
                   | Some t => bool_decide (kr.1.1.2 = t)
                   | None => true
                   end
             then Some (memory_of_row kr.1 kr.2 0%float)
             else None)
       (map_to_list (memories db))).

(** [DELETE FROM memories WHERE project_id=$1 AND topic=$2 AND key=$3] *)
Definition delete_memory (project topic key : string) (now : Z)
    (db : database) : option error * database :=
  (None,
   with_memories (delete (project, topic, key) (memories db))
     (memories_id_seq db) db).

(** [SELECT ..., 1 - (embedding <=> $2::vector) AS score FROM memories
     WHERE project_id=$1 AND embedding IS NOT NULL
     ORDER BY embedding <=> $2::vector LIMIT $3], evaluated exactly (an
    index scan may return fewer of the same rows). *)
Definition similar_memories (project : string) (v : Vector) (limit : Z)
    (db : database) : list Memory :=
  map (fun krd : ((string * string * string) * memory_row) * float =>
         memory_of_row krd.1.1 krd.1.2 (1 - krd.2)%float)
    (sql_limit limit
       (order_by (fun a b => pg_float_le a.2 b.2)
          (omap (fun kr : (string * string * string) * memory_row =>
                   if bool_decide (kr.1.1.1 = project)
                   then (fun e => (kr, cosine_distance e v))
                          <$> mr_embedding kr.2
                   else None)
             (map_to_list (memories db))))).

(** [SELECT ..., ts_rank(to_tsvector('english', value),
                         websearch_to_tsquery('english', $2)) AS score
     FROM memories
     WHERE project_id=$1
       AND to_tsvector('english', value) @@ websearch_to_tsquery('english', $2)
     ORDER BY score DESC LIMIT $3] *)
Definition keyword_memories (project query : string) (limit : Z)
    (db : database) : list Memory :=
  sql_limit limit
    (order_by (fun a b => pg_float_le (m_Score b) (m_Score a))
       (omap (fun kr : (string * string * string) * memory_row =>
                if bool_decide (kr.1.1.1 = project)
                   && ts_match (mr_value kr.2) query
                then Some (memory_of_row kr.1 kr.2
                             (ts_rank (mr_value kr.2) query))
                else None)
          (map_to_list (memories db)))).

(** [INSERT INTO sessions (project_id, session_num, title, summary, content,
                           embedding, metadata)
     VALUES ($1, $2, $3, $4, $5, $6::vector, $7)
     ON CONFLICT (project_id, session_num) DO UPDATE
     SET title=$3, summary=$4, content=$5,
         embedding=COALESCE($6::vector, sessions.embedding), metadata=$7]

    A session number that is no [INTEGER] is refused as the arguments are
    encoded, before the statement runs; the sequence moves as for
    [upsert_memory]. *)
Definition upsert_session (project : string) (num : Z)
    (title summary content : string) (emb : option Vector) (meta : string)
    (now : Z) (db : database) : option error * database :=
  let id := sessions_id_seq db in
  let drawn := with_sessions (sessions db) (id + 1) db in
  if negb (int4_ok num) then (Some ErrOutOfRange, db)
  else if negb (column_accepts emb)
  then (Some ErrDimension,
        if pg_id_drawn (UpsertSession project num title summary content emb
                          meta)
        then drawn else db)
  else if bool_decide (projects db !! project = None)
  then (Some ErrForeignKey, drawn)
  else
    let row :=
      match sessions db !! (project, num) with
      | None => {| sr_id := id; sr_title := title; sr_summary := summary;
                   sr_content := content; sr_embedding := emb;
                   sr_metadata := meta; sr_created_at := now |}
      | Some old => {| sr_id := sr_id old; sr_title := title;
                       sr_summary := summary; sr_content := content;
                       sr_embedding := COALESCE emb (sr_embedding old);
                       sr_metadata := meta;
                       sr_created_at := sr_created_at old |}
      end in
    (None,
     with_sessions (<[(project, num) := row]> (sessions db)) (id + 1) db).

(** [SELECT ..., content, ... FROM sessions
     WHERE project_id=$1 AND session_num=$2], for a number that is an
    [INTEGER] *)
Definition select_session (project : string) (num : Z) (db : database)
    : option Session :=
  (fun r => session_of_row (project, num) r (sr_content r) 0%float)
    <$> sessions db !! (project, num).

(** [SELECT ... FROM sessions WHERE project_id=$1 ORDER BY session_num] *)
Definition select_sessions (project : string) (db : database)
    : list Session :=
  order_by (fun a b => s_SessionNum a <=? s_SessionNum b)
    (omap (fun kr : (string * Z) * session_row =>
             if bool_decide (kr.1.1 = project)
             then Some (session_of_row kr.1 kr.2 "" 0%float)
             else None)
       (map_to_list (sessions db))).

Definition similar_sessions (project : string) (v : Vector) (limit : Z)
    (db : database) : list Session :=
  map (fun krd : ((string * Z) * session_row) * float =>
         session_of_row krd.1.1 krd.1.2 "" (1 - krd.2)%float)
    (sql_limit limit
       (order_by (fun a b => pg_float_le a.2 b.2)
          (omap (fun kr : (string * Z) * session_row =>
                   if bool_decide (kr.1.1 = project)
                   then (fun e => (kr, cosine_distance e v))
                          <$> sr_embedding kr.2
                   else None)
             (map_to_list (sessions db))))).

Definition keyword_sessions (project query : string) (limit : Z)
    (db : database) : list Session :=
  sql_limit limit
    (order_by (fun a b => pg_float_le (s_Score b) (s_Score a))
       (omap (fun kr : (string * Z) * session_row =>
                if bool_decide (kr.1.1 = project)
                   && ts_match (session_document kr.2) query
                then Some (session_of_row kr.1 kr.2 ""
                             (ts_rank (session_document kr.2) query))
                else None)
          (map_to_list (sessions db)))).

(** [INSERT INTO file_index (project_id, file_path, file_type, symbols,
                             summary, embedding)
     VALUES ($1, $2, $3, $4, $5, $6::vector)
     ON CONFLICT (project_id, file_path) DO UPDATE
     SET file_type=$3, symbols=$4, summary=$5,
         embedding=COALESCE($6::vector, file_index.embedding),
         last_indexed=now()]; the sequence moves as for [upsert_memory]. *)
Definition upsert_file (project path file_type symbols summary : string)
    (emb : option Vector) (now : Z) (db : database)
    : option error * database :=
  let id := file_index_id_seq db in
  let drawn := with_file_index (file_index db) (id + 1) db in
  if negb (column_accepts emb)
  then (Some ErrDimension,
        if pg_id_drawn (UpsertFile project path file_type symbols summary emb)
        then drawn else db)
  else if bool_decide (projects db !! project = None)
  then (Some ErrForeignKey, drawn)
  else
    let row :=
      match file_index db !! (project, path) with
      | None => {| fr_id := id; fr_file_type := file_type;
                   fr_symbols := symbols; fr_summary := summary;
                   fr_embedding := emb; fr_last_indexed := now |}
      | Some old => {| fr_id := fr_id old; fr_file_type := file_type;
                       fr_symbols := symbols; fr_summary := summary;
                       fr_embedding := COALESCE emb (fr_embedding old);
                       fr_last_indexed := now |}
      end in
    (None,
     with_file_index (<[(project, path) := row]> (file_index db))
       (id + 1) db).

Definition similar_files (project : string) (v : Vector) (limit : Z)
    (db : database) : list FileEntry :=
  map (fun krd : ((string * string) * file_row) * float =>
         file_of_row krd.1.1 krd.1.2 (1 - krd.2)%float)
    (sql_limit limit
       (order_by (fun a b => pg_float_le a.2 b.2)
          (omap (fun kr : (string * string) * file_row =>
                   if bool_decide (kr.1.1 = project)
                   then (fun e => (kr, cosine_distance e v))
                          <$> fr_embedding kr.2
                   else None)
             (map_to_list (file_index db))))).

Definition keyword_files (project query : string) (limit : Z)
    (db : database) : list FileEntry :=
  sql_limit limit
    (order_by (fun a b => pg_float_le (f_Score b) (f_Score a))
       (omap (fun kr : (string * string) * file_row =>
                if bool_decide (kr.1.1 = project)
                   && ts_match (fr_summary kr.2) query
                then Some (file_of_row kr.1 kr.2
                             (ts_rank (fr_summary kr.2) query))
                else None)
          (map_to_list (file_index db)))).

(** [INSERT INTO usage_stats (project_id, tool_name, query_text,
                              results_count, tokens_estimated)
     VALUES ($1, $2, $3, $4, $5)]: the project column references
    [projects(id)], the two counters are [INTEGER]s.  A counter that is no
    [INTEGER] is refused as the arguments are encoded; a row refused for its
    project has drawn its id. *)
Definition insert_usage (project tool query : string) (results tokens : Z)
    (now : Z) (db : database) : option error * database :=
  let id := usage_stats_id_seq db in
  if negb (int4_ok results && int4_ok tokens) then (Some ErrOutOfRange, db)
  else if bool_decide (projects db !! project = None)
  then (Some ErrForeignKey, with_usage_stats (usage_stats db) (id + 1) db)
  else
    (None,
     with_usage_stats
       (usage_stats db ++
          [{| u_ID := id; u_ProjectID := project; u_ToolName := tool;
              u_QueryText := query; u_ResultsCount := results;
              u_TokensEstimated := tokens; u_CreatedAt := now |}])
       (id + 1) db).

(** *** The store's methods

    A method that returns [(T, error)] returns a pair here; a [nil] error
    is [None] and a [nil] pointer is [None].  [vectorToString] renders a
    vector as the literal the engine reads back, so the statement carries
    the vector itself. *)

Definition CreateProject (p : Project) : M (option error) :=
  pool_Exec (UpsertProject (p_ID p) (p_Name p) (p_RootPath p) (p_Metadata p))
    (upsert_project (p_ID p) (p_Name p) (p_RootPath p) (p_Metadata p)).

Definition GetProject (id : string) : M (option Project * option error) :=
  do (r, err) <- pool_QueryRow (SelectProject id) (select_project id);
  match err with
  | Some ErrNoRows => ret (None, None)
  | Some e => ret (None, Some e)
  | None => ret (Some (default zero_Project r), None)
  end.

Definition ListProjects : M (list Project * option error) :=
  pool_Query SelectProjects select_projects.

Definition SetMemory (m : Memory) (embedding : option Vector)
    : M (option error) :=
  pool_Exec
    (UpsertMemory (m_ProjectID m) (m_Topic m) (m_Key m) (m_Value m)
       embedding (m_CreatedBy m))
    (upsert_memory (m_ProjectID m) (m_Topic m) (m_Key m) (m_Value m)
       embedding (m_CreatedBy m)).

Definition GetMemory (projectID topic key : string)
    : M (option Memory * option error) :=
  do (r, err) <- pool_QueryRow (SelectMemory projectID topic key)
                    (select_memory projectID topic key);
  match err with
  | Some ErrNoRows => ret (None, None)
  | _ => ret (Some (default zero_Memory r), err)
  end.

Definition ListMemories (projectID topic : string)
    : M (list Memory * option error) :=
  let filter := if String.eqb topic "" then None else Some topic in
  pool_Query (SelectMemories projectID filter)
    (select_memories projectID filter).

Definition DeleteMemory (projectID topic key : string) : M (option error) :=
  pool_Exec (DeleteMemoryRow projectID topic key)
    (delete_memory projectID topic key).

Definition default_limit (limit : Z) : Z :=
  if limit <=? 0 then 10 else limit.

Definition SearchMemories (projectID query : string)
    (embedding : option Vector) (limit : Z)
    : M (list Memory * option error) :=
  let limit := default_limit limit in
  match embedding with
  | Some v =>
      pool_Query (SimilarMemories projectID v limit)
        (similar_memories projectID v limit)
  | None =>
      pool_Query (KeywordMemories projectID query limit)
        (keyword_memories projectID query limit)
  end.

Definition CreateSession (sess : Session) (embedding : option Vector)
    : M (option error) :=
  pool_Exec
    (UpsertSession (s_ProjectID sess) (s_SessionNum sess) (s_Title sess)
       (s_Summary sess) (s_Content sess) embedding (s_Metadata sess))
    (upsert_session (s_ProjectID sess) (s_SessionNum sess) (s_Title sess)
       (s_Summary sess) (s_Content sess) embedding (s_Metadata sess)).

(** [sessionNum] is a Go [int] bound to an [INTEGER] column: when the call
    gets as far as encoding its arguments, a number outside that type is
    refused there, and [Scan] returns that error. *)
Definition GetSession (projectID : string) (sessionNum : Z)
    : M (option Session * option error) :=
  do (r, err) <-
    (if int4_ok sessionNum
     then pool_QueryRow (SelectSession projectID sessionNum)
            (select_session projectID sessionNum)
     else fun w =>
            ((None,
              Some (if pg_fault (SelectSession projectID sessionNum)
                    then ErrEngine else ErrOutOfRange)),
             log_stmt (SelectSession projectID sessionNum) w));
  match err with
  | Some ErrNoRows => ret (None, None)
  | Some e => ret (None, Some e)
  | None => ret (Some (default zero_Session r), None)
  end.

Definition ListSessions (projectID : string)
    : M (list Session * option error) :=
  pool_Query (SelectSessions projectID) (select_sessions projectID).

Definition SearchSessions (projectID query : string)
    (embedding : option Vector) (limit : Z)
    : M (list Session * option error) :=
  let limit := default_limit limit in
  match embedding with
  | Some v =>
      pool_Query (SimilarSessions projectID v limit)
        (similar_sessions projectID v limit)
  | None =>
      pool_Query (KeywordSessions projectID query limit)
        (keyword_sessions projectID query limit)
  end.

Definition IndexFile (f : FileEntry) (embedding : option Vector)
    : M (option error) :=
  pool_Exec
    (UpsertFile (f_ProjectID f) (f_FilePath f) (f_FileType f) (f_Symbols f)
       (f_Summary f) embedding)
    (upsert_file (f_ProjectID f) (f_FilePath f) (f_FileType f)
       (f_Symbols f) (f_Summary f) embedding).

Definition SearchFiles (projectID query : string)
    (embedding : option Vector) (limit : Z)
    : M (list FileEntry * option error) :=
  let limit := default_limit limit in
  match embedding with
  | Some v =>
      pool_Query (SimilarFiles projectID v limit)
        (similar_files projectID v limit)
  | None =>
      pool_Query (KeywordFiles projectID query limit)
        (keyword_files projectID query limit)
  end.

Definition RecordUsage (u : UsageStat) : M (option error) :=
  pool_Exec
    (InsertUsage (u_ProjectID u) (u_ToolName u) (u_QueryText u)
       (u_ResultsCount u) (u_TokensEstimated u))
    (insert_usage (u_ProjectID u) (u_ToolName u) (u_QueryText u)
       (u_ResultsCount u) (u_TokensEstimated u)).

(** *** Cross-entity search *)

Definition empty_result : SearchAllResult :=
  {| Memories := []; Sessions := []; Files := [] |}.

(** One iteration of [for _, p := range projects]. *)
Definition search_project (query : string) (embedding : option Vector)
    (limit : Z) (p : Project) (result : SearchAllResult)
    : M SearchAllResult :=
  do (memories, err) <- SearchMemories (p_ID p) query embedding limit;
  let result :=
    match err with
    | None => {| Memories := Memories result ++ memories;
                 Sessions := Sessions result; Files := Files result |}
    | Some _ => result
    end in
  do (sessions, err) <- SearchSessions (p_ID p) query embedding limit;
  let result :=
    match err with
    | None => {| Memories := Memories result;
                 Sessions := Sessions result ++ sessions;
                 Files := Files result |}
    | Some _ => result
    end in
  do (files, err) <- SearchFiles (p_ID p) query embedding limit;
  let result :=
    match err with
    | None => {| Memories := Memories result; Sessions := Sessions result;
                 Files := Files result ++ files |}
    | Some _ => result
    end in
  ret result.

Fixpoint search_projects (query : string) (embedding : option Vector)
    (limit : Z) (ps : list Project) (result : SearchAllResult)
    : M SearchAllResult :=
  match ps with
  | [] => ret result
  | p :: ps' =>
      do result <- search_project query embedding limit p result;
      search_projects query embedding limit ps' result
  end.

Definition SearchAll (query : string) (embedding : option Vector)
    (limit : Z) : M (SearchAllResult * option error) :=
  let limit := default_limit limit in
  do (projects, err) <- ListProjects;
  match err with
  | Some e => ret (empty_result, Some e)
  | None =>
      do result <- search_projects query embedding limit projects
                     empty_result;
      ret ({| Memories := cap limit (sort_desc m_Score (Memories result));
              Sessions := cap limit (sort_desc s_Score (Sessions result));
              Files := cap limit (sort_desc f_Score (Files result)) |},
           None)
  end.

End Store.

(** ** The embedding gateway (package [embedding]) *)

Record Service := { svc_url : string; svc_dim : Z }.

Definition Enabled (s : Service) : bool := negb (String.eqb (svc_url s) "").

(** [len(v)] of a possibly [nil] slice. *)
Definition len {A} (v : option (list A)) : Z :=
  Z.of_nat (length (default [] v)).

(** [func (s *Service) Embed(ctx, text string) []float32].  Marshalling a
    struct that holds one string cannot fail; building the request fails
    when the address does not parse; the HTTP exchange is [http_do]. *)
Definition Embed `{Externals} (s : Service) (text : string)
    : M (option Vector) :=
  if negb (Enabled s) || String.eqb text "" then ret None
  else if negb (url_ok (svc_url s)) then ret None
  else fun w =>
    let w := log_call (svc_url s) text w in
    match http_do (svc_url s) text with
    | TransportError => (None, w)
    | Response status body =>
        if negb (status =? 200) then (None, w)
        else match body with
             | DecodeError => (None, w)
             | Decoded embedding =>
                 if negb (len embedding =? svc_dim s) then (None, w)
                 else (embedding, w)
             end
    end.

(** [Status] *)
Definition Status (s : Service) : string :=
  if negb (Enabled s)
  then "disabled (no EMBEDDING_URL configured, using keyword search only)"
  else "enabled (url=" +:+ svc_url s +:+ ", dim=" +:+ pretty (svc_dim s) +:+ ")".

(** ** The event bus (package [web])

    A channel is a heap object: the bus state holds the channels that
    [Subscribe] has made, by identity, next to the registry [clients] of the
    [EventBus] itself.  A channel is never closed by the bus; the flag is
    part of the channel all the same, since both a send and a [range]
    depend on it.  What a method does between [Lock] and [Unlock] is one
    step; the loop of [unsub] runs after its [Unlock]. *)

Module EventBus.

Record chan := { buf : list string; capacity : nat; closed : bool }.

Record state := { chans : gmap nat chan; clients : gset nat }.

Inductive outcome (A : Type) :=
| Returned (a : A) (s : state)    (* the call returns *)
| Panicked (s : state)            (* send on a closed channel *)
| Blocked (s : state).            (* the goroutine waits on a channel on
                                     which nobody sends *)
Arguments Returned {A} a s.
Arguments Panicked {A} s.
Arguments Blocked {A} s.

Definition NewEventBus : state := {| chans := ∅; clients := ∅ |}.

(** [make(chan string, n)] *)
Definition make_chan (n : nat) : chan :=
  {| buf := []; capacity := n; closed := false |}.

Definition set_buf (b : list string) (c : chan) : chan :=
  {| buf := b; capacity := capacity c; closed := closed c |}.

Definition full (c : chan) : bool := (capacity c <=? length (buf c))%nat.

(** [select { case ch <- event: default: }] on an open channel. *)
Definition try_send (event : string) (c : chan) : chan :=
  if full c then c else set_buf (buf c ++ [event]) c.

Inductive received :=
| Got (x : string) (c : chan)
| Done                            (* closed and empty: a [range] ends *)
| Wait.                           (* open and empty: the receiver waits *)

(** [<-ch] *)
Definition recv (c : chan) : received :=
  match buf c with
  | x :: rest => Got x (set_buf rest c)
  | [] => if closed c then Done else Wait
  end.

(** [Subscribe]: the new channel and the state; the returned [unsub] is
    [unsub ch] below. *)
Definition Subscribe (s : state) : nat * state :=
  let ch := fresh (dom (chans s)) in
  (ch, {| chans := <[ch := make_chan 16]> (chans s);
          clients := {[ch]} ∪ clients s |}).

(** [for range ch { }]: one receive per iteration.  [pending] is the buffer
    of [c], so a receive finds a message exactly while [pending] is not
    empty; after the last one the loop ends on a closed channel and waits on
    an open one ([true]: the loop has ended). *)
Fixpoint range_chan (pending : list string) (c : chan) : bool * chan :=
  match pending with
  | _ :: rest =>
      match recv c with
      | Got _ c' => range_chan rest c'
      | Done => (true, c)
      | Wait => (false, c)
      end
  | [] =>
      match recv c with
      | Got _ c' => (false, c')
      | Done => (true, c)
      | Wait => (false, c)
      end
  end.

(** The closure [unsub] that [Subscribe] returns for channel [ch]. *)
Definition unsub (ch : nat) (s : state) : outcome unit :=
  let s := {| chans := chans s; clients := clients s ∖ {[ch]} |} in
  match chans s !! ch with
  | None => Returned tt s
  | Some c =>
      let '(ended, c') := range_chan (buf c) c in
      let s := {| chans := <[ch := c']> (chans s); clients := clients s |} in
      if ended then Returned tt s else Blocked s
  end.

(** The body of [for ch := range eb.clients] over the clients in the
    order the map yields them. *)
Fixpoint publish_to (event : string) (chs : list nat) (s : state)
    : outcome unit :=
  match chs with
  | [] => Returned tt s
  | ch :: rest =>
      match chans s !! ch with
      | None => publish_to event rest s
      | Some c =>
          if closed c then Panicked s
          else publish_to event rest
                 {| chans := <[ch := try_send event c]> (chans s);
                    clients := clients s |}
      end
  end.

Definition Publish (event : string) (s : state) : outcome unit :=
  publish_to event (elements (clients s)) s.

(** The subscriber takes one message from its inbox. *)
Definition take_one (ch : nat) (s : state) : option (string * state) :=
  match chans s !! ch with
  | Some c =>
      match recv c with
      | Got x c' => Some (x, {| chans := <[ch := c']> (chans s);
                                clients := clients s |})
      | _ => None
      end
  | None => None
  end.

Definition state_of {A} (o : outcome A) : state :=
  match o with Returned _ s | Panicked s | Blocked s => s end.

(** The states the bus gets into from a new one. *)
Inductive step : state -> state -> Prop :=
| step_Subscribe s : step s (Subscribe s).2
| step_Publish s event : step s (state_of (Publish event s))
| step_take s ch x s' : take_one ch s = Some (x, s') -> step s s'
| step_unsub s ch : ch ∈ dom (chans s) -> step s (state_of (unsub ch s)).

Definition reachable (s : state) : Prop := rtc step NewEventBus s.

(** Every registered client is a channel of the heap, and no channel is
    closed. *)
Definition well_formed (s : state) : bool :=
  forallb (fun ch => bool_decide (is_Some (chans s !! ch)))
    (elements (clients s))
  && forallb (fun kc : nat * chan => negb (closed kc.2))
       (map_to_list (chans s)).

End EventBus.

(** ** The MCP server (package [mcp]) *)

(** A tool argument: a string, or another JSON value with its [%v]
    rendering. *)
Inductive arg :=
| ArgString (s : string)
| ArgOther (rendered : string).

Definition request := gmap string arg.

Definition stringArg (req : request) (name : string) : string :=
  match req !! name with
  | None => ""
  | Some (ArgString s) => s
  | Some (ArgOther rendered) => rendered
  end.

Definition intArg `{Externals} (req : request) (name : string)
    (defaultVal : Z) : Z :=
  let v := stringArg req name in
  if String.eqb v "" then defaultVal
  else match Atoi v with
       | Some n => n
       | None => defaultVal
       end.

(** The text of a result: a message, or the JSON rendering of a value, which
    is kept as the value. *)
Inductive tool_text :=
| Plain (s : string)
| JSONProjects (projects : list Project)
| JSONStatus (project : Project) (memory_count session_count : Z)
             (embedding_status : string)
| JSONMemory (m : Memory)
| JSONMemories (l : list Memory)
| JSONSession (s : Session)
| JSONSessions (l : list Session)
| JSONMemorySearch (search_type query : string) (count : Z)
                   (results : list Memory)
| JSONSessionSearch (search_type query : string) (count : Z)
                    (results : list Session)
| JSONFileSearch (search_type query : string) (count : Z)
                 (results : list FileEntry).

Inductive CallToolResult :=
| ToolResultText (text : tool_text)
| ToolResultError (msg : string).

(** [%v] of an error. *)
Definition error_text (e : error) : string :=
  match e with
  | ErrNoRows => "no rows in result set"
  | ErrEngine => "engine failure"
  | ErrForeignKey => "violates foreign key constraint"
  | ErrDimension => "expected 384 dimensions"
  | ErrOutOfRange => "value out of range for type integer"
  end.

Definition search_type (emb : option Vector) : string :=
  match emb with
  | Some _ => "semantic (vector)"
  | None => "full-text"
  end.

Section Server.
Context `{Externals}.

(** The embedding service of the [Server]; its store and its optional
    publisher live in the world. *)
Variable embedding : Service.

(** [s.events.Publish(event)] when a publisher is wired. *)
Definition publish (event : string) : M unit :=
  fun w =>
    (tt, {| w_db := w_db w; w_log := w_log w; w_net := w_net w;
            w_events := (fun l => l ++ [event]) <$> w_events w;
            w_now := w_now w |}).

(** [recordUsage]: a failed insert is logged and otherwise ignored. *)
Definition recordUsage (toolName projectID query : string)
    (resultsCount : Z) : M unit :=
  let tokens := tokenEstimate toolName resultsCount in
  do _ <- RecordUsage {| u_ID := 0; u_ProjectID := projectID;
                         u_ToolName := toolName; u_QueryText := query;
                         u_ResultsCount := resultsCount;
                         u_TokensEstimated := tokens; u_CreatedAt := 0 |};
  publish "dashboard-stats".

Definition count {A} (l : list A) : Z := Z.of_nat (length l).

Definition handleProjectRegister (req : request) : M CallToolResult :=
  let id := stringArg req "id" in
  let name := stringArg req "name" in
  let rootPath := stringArg req "root_path" in
  if String.eqb id "" || String.eqb name ""
  then ret (ToolResultError "id and name are required")
  else
    do err <- CreateProject {| p_ID := id; p_Name := name;
                               p_RootPath := rootPath; p_Metadata := "null";
                               p_CreatedAt := 0; p_UpdatedAt := 0 |};
    match err with
    | Some e => ret (ToolResultError ("create project: " +:+ error_text e))
    | None =>
        do _ <- recordUsage "project_register" id "" 1;
        ret (ToolResultText
               (Plain ("Project '" +:+ name +:+ "' registered (id=" +:+ id
                       +:+ ")")))
    end.

Definition handleProjectList (req : request) : M CallToolResult :=
  do (projects, err) <- ListProjects;
  match err with
  | Some e => ret (ToolResultError ("list projects: " +:+ error_text e))
  | None =>
      do _ <- recordUsage "project_list" "" "" (count projects);
      ret (ToolResultText (JSONProjects projects))
  end.

Definition handleProjectStatus (req : request) : M CallToolResult :=
  let projectID := stringArg req "project_id" in
  if String.eqb projectID ""
  then ret (ToolResultError "project_id is required")
  else
    do (p, err) <- GetProject projectID;
    match err, p with
    | Some e, _ => ret (ToolResultError ("get project: " +:+ error_text e))
    | None, None =>
        ret (ToolResultError ("project '" +:+ projectID +:+ "' not found"))
    | None, Some p =>
        do (memories, _) <- ListMemories projectID "";
        do (sessions, _) <- ListSessions projectID;
        do _ <- recordUsage "project_status" projectID "" 1;
        ret (ToolResultText
               (JSONStatus p (count memories) (count sessions)
                  (Status embedding)))
    end.

Definition handleMemorySet (req : request) : M CallToolResult :=
  let projectID := stringArg req "project_id" in
  let topic := stringArg req "topic" in
  let key := stringArg req "key" in
  let value := stringArg req "value" in
  if String.eqb projectID "" || String.eqb topic "" || String.eqb key ""
     || String.eqb value ""
  then ret (ToolResultError "project_id, topic, key, and value are required")
  else
    do emb <- Embed embedding value;
    do err <- SetMemory {| m_ID := 0; m_ProjectID := projectID;
                           m_Topic := topic; m_Key := key; m_Value := value;
                           m_CreatedAt := 0; m_UpdatedAt := 0;
                           m_CreatedBy := ""; m_Score := 0%float |} emb;
    match err with
    | Some e => ret (ToolResultError ("set memory: " +:+ error_text e))
    | None =>
        let embedded := match emb with Some _ => "yes" | None => "no" end in
        do _ <- recordUsage "memory_set" projectID (topic +:+ "/" +:+ key) 1;
        ret (ToolResultText
               (Plain ("Memory set: " +:+ topic +:+ "/" +:+ key
                       +:+ " (embedded: " +:+ embedded +:+ ")")))
    end.

Definition handleMemoryGet (req : request) : M CallToolResult :=
  let projectID := stringArg req "project_id" in
  let topic := stringArg req "topic" in
  let key := stringArg req "key" in
  do (m, err) <- GetMemory projectID topic key;
  match err, m with
  | Some e, _ => ret (ToolResultError ("get memory: " +:+ error_text e))
  | None, None => ret (ToolResultText (Plain "not found"))
  | None, Some m =>
      do _ <- recordUsage "memory_get" projectID (topic +:+ "/" +:+ key) 1;
      ret (ToolResultText (JSONMemory m))
  end.

Definition handleMemoryList (req : request) : M CallToolResult :=
  let projectID := stringArg req "project_id" in
  let topic := stringArg req "topic" in
  do (memories, err) <- ListMemories projectID topic;
  match err with
  | Some e => ret (ToolResultError ("list memories: " +:+ error_text e))
  | None =>
      do _ <- recordUsage "memory_list" projectID topic (count memories);
      ret (ToolResultText (JSONMemories memories))
  end.

Definition handleMemorySearch (req : request) : M CallToolResult :=
  let projectID := stringArg req "project_id" in
  let query := stringArg req "query" in
  let limit := intArg req "limit" 10 in
  if String.eqb projectID "" || String.eqb query ""
  then ret (ToolResultError "project_id and query are required")
  else
    do emb <- Embed embedding query;
    do (results, err) <- SearchMemories projectID query emb limit;
    match err with
    | Some e => ret (ToolResultError ("search memories: " +:+ error_text e))
    | None =>
        do _ <- recordUsage "memory_search" projectID query (count results);
        ret (ToolResultText
               (JSONMemorySearch (search_type emb) query (count results)
                  results))
    end.

Definition handleMemoryDelete (req : request) : M CallToolResult :=
  let projectID := stringArg req "project_id" in
  let topic := stringArg req "topic" in
  let key := stringArg req "key" in
  do err <- DeleteMemory projectID topic key;
  match err with
  | Some e => ret (ToolResultError ("delete memory: " +:+ error_text e))
  | None =>
      do _ <- recordUsage "memory_delete" projectID (topic +:+ "/" +:+ key) 0;
      ret (ToolResultText (Plain ("Deleted: " +:+ topic +:+ "/" +:+ key)))
  end.

Definition handleSessionCreate (req : request) : M CallToolResult :=
  let projectID := stringArg req "project_id" in
  let sessionNum := intArg req "session_num" 0 in
  let title := stringArg req "title" in
  let summary := stringArg req "summary" in
  let content := stringArg req "content" in
  if String.eqb projectID "" || (sessionNum =? 0) || String.eqb title ""
  then ret (ToolResultError "project_id, session_num, and title are required")
  else
    let embText := if String.eqb summary "" then title else summary in
    do emb <- Embed embedding embText;
    do err <- CreateSession {| s_ID := 0; s_ProjectID := projectID;
                               s_SessionNum := sessionNum; s_Title := title;
                               s_Summary := summary; s_Content := content;
                               s_Metadata := "null"; s_CreatedAt := 0;
                               s_Score := 0%float |} emb;
    match err with
    | Some e => ret (ToolResultError ("create session: " +:+ error_text e))
    | None =>
        do _ <- recordUsage "session_create" projectID title 1;
        ret (ToolResultText
               (Plain ("Session " +:+ pretty sessionNum +:+ " created: "
                       +:+ title)))
    end.

Definition handleSessionGet (req : request) : M CallToolResult :=
  let projectID := stringArg req "project_id" in
  let sessionNum := intArg req "session_num" 0 in
  do (sess, err) <- GetSession projectID sessionNum;
  match err, sess with
  | Some e, _ => ret (ToolResultError ("get session: " +:+ error_text e))
  | None, None => ret (ToolResultText (Plain "not found"))
  | None, Some sess =>
      do _ <- recordUsage "session_get" projectID "" 1;
      ret (ToolResultText (JSONSession sess))
  end.

Definition handleSessionList (req : request) : M CallToolResult :=
  let projectID := stringArg req "project_id" in
  do (sessions, err) <- ListSessions projectID;
  match err with
  | Some e => ret (ToolResultError ("list sessions: " +:+ error_text e))
  | None =>
      do _ <- recordUsage "session_list" projectID "" (count sessions);
      ret (ToolResultText (JSONSessions sessions))
  end.

Definition handleSessionSearch (req : request) : M CallToolResult :=
  let projectID := stringArg req "project_id" in
  let query := stringArg req "query" in
  let limit := intArg req "limit" 10 in
  if String.eqb projectID "" || String.eqb query ""
  then ret (ToolResultError "project_id and query are required")
  else
    do emb <- Embed embedding query;
    do (results, err) <- SearchSessions projectID query emb limit;
    match err with
    | Some e => ret (ToolResultError ("search sessions: " +:+ error_text e))
    | None =>
        do _ <- recordUsage "session_search" projectID query (count results);
        ret (ToolResultText
               (JSONSessionSearch (search_type emb) query (count results)
                  results))
    end.

(** [var symbols []any] stays [nil] unless the argument decodes as a JSON
    array; [IndexFile] stores what [json.Marshal] makes of it, [null] for a
    [nil] slice. *)
Definition handleFileIndex (req : request) : M CallToolResult :=
  let projectID := stringArg req "project_id" in
  let filePath := stringArg req "file_path" in
  let fileType := stringArg req "file_type" in
  let summary := stringArg req "summary" in
  let symbolsStr := stringArg req "symbols" in
  if String.eqb projectID "" || String.eqb filePath ""
  then ret (ToolResultError "project_id and file_path are required")
  else
    let symbols :=
      if String.eqb symbolsStr "" then None else json_array symbolsStr in
    do emb <- Embed embedding summary;
    do err <- IndexFile {| f_ID := 0; f_ProjectID := projectID;
                           f_FilePath := filePath; f_FileType := fileType;
                           f_Symbols := default "null" symbols;
                           f_Summary := summary;
                           f_LastIndexed := 0; f_Score := 0%float |} emb;
    match err with
    | Some e => ret (ToolResultError ("index file: " +:+ error_text e))
    | None =>
        do _ <- recordUsage "file_index" projectID filePath 1;
        ret (ToolResultText (Plain ("Indexed: " +:+ filePath)))
    end.

Definition handleFileSearch (req : request) : M CallToolResult :=
  let projectID := stringArg req "project_id" in
  let query := stringArg req "query" in
  let limit := intArg req "limit" 10 in
  if String.eqb projectID "" || String.eqb query ""
  then ret (ToolResultError "project_id and query are required")
  else
    do emb <- Embed embedding query;
    do (results, err) <- SearchFiles projectID query emb limit;
    match err with
    | Some e => ret (ToolResultError ("search files: " +:+ error_text e))
    | None =>
        do _ <- recordUsage "file_search" projectID query (count results);
        ret (ToolResultText
               (JSONFileSearch (search_type emb) query (count results)
                  results))
    end.

(** The tools [registerTools] registers, and the handler of each. *)
Inductive tool :=
| project_register | project_list | project_status
| memory_set | memory_get | memory_list | memory_search | memory_delete
| session_create | session_get | session_list | session_search
| file_index_tool | file_search.

Definition tool_name (t : tool) : string :=
  match t with
  | project_register => "project_register"
  | project_list => "project_list"
  | project_status => "project_status"
  | memory_set => "memory_set"
  | memory_get => "memory_get"
  | memory_list => "memory_list"
  | memory_search => "memory_search"
  | memory_delete => "memory_delete"
  | session_create => "session_create"
  | session_get => "session_get"
  | session_list => "session_list"
  | session_search => "session_search"
  | file_index_tool => "file_index"
  | file_search => "file_search"
  end.

Definition handler (t : tool) : request -> M CallToolResult :=
  match t with
  | project_register => handleProjectRegister
  | project_list => handleProjectList
  | project_status => handleProjectStatus
  | memory_set => handleMemorySet
  | memory_get => handleMemoryGet
  | memory_list => handleMemoryList
  | memory_search => handleMemorySearch
  | memory_delete => handleMemoryDelete
  | session_create => handleSessionCreate
  | session_get => handleSessionGet
  | session_list => handleSessionList
  | session_search => handleSessionSearch
  | file_index_tool => handleFileIndex
  | file_search => handleFileSearch
  end.

End Server.

(** ** Vocabulary for the properties *)

(** Between two worlds exactly one statement was sent, of the given
    strategy. *)
Definition runs_only (s : strategy) (w w' : world) : Prop :=
  exists q, w_log w' = w_log w ++ [q] /\ strategy_of q = Some s.

(** The strategy that goes with a query vector. *)
Definition chosen (embedding : option Vector) : strategy :=
  match embedding with Some _ => Similarity | None => Keyword end.

(** What one tenant contributes to an aggregation: its results, or nothing
    when its search failed. *)
Definition contribution {A} (r : list A * option error) : list A :=
  match r.2 with
  | None => r.1
  | Some _ => []
  end.

(** Sortedness by "greater or equal", and lists without a NaN score. *)
Definition sorted_ge {A} (score : A -> float) (l : list A) : Prop :=
  StronglySorted (fun a b => Score.ge (score a) (score b) = true) l.

Definition no_nan {A} (score : A -> float) (l : list A) : Prop :=
  Forall (fun a => Score.is_nan (score a) = false) l.

Definition is_error (r : CallToolResult) : bool :=
  match r with ToolResultError _ => true | ToolResultText _ => false end.

Section Views.
Context `{Externals}.

(** Where a search result comes from: with a query vector, a row that
    stores a vector, scored by similarity; without one, a row whose text
    matches the query, scored by relevance. *)
Definition memory_source (db : database) (query : string)
    (embedding : option Vector) (m : Memory) : Prop :=
  exists row,
    memories db !! (m_ProjectID m, m_Topic m, m_Key m) = Some row /\
    match embedding with
    | Some v => exists e, mr_embedding row = Some e /\
                          m_Score m = (1 - cosine_distance e v)%float
    | None => ts_match (mr_value row) query = true /\
              m_Score m = ts_rank (mr_value row) query
    end.

Definition session_source (db : database) (query : string)
    (embedding : option Vector) (s : Session) : Prop :=
  exists row,
    sessions db !! (s_ProjectID s, s_SessionNum s) = Some row /\
    match embedding with
    | Some v => exists e, sr_embedding row = Some e /\
                          s_Score s = (1 - cosine_distance e v)%float
    | None => ts_match (session_document row) query = true /\
              s_Score s = ts_rank (session_document row) query
    end.

Definition file_source (db : database) (query : string)
    (embedding : option Vector) (f : FileEntry) : Prop :=
  exists row,
    file_index db !! (f_ProjectID f, f_FilePath f) = Some row /\
    match embedding with
    | Some v => exists e, fr_embedding row = Some e /\
                          f_Score f = (1 - cosine_distance e v)%float
    | None => ts_match (fr_summary row) query = true /\
              f_Score f = ts_rank (fr_summary row) query
    end.

(** What tenant [p] contributes to each kind in world [w]. *)
Definition memories_of_tenant (query : string) (embedding : option Vector)
    (limit : Z) (w : world) (p : Project) : list Memory :=
  contribution (SearchMemories (p_ID p) query embedding limit w).1.

Definition sessions_of_tenant (query : string) (embedding : option Vector)
    (limit : Z) (w : world) (p : Project) : list Session :=
  contribution (SearchSessions (p_ID p) query embedding limit w).1.

Definition files_of_tenant (query : string) (embedding : option Vector)
    (limit : Z) (w : world) (p : Project) : list FileEntry :=
  contribution (SearchFiles (p_ID p) query embedding limit w).1.

End Views.

(** Accounting vocabulary: the usage inserts sent and the accounting records
    appended between two worlds. *)
Definition is_usage_insert (q : stmt) : bool :=
  match q with InsertUsage _ _ _ _ _ => true | _ => false end.

Definition usage_inserts (w w' : world) : list stmt :=
  List.filter is_usage_insert (drop (length (w_log w)) (w_log w')).

Definition recorded (w w' : world) : list UsageStat :=
  drop (length (usage_stats (w_db w))) (usage_stats (w_db w')).

(** The store takes a usage insert: the engine answers, both counters fit an
    [INTEGER] and the named project exists. *)
Definition accepts `{Externals} (db : database) (q : stmt) : bool :=
  match q with
  | InsertUsage project _ _ results tokens =>
      negb (pg_fault q) && int4_ok results && int4_ok tokens
      && bool_decide (is_Some (projects db !! project))
  | _ => false
  end.

(** A result that reports a performed operation: not an error result and
    not the "not found" reply of a read. *)
Definition performed (r : CallToolResult) : bool :=
  match r with
  | ToolResultError _ => false
  | ToolResultText (Plain s) => negb (String.eqb s "not found")
  | ToolResultText _ => true
  end.

Section Accounting.
Context `{Externals}.

(** Between [w] and [w'] statements were sent, none of them a usage
    insert, and the accounting table did not change. *)
Definition quiet (w w' : world) : Prop :=
  (exists qs, w_log w' = w_log w ++ qs /\
              List.filter is_usage_insert qs = []) /\
  usage_stats (w_db w') = usage_stats (w_db w).

(** The accounting of one tool call, from the world before and the result
    and world after. *)
Definition accounted (t : tool) (w : world) (rw : CallToolResult * world)
    : Prop :=
  let r := rw.1 in
  let w' := rw.2 in
  usage_stats (w_db w') = usage_stats (w_db w) ++ recorded w w' /\
  if performed r
  then exists project query n,
      usage_inserts w w' =
        [InsertUsage project (tool_name t) query n
           (tokenEstimate (tool_name t) n)] /\
      length (recorded w w') =
        (if accepts (w_db w')
              (InsertUsage project (tool_name t) query n
                 (tokenEstimate (tool_name t) n))
         then 1 else 0)%nat /\
      Forall (fun u => u_ProjectID u = project /\
                       u_ToolName u = tool_name t /\
                       u_QueryText u = query /\ u_ResultsCount u = n /\
                       u_TokensEstimated u = tokenEstimate (tool_name t) n)
        (recorded w w')
  else usage_inserts w w' = [] /\ recorded w w' = [].

End Accounting.

(** ** Concrete worlds, for examples *)

Module Demo.

(** An engine that answers every statement, in full, with texts in byte
    order.  The examples pass no number and no symbols as text, so [Atoi]
    and [json_array] have nothing to decode. *)
Definition healthy : Externals := {|
  pg_fault := fun _ => false;
  pg_stream := fun _ => None;
  pg_collate_le := String.leb;
  pg_id_drawn := fun _ => false;
  cosine_distance := fun _ _ => 0.25%float;
  ts_match := fun doc q =>
    match String.index 0 q doc with Some _ => true | None => false end;
  ts_rank := fun doc _ =>
    match String.length doc with
    | 6%nat => 0.25%float
    | 7%nat => 0.5%float
    | 8%nat => 0.75%float
    | _ => 0.125%float
    end;
  url_ok := fun _ => true;
  http_do := fun _ _ => TransportError;
  Atoi := fun _ => None;
  json_array := fun _ => None |}.

(** The same engine, failing on the keyword search over the memories of
    tenant ["t1"]. *)
Definition flaky : Externals := {|
  pg_fault := fun q =>
    match q with
    | KeywordMemories p _ _ => String.eqb p "t1"
    | _ => false
    end;
  pg_stream := @pg_stream healthy;
  pg_collate_le := @pg_collate_le healthy;
  pg_id_drawn := @pg_id_drawn healthy;
  cosine_distance := @cosine_distance healthy;
  ts_match := @ts_match healthy;
  ts_rank := @ts_rank healthy;
  url_ok := @url_ok healthy;
  http_do := @http_do healthy;
  Atoi := @Atoi healthy;
  json_array := @json_array healthy |}.

Definition tenant (name : string) : project_row :=
  {| pr_name := name; pr_root_path := ""; pr_metadata := "null";
     pr_created_at := 0; pr_updated_at := 0 |}.

Definition note (id : Z) (value : string) (emb : option Vector)
    : memory_row :=
  {| mr_id := id; mr_value := value; mr_embedding := emb;
     mr_created_at := 0; mr_updated_at := 0; mr_created_by := "" |}.

Definition stored_vector : Vector := replicate 384 0.5%float.
Definition new_vector : Vector := replicate 384 0.125%float.

(** Two tenants with three notes each, every note matching ["auth"]; one
    note of ["t1"] stores a vector. *)
Definition db0 : database :=
  {| projects := {[ "t1" := tenant "one"; "t2" := tenant "two" ]};
     memories :=
       list_to_map
         [ (("t1", "arch", "a"), note 1 "auth a" (Some stored_vector));
           (("t1", "arch", "b"), note 2 "auth bb" None);
           (("t1", "arch", "c"), note 3 "auth ccc" None);
           (("t2", "arch", "a"), note 4 "auth x" None);
           (("t2", "arch", "b"), note 5 "auth yy" None);
           (("t2", "arch", "c"), note 6 "auth zzz" None) ];
     sessions := ∅;
     file_index := ∅;
     usage_stats := [];
     memories_id_seq := 7;
     sessions_id_seq := 1;
     file_index_id_seq := 1;
     usage_stats_id_seq := 1 |}.

Definition w0 : world :=
  {| w_db := db0; w_log := []; w_net := []; w_events := Some [];
     w_now := 1000 |}.

Definition tenants : list Project :=
  [ project_of_row "t1" (tenant "one"); project_of_row "t2" (tenant "two") ].

(** The memory [t1/arch/a] written again, with another text. *)
Definition rewrite_a : Memory :=
  {| m_ID := 0; m_ProjectID := "t1"; m_Topic := "arch"; m_Key := "a";
     m_Value := "auth, revised"; m_CreatedAt := 0; m_UpdatedAt := 0;
     m_CreatedBy := ""; m_Score := 0%float |}.

Definition service : Service := {| svc_url := ""; svc_dim := 384 |}.

Definition enabled_service : Service :=
  {| svc_url := "http://localhost:8091/embed"; svc_dim := 384 |}.

(** [memory_get] of a key that is not stored. *)
Definition get_missing : request :=
  {[ "project_id" := ArgString "t1"; "topic" := ArgString "arch";
     "key" := ArgString "nothing" ]}.

(** A bus with one subscriber whose inbox is full. *)
Fixpoint publish_n (n : nat) (s : EventBus.state) : EventBus.state :=
  match n with
  | O => s
  | S n' =>
      publish_n n' (EventBus.state_of (EventBus.Publish "dashboard-stats" s))
  end.

Definition subscribed : EventBus.state :=
  (EventBus.Subscribe EventBus.NewEventBus).2.

Definition inbox : nat := (EventBus.Subscribe EventBus.NewEventBus).1.

Definition full_inbox : EventBus.state := publish_n 16 subscribed.

End Demo.

(** ** More of the store, of its callers and of the web layer *)


(** What the database stores: its tables, the sequences apart. *)
Definition stored (db : database) :=
  (projects db, memories db, sessions db, file_index db, usage_stats db).

(** The three statements [SearchAll] sends for one tenant, in order. *)
Definition tenant_statements (query : string) (embedding : option Vector)
    (limit : Z) (p : Project) : list stmt :=
  match embedding with
  | Some v => [SimilarMemories (p_ID p) v limit;
               SimilarSessions (p_ID p) v limit;
               SimilarFiles (p_ID p) v limit]
  | None => [KeywordMemories (p_ID p) query limit;
             KeywordSessions (p_ID p) query limit;
             KeywordFiles (p_ID p) query limit]
  end.

(** [ORDER BY topic, key] as a test on two memories. *)
Definition by_topic_key `{Externals} (a b : Memory) : bool :=
  if String.eqb (m_Topic a) (m_Topic b)
  then pg_collate_le (m_Key a) (m_Key b)
  else pg_collate_le (m_Topic a) (m_Topic b).

(** [func (s *Service) EmbedBatch(ctx, texts []string) [][]float32]: the
    loop [for i, t := range texts { results[i] = s.Embed(ctx, t) }] over
    [results := make([][]float32, len(texts))]. *)
Fixpoint embed_each `{Externals} (s : Service) (i : nat) (texts : list string)
    (results : list (option Vector)) : M (list (option Vector)) :=
  match texts with
  | [] => ret results
  | t :: rest =>
      do v <- Embed s t;
      embed_each s (S i) rest (<[i := v]> results)
  end.

Definition EmbedBatch `{Externals} (s : Service) (texts : list string)
    : M (list (option Vector)) :=
  embed_each s 0 texts (replicate (length texts) None).

(** The HTTP calls that embedding the texts in turn makes on a service that
    is enabled and whose address parses: one per text that is not empty. *)
Definition calls_for (s : Service) (texts : list string)
    : list (string * string) :=
  (fun t => (svc_url s, t)) <$>
    List.filter (fun t => negb (String.eqb t "")) texts.

(** Events published one after the other. *)
Definition publish_all (events : list string) (s : EventBus.state)
    : EventBus.state :=
  foldl (fun s e => EventBus.state_of (EventBus.Publish e s)) s events.

(** Every inbox is a channel of 16 slots holding at most 16 events. *)
Definition inboxes_bounded (s : EventBus.state) : Prop :=
  forall ch c, EventBus.chans s !! ch = Some c ->
               EventBus.capacity c = 16%nat /\
               (length (EventBus.buf c) <= 16)%nat.

(** A computation keeps a component of the world: the component is the same
    after it as before. *)
Definition keeps {X A} (f : world -> X) (c : M A) : Prop :=
  forall w, f (c w).2 = f w.

(** The strategies of the search statements sent between two worlds. *)
Definition searches_sent (w w' : world) : list strategy :=
  omap strategy_of (drop (length (w_log w)) (w_log w')).

(** ** Vocabulary for the MCP tools *)

(** The content tables of the schema, and the one a tool writes. *)
Inductive content_table :=
| ProjectsTable | MemoriesTable | SessionsTable | FileIndexTable.

Definition same_table (tb : content_table) (db db' : database) : Prop :=
  match tb with
  | ProjectsTable => projects db' = projects db
  | MemoriesTable => memories db' = memories db
  | SessionsTable => sessions db' = sessions db
  | FileIndexTable => file_index db' = file_index db
  end.

Definition writes (t : tool) : option content_table :=
  match t with
  | project_register => Some ProjectsTable
  | memory_set | memory_delete => Some MemoriesTable
  | session_create => Some SessionsTable
  | file_index_tool => Some FileIndexTable
  | _ => None
  end.

(** The parameters [registerTools] declares with [Required()]. *)
Definition required (t : tool) : list string :=
  match t with
  | project_register => ["id"; "name"]
  | project_list => []
  | project_status => ["project_id"]
  | memory_set => ["project_id"; "topic"; "key"; "value"]
  | memory_get => ["project_id"; "topic"; "key"]
  | memory_list => ["project_id"]
  | memory_search => ["project_id"; "query"]
  | memory_delete => ["project_id"; "topic"; "key"]
  | session_create => ["project_id"; "session_num"; "title"]
  | session_get => ["project_id"; "session_num"]
  | session_list => ["project_id"]
  | session_search => ["project_id"; "query"]
  | file_index_tool => ["project_id"; "file_path"]
  | file_search => ["project_id"; "query"]
  end.

(** The tools whose handler starts with a test of its arguments. *)
Definition validates (t : tool) : bool :=
  match t with
  | project_register | project_status | memory_set | memory_search
  | session_create | session_search | file_index_tool | file_search => true
  | _ => false
  end.

(** The arguments a handler compares with the empty string before anything
    else, and the whole of its test: [handleSessionCreate] also refuses the
    session number 0. *)
Definition tested (t : tool) : list string :=
  match t with
  | project_register => ["id"; "name"]
  | project_status => ["project_id"]
  | memory_set => ["project_id"; "topic"; "key"; "value"]
  | memory_search | session_search | file_search => ["project_id"; "query"]
  | session_create => ["project_id"; "title"]
  | file_index_tool => ["project_id"; "file_path"]
  | _ => []
  end.

Definition passes_test `{Externals} (t : tool) (req : request) : bool :=
  forallb (fun a => negb (String.eqb (stringArg req a) "")) (tested t)
  && match t with
     | session_create => negb (intArg req "session_num" 0 =? 0)
     | _ => true
     end.

(** The statement the handler of a tool without a test sends first, from the
    values it reads of its arguments. *)
Definition statement_of (t : tool) (project topic key : string) (num : Z)
    : option stmt :=
  match t with
  | project_list => Some SelectProjects
  | memory_get => Some (SelectMemory project topic key)
  | memory_list =>
      Some (SelectMemories project
              (if String.eqb topic "" then None else Some topic))
  | memory_delete => Some (DeleteMemoryRow project topic key)
  | session_get => Some (SelectSession project num)
  | session_list => Some (SelectSessions project)
  | _ => None
  end.

(** The text a handler hands to [Embed]. *)
Definition embedded_text (t : tool) (req : request) : option string :=
  match t with
  | memory_set => Some (stringArg req "value")
  | memory_search | session_search | file_search =>
      Some (stringArg req "query")
  | session_create =>
      Some (if String.eqb (stringArg req "summary") ""
            then stringArg req "title" else stringArg req "summary")
  | file_index_tool => Some (stringArg req "summary")
  | _ => None
  end.

(** The events a tool call with result [r] leaves published: one
    ["dashboard-stats"] when the operation was performed and a publisher is
    wired, none otherwise. *)
Definition announced (r : CallToolResult) (w w' : world) : Prop :=
  w_events w' =
    if performed r
    then (fun l => l ++ ["dashboard-stats"]) <$> w_events w
    else w_events w.

(** The search type a search tool reports and the items it returns. *)
Definition reported (r : CallToolResult) : option (string * nat * Z) :=
  match r with
  | ToolResultText (JSONMemorySearch st _ n rs) => Some (st, length rs, n)
  | ToolResultText (JSONSessionSearch st _ n rs) => Some (st, length rs, n)
  | ToolResultText (JSONFileSearch st _ n rs) => Some (st, length rs, n)
  | _ => None
  end.

Definition is_search (t : tool) : bool :=
  match t with
  | memory_search | session_search | file_search => true
  | _ => false
  end.

(** A handler announces its performed calls. *)
Definition announces (c : M CallToolResult) : Prop :=
  forall w, announced (c w).1 w (c w).2.

(** ** The web layer (package [web])

    The handlers of the dashboard that read and write the store through the
    methods above.  (The handlers of the statistics fragments are left out:
    they read through [GetDashboardStats].) *)

(** What a handler reads of a request. *)
Record http_request := {
  (* [r.URL.Query()], each name with its first value *)
  r_query : gmap string string;
  (* the value of [strconv.ParseInt(r.PathValue("id"), 10, 64)], whose error
     the handlers drop *)
  r_id : Z;
  (* [r.Header.Get("Content-Type")] *)
  r_content_type : string;
  (* [data] after [json.Unmarshal(body, &data)], [data] a
     [map[string]string] *)
  r_json : gmap string string;
  (* [r.FormValue], after [r.ParseForm()] *)
  r_form : gmap string string
}.

(** [Get] on [url.Values], indexing a [map[string]string], [r.FormValue]:
    the empty string for an absent name. *)
Definition Get (values : gmap string string) (name : string) : string :=
  default "" (values !! name).

Definition queryParam (r : http_request) (name fallback : string) : string :=
  let v := Get (r_query r) name in
  if String.eqb v "" then fallback else v.

Definition queryInt `{Externals} (r : http_request) (name : string)
    (fallback : Z) : Z :=
  let v := Get (r_query r) name in
  if String.eqb v "" then fallback
  else match Atoi v with
       | Some n => n
       | None => fallback
       end.

Record topicGroup := { g_Project : Project; g_Topics : list string }.

(** The [map[string]any] a handler hands to a template. *)
Inductive template_data :=
| ProjectsData (projects : list Project) (active : string)
| GroupsData (groups : list topicGroup) (active : string)
| SessionsData (sessions : list Session) (projectID : string)
| SessionData (session : Session)
| SearchData (query searchType : string) (ms : list Memory)
             (ss : list Session) (fs : list FileEntry)
| MemoriesData (ms : list Memory) (projectID topic : string)
| MemoryFormData (memory : Memory) (isEdit : bool)
| MemoryCardData (memory : Memory).

(** The paragraphs the handlers write in place of a fragment. *)
Inductive paragraph :=
| SelectAProject          (* Select a project *)
| SessionNotFound         (* Session not found *)
| StartTyping             (* Start typing to search... *)
| SelectAProjectAndTopic. (* Select a project and topic *)

(** What a handler does with its [http.ResponseWriter]. *)
Inductive response :=
| Page (name : string) (data : template_data)      (* [ws.renderPage] *)
| Fragment (name : string) (data : template_data)  (* [ws.renderFragment] *)
| Written (body : paragraph)                       (* [w.Write] *)
| HttpError (msg : string) (code : Z)              (* [http.Error] *)
| WriteHeader (code : Z).                          (* [w.WriteHeader] *)

(** The loop of [handleMemories] over the memories of one project:
    [if !seen[m.Topic] { seen[m.Topic] = true; topics = append(topics,
    m.Topic) }]. *)
Fixpoint topics_loop (mems : list Memory) (seen : gmap string bool)
    (topics : list string) : list string :=
  match mems with
  | [] => topics
  | m :: rest =>
      if negb (default false (seen !! m_Topic m))
      then topics_loop rest (<[m_Topic m := true]> seen)
             (topics ++ [m_Topic m])
      else topics_loop rest seen topics
  end.

(** [for _, m := range mems { if m.ID == id { return &m } }] *)
Fixpoint first_with_id (id : Z) (mems : list Memory) : option Memory :=
  match mems with
  | [] => None
  | m :: rest => if m_ID m =? id then Some m else first_with_id id rest
  end.

Section Web.
Context `{Externals}.
Variable embedding : Service.

Definition handleHistory (r : http_request) : M response :=
  do (projects, _) <- ListProjects;
  ret (Page "history.html" (ProjectsData projects "history")).

Definition handleSearch (r : http_request) : M response :=
  do (projects, _) <- ListProjects;
  ret (Page "search.html" (ProjectsData projects "search")).

(** The loop of [handleMemories] over the projects. *)
Fixpoint group_topics (projects : list Project) (groups : list topicGroup)
    : M (list topicGroup) :=
  match projects with
  | [] => ret groups
  | p :: rest =>
      do (mems, _) <- ListMemories (p_ID p) "";
      group_topics rest
        (groups ++ [{| g_Project := p; g_Topics := topics_loop mems ∅ [] |}])
  end.

Definition handleMemories (r : http_request) : M response :=
  do (projects, _) <- ListProjects;
  do groups <- group_topics projects [];
  ret (Page "memories.html" (GroupsData groups "memories")).

Definition handleAPISessions (r : http_request) : M response :=
  let projectID := queryParam r "project" "" in
  if String.eqb projectID ""
  then ret (Written SelectAProject)
  else
    do (sessions, err) <- ListSessions projectID;
    match err with
    | Some _ => ret (HttpError "Error" 500)
    | None => ret (Fragment "_sessions.html" (SessionsData sessions projectID))
    end.

Definition handleAPISessionDetail (r : http_request) : M response :=
  let projectID := queryParam r "project" "" in
  let num := queryInt r "num" 0 in
  if String.eqb projectID "" || (num =? 0)
  then ret (HttpError "Missing params" 400)
  else
    do (sess, err) <- GetSession projectID num;
    match err, sess with
    | None, Some sess =>
        ret (Fragment "_session_detail.html" (SessionData sess))
    | _, _ =>
        ret (Written SessionNotFound)
    end.

Definition handleAPISearch (r : http_request) : M response :=
  let query := queryParam r "q" "" in
  if String.eqb query ""
  then ret (Written StartTyping)
  else
    do emb <- Embed embedding query;
    do (results, err) <- SearchAll query emb 10;
    match err with
    | Some _ => ret (HttpError "Search error" 500)
    | None =>
        let searchType :=
          match emb with Some _ => "semantic" | None => "full-text" end in
        ret (Fragment "_search_results.html"
               (SearchData query searchType (Memories results)
                  (Sessions results) (Files results)))
    end.

Definition handleAPIMemories (r : http_request) : M response :=
  let projectID := queryParam r "project" "" in
  let topic := queryParam r "topic" "" in
  if String.eqb projectID ""
  then ret (Written SelectAProjectAndTopic)
  else
    do (memories, err) <- ListMemories projectID topic;
    match err with
    | Some _ => ret (HttpError "Error" 500)
    | None =>
        ret (Fragment "_memory_list.html"
               (MemoriesData memories projectID topic))
    end.

(** The loop of [findMemoryByID] over the projects: it returns from inside
    the loop, so the projects after a hit are not listed. *)
Fixpoint find_in_projects (id : Z) (projects : list Project)
    : M (option Memory) :=
  match projects with
  | [] => ret None
  | p :: rest =>
      do (mems, _) <- ListMemories (p_ID p) "";
      match first_with_id id mems with
      | Some m => ret (Some m)
      | None => find_in_projects id rest
      end
  end.

Definition findMemoryByID (id : Z) : M (option Memory) :=
  do (projects, _) <- ListProjects;
  find_in_projects id projects.

Definition handleAPIMemoryEdit (r : http_request) : M response :=
  do mem <- findMemoryByID (r_id r);
  match mem with
  | None => ret (HttpError "Not found" 404)
  | Some mem => ret (Fragment "_memory_form.html" (MemoryFormData mem true))
  end.

Definition with_Value (value : string) (m : Memory) : Memory :=
  {| m_ID := m_ID m; m_ProjectID := m_ProjectID m; m_Topic := m_Topic m;
     m_Key := m_Key m; m_Value := value; m_CreatedAt := m_CreatedAt m;
     m_UpdatedAt := m_UpdatedAt m; m_CreatedBy := m_CreatedBy m;
     m_Score := m_Score m |}.

Definition handleAPIMemoryUpdate (r : http_request) : M response :=
  do mem <- findMemoryByID (r_id r);
  match mem with
  | None => ret (HttpError "Not found" 404)
  | Some mem =>
      let value :=
        if String.eqb (r_content_type r) "application/json"
        then Get (r_json r) "value"
        else Get (r_form r) "value" in
      let value := if String.eqb value "" then m_Value mem else value in
      do emb <- Embed embedding value;
      do err <- SetMemory {| m_ID := 0; m_ProjectID := m_ProjectID mem;
                             m_Topic := m_Topic mem; m_Key := m_Key mem;
                             m_Value := value; m_CreatedAt := 0;
                             m_UpdatedAt := 0; m_CreatedBy := "";
                             m_Score := 0%float |} emb;
      match err with
      | Some _ => ret (HttpError "Error" 500)
      | None =>
          ret (Fragment "_memory_card" (MemoryCardData (with_Value value mem)))
      end
  end.

Definition handleAPIMemoryDelete (r : http_request) : M response :=
  do mem <- findMemoryByID (r_id r);
  match mem with
  | None => ret (HttpError "Not found" 404)
  | Some mem =>
      do err <- DeleteMemory (m_ProjectID mem) (m_Topic mem) (m_Key mem);
      match err with
      | Some _ => ret (HttpError "Error" 500)
      | None => ret (WriteHeader 200)
      end
  end.

Definition handleAPIMemoryCreate (r : http_request) : M response :=
  let projectID := Get (r_form r) "project_id" in
  let topic := Get (r_form r) "topic" in
  let key := Get (r_form r) "key" in
  let value := Get (r_form r) "value" in
  if String.eqb projectID "" || String.eqb topic "" || String.eqb key ""
     || String.eqb value ""
  then ret (HttpError "All fields required" 400)
  else
    do emb <- Embed embedding value;
    do err <- SetMemory {| m_ID := 0; m_ProjectID := projectID;
                           m_Topic := topic; m_Key := key; m_Value := value;
                           m_CreatedAt := 0; m_UpdatedAt := 0;
                           m_CreatedBy := ""; m_Score := 0%float |} emb;
    match err with
    | Some _ => ret (HttpError "Error" 500)
    | None =>
        do (memories, _) <- ListMemories projectID topic;
        ret (Fragment "_memory_list.html"
               (MemoriesData memories projectID topic))
    end.

(** The routes of [Routes] to these handlers. *)
Inductive route :=
| GET_history | GET_search | GET_memories
| GET_api_history_sessions | GET_api_history_detail | GET_api_search
| GET_api_memories | GET_api_memories_edit | PUT_api_memories
| DELETE_api_memories | POST_api_memories.

Definition serve (rt : route) : http_request -> M response :=
  match rt with
  | GET_history => handleHistory
  | GET_search => handleSearch
  | GET_memories => handleMemories
  | GET_api_history_sessions => handleAPISessions
  | GET_api_history_detail => handleAPISessionDetail
  | GET_api_search => handleAPISearch
  | GET_api_memories => handleAPIMemories
  | GET_api_memories_edit => handleAPIMemoryEdit
  | PUT_api_memories => handleAPIMemoryUpdate
  | DELETE_api_memories => handleAPIMemoryDelete
  | POST_api_memories => handleAPIMemoryCreate
  end.

End Web.

(** The routes that write to a content table. *)
Definition route_writes (rt : route) : bool :=
  match rt with
  | PUT_api_memories | DELETE_api_memories | POST_api_memories => true
  | _ => false
  end.

(** Nothing of the accounting moves between two worlds: no usage insert is
    sent, the accounting table is as it was and no event is published. *)
Definition unaccounted (w w' : world) : Prop :=
  usage_inserts w w' = [] /\
  usage_stats (w_db w') = usage_stats (w_db w) /\
  w_events w' = w_events w.

(** A computation sends no usage insert and leaves the accounting table as
    it is. *)
Definition quietly {A} (c : M A) : Prop := forall w, quiet w (c w).2.

(** ** Migrations (package [store], [RunMigrations]) *)

Module Migrations.

(** The errors [RunMigrations] wraps, by the step that failed. *)
Inductive error :=
| CreateMigrationsTable
| GlobMigrations
| CheckMigration (version : string)
| ReadMigration (version : string)
| ApplyMigration (version : string)
| RecordMigration (version : string).

(** The database as the migrations see it: the versions in
    [schema_migrations] and the scripts that ran to completion, oldest
    first. *)
Record schema := {
  applied : gset string;
  executed : list string
}.

(** The file system and the faults of the engine, by statement. *)
Class Env := {
  create_fails : bool;
  (* [filepath.Glob(filepath.Join(dir, pattern))] *)
  Glob : string -> string -> option (list string);
  Base : string -> string;
  check_fails : string -> bool;
  ReadFile : string -> option string;
  apply_fails : string -> bool;
  record_fails : string -> bool
}.

Section Run.
Context `{Env}.

(** The loop [for _, f := range files]. *)
Fixpoint migrate (files : list string) (s : schema) : option error * schema :=
  match files with
  | [] => (None, s)
  | f :: rest =>
      let version := Base f in
      if check_fails version then (Some (CheckMigration version), s)
      else if bool_decide (version ∈ applied s) then migrate rest s
      else
        match ReadFile f with
        | None => (Some (ReadMigration version), s)
        | Some sql =>
            if apply_fails sql then (Some (ApplyMigration version), s)
            else
              let s1 := {| applied := applied s;
                           executed := executed s ++ [sql] |} in
              if record_fails version
              then (Some (RecordMigration version), s1)
              else migrate rest {| applied := {[version]} ∪ applied s1;
                                   executed := executed s1 |}
        end
  end.

Definition RunMigrations (dir : string) (s : schema)
    : option error * schema :=
  if create_fails then (Some CreateMigrationsTable, s)
  else
    match Glob dir "*.sql" with
    | None => (Some GlobMigrations, s)
    | Some files => migrate (order_by String.leb files) s
    end.

End Run.

(** A directory with two scripts, on an engine that answers. *)
Definition two_scripts : Env := {|
  create_fails := false;
  Glob := fun _ _ => Some ["m/002_usage.sql"; "m/001_init.sql"];
  Base := fun f => String.substring 2 (String.length f - 2) f;
  check_fails := fun _ => false;
  ReadFile := fun f => Some ("-- " +:+ f);
  apply_fails := fun _ => false;
  record_fails := fun _ => false |}.

(** The same directory on an engine that refuses to record the second
    version. *)
Definition unrecorded : Env := {|
  create_fails := false;
  Glob := @Glob two_scripts;
  Base := @Base two_scripts;
  check_fails := fun _ => false;
  ReadFile := @ReadFile two_scripts;
  apply_fails := fun _ => false;
  record_fails := fun v => String.eqb v "002_usage.sql" |}.

Definition fresh : schema := {| applied := ∅; executed := [] |}.

End Migrations.

(** ** More concrete inputs, for examples *)

Module Sample.

(** [memory_set] of [t1/arch/a] with another text, and the [memory_get] and
    [memory_delete] of the same key. *)
Definition set_a : request :=
  {[ "project_id" := ArgString "t1"; "topic" := ArgString "arch";
     "key" := ArgString "a"; "value" := ArgString "auth, revised" ]}.

Definition key_a : request :=
  {[ "project_id" := ArgString "t1"; "topic" := ArgString "arch";
     "key" := ArgString "a" ]}.

(** A search for ["auth"] in tenant ["t1"], and the same without its
    [project_id]. *)
Definition search_auth : request :=
  {[ "project_id" := ArgString "t1"; "query" := ArgString "auth" ]}.

Definition no_project : request := {[ "query" := ArgString "auth" ]}.

(** [memory_set] for a project that is not registered, and a [session_get]
    without its [session_num]. *)
Definition set_stray : request :=
  {[ "project_id" := ArgString "t9"; "topic" := ArgString "arch";
     "key" := ArgString "a"; "value" := ArgString "auth" ]}.

Definition session_of_t1 : request := {[ "project_id" := ArgString "t1" ]}.

(** Tenant ["t1"] under another name, and a project that is not
    registered. *)
Definition renamed : Project :=
  {| p_ID := "t1"; p_Name := "uno"; p_RootPath := "/srv/uno";
     p_Metadata := "null"; p_CreatedAt := 0; p_UpdatedAt := 0 |}.

Definition stray : Memory :=
  {| m_ID := 0; m_ProjectID := "t9"; m_Topic := "arch"; m_Key := "a";
     m_Value := "auth"; m_CreatedAt := 0; m_UpdatedAt := 0;
     m_CreatedBy := ""; m_Score := 0%float |}.

(** A session of tenant ["t1"], and the world once it is stored. *)
Definition first_session : Session :=
  {| s_ID := 0; s_ProjectID := "t1"; s_SessionNum := 1;
     s_Title := "kick-off"; s_Summary := "auth design";
     s_Content := "a long transcript"; s_Metadata := "null";
     s_CreatedAt := 0; s_Score := 0%float |}.

Definition with_session : world :=
  (@CreateSession Demo.healthy first_session None Demo.w0).2.

(** A form that updates the memory with identifier 1, the same form
    without a value, and a search from the dashboard. *)
Definition put_1 : http_request :=
  {| r_query := ∅; r_id := 1;
     r_content_type := "application/x-www-form-urlencoded";
     r_json := ∅; r_form := {[ "value" := "auth, revised" ]} |}.

Definition put_1_empty : http_request :=
  {| r_query := ∅; r_id := 1;
     r_content_type := "application/x-www-form-urlencoded";
     r_json := ∅; r_form := ∅ |}.

Definition get_search : http_request :=
  {| r_query := {[ "q" := "auth" ]}; r_id := 0; r_content_type := "";
     r_json := ∅; r_form := ∅ |}.

(** The memory [t1/arch/a] as the dashboard shows it after the update. *)
Definition card_a (value : string) : Memory :=
  {| m_ID := 1; m_ProjectID := "t1"; m_Topic := "arch"; m_Key := "a";
     m_Value := value; m_CreatedAt := 0; m_UpdatedAt := 0;
     m_CreatedBy := ""; m_Score := 0%float |}.

(** The healthy engine beside an embedding service that answers every text
    with the same vector. *)
Definition answering : Externals := {|
  pg_fault := @pg_fault Demo.healthy;
  pg_stream := @pg_stream Demo.healthy;
  pg_collate_le := @pg_collate_le Demo.healthy;
  pg_id_drawn := @pg_id_drawn Demo.healthy;
  cosine_distance := @cosine_distance Demo.healthy;
  ts_match := @ts_match Demo.healthy;
  ts_rank := @ts_rank Demo.healthy;
  url_ok := @url_ok Demo.healthy;
  http_do := fun _ _ => Response 200 (Decoded (Some Demo.new_vector));
  Atoi := @Atoi Demo.healthy;
  json_array := @json_array Demo.healthy |}.

(** The healthy engine, but for the listing of the projects: it accepts the
    statement and fails before the first row. *)
Definition broken : Externals := {|
  pg_fault := @pg_fault Demo.healthy;
  pg_stream := fun q =>
    match q with
    | SelectProjects => Some 0%nat
    | _ => None
    end;
  pg_collate_le := @pg_collate_le Demo.healthy;
  pg_id_drawn := @pg_id_drawn Demo.healthy;
  cosine_distance := @cosine_distance Demo.healthy;
  ts_match := @ts_match Demo.healthy;
  ts_rank := @ts_rank Demo.healthy;
  url_ok := @url_ok Demo.healthy;
  http_do := @http_do Demo.healthy;
  Atoi := @Atoi Demo.healthy;
  json_array := @json_array Demo.healthy |}.

End Sample.

(** * Part II: properties *)

(** ** Go integers *)

Module GoIntFacts.
Import GoInt.

Lemma wrap_in_range z : in_range z -> wrap z = z.
Proof.
  unfold in_range, min_int, max_int, wrap. intros Hz.
  rewrite Z.mod_small; lia.
Qed.

Lemma wrap_range z : in_range (wrap z).
Proof.
  unfold in_range, min_int, max_int, wrap.
  pose proof (Z.mod_pos_bound (z + 2 ^ 63) (2 ^ 64) ltac:(lia)). lia.
Qed.

End GoIntFacts.

(** ** Order facts about binary64 comparison *)

Module ScoreFacts.
Import Score.

Local Ltac cmp_cases :=
  repeat match goal with
  | |- context [ (?a ?= ?b)%Z ] => destruct (Z.compare_spec a b)
  | |- context [ (?a ?= ?b)%positive ] => destruct (Pos.compare_spec a b)
  end.

Lemma SFltb_trans (x y z : spec_float) :
  SFltb x y = true -> SFltb y z = true -> SFltb x z = true.
Proof.
  unfold SFltb.
  destruct x as [sx|sx| |sx mx ex], y as [sy|sy| |sy my ey],
           z as [sz|sz| |sz mz ez]; simpl;
    try discriminate; try reflexivity;
    repeat match goal with s : bool |- _ => destruct s end;
    simpl; try discriminate; try reflexivity;
    change (Pos.compare_cont Eq) with Pos.compare;
    cmp_cases; simpl; intros; subst;
    try discriminate; try reflexivity; lia.
Qed.

Lemma SFltb_irrefl (x : spec_float) : SFltb x x = false.
Proof.
  unfold SFltb. destruct x as [s|s| |s m e]; simpl; try reflexivity;
    destruct s; simpl; try reflexivity;
    change (Pos.compare_cont Eq) with Pos.compare;
    rewrite Z.compare_refl, Pos.compare_refl; reflexivity.
Qed.

(** On values that are not NaN the order is total: "not less" is
    "greater or equal". *)
Lemma SFltb_false_SFleb (x y : spec_float) :
  x <> S754_nan -> y <> S754_nan ->
  SFltb x y = false -> SFleb y x = true.
Proof.
  unfold SFltb, SFleb.
  destruct x as [sx|sx| |sx mx ex], y as [sy|sy| |sy my ey]; simpl;
    try congruence; intros _ _;
    repeat match goal with s : bool |- _ => destruct s end;
    simpl; try discriminate; try reflexivity;
    change (Pos.compare_cont Eq) with Pos.compare;
    cmp_cases; simpl; intros; subst;
    try discriminate; try reflexivity; lia.
Qed.

Lemma gt_trans (a b c : float) :
  gt a b = true -> gt b c = true -> gt a c = true.
Proof.
  unfold gt. rewrite !FloatAxioms.ltb_spec. intros H1 H2.
  exact (SFltb_trans _ _ _ H2 H1).
Qed.

Lemma gt_irrefl (a : float) : gt a a = false.
Proof. unfold gt. rewrite FloatAxioms.ltb_spec. apply SFltb_irrefl. Qed.

Lemma gt_asym (a b : float) : gt a b = true -> gt b a = false.
Proof.
  intros H. destruct (gt b a) eqn:E; [|reflexivity].
  pose proof (gt_trans _ _ _ H E) as Hc. rewrite gt_irrefl in Hc.
  discriminate.
Qed.

Lemma is_nan_spec (a : float) : is_nan a = false -> Prim2SF a <> S754_nan.
Proof.
  unfold is_nan, PrimFloat.is_nan. rewrite FloatAxioms.eqb_spec. unfold SFeqb.
  intros H E. rewrite E in H. discriminate.
Qed.

Lemma not_gt_ge (a b : float) :
  is_nan a = false -> is_nan b = false -> gt b a = false -> ge a b = true.
Proof.
  unfold gt, ge. rewrite FloatAxioms.ltb_spec, FloatAxioms.leb_spec. intros Ha Hb.
  apply SFltb_false_SFleb; now apply is_nan_spec.
Qed.

End ScoreFacts.

(** ** Token estimate *)

Lemma tokenEstimate_search_wrap (n : Z) :
  tokenEstimate "memory_search" n = GoInt.wrap (n * 500) /\
  tokenEstimate "session_search" n = GoInt.wrap (n * 2000) /\
  tokenEstimate "file_search" n = GoInt.wrap (n * 800).
Proof. repeat split. Qed.

Lemma tokenEstimate_other (toolName : string) (n : Z) :
  toolName <> "memory_search" -> toolName <> "session_search" ->
  toolName <> "file_search" -> tokenEstimate toolName n = 100.
Proof.
  intros H1 H2 H3. unfold tokenEstimate.
  apply String.eqb_neq in H1, H2, H3. now rewrite H1, H2, H3.
Qed.

(** C7: the token estimate is a function of the operation name and the
    result count alone.  The three search operations multiply the result
    count by a fixed weight (500, 2000 and 800; no overflow for any count
    whose product with 2000 fits an [int]), every other operation yields the
    constant 100 whatever the result count. *)
Theorem tokenEstimate_by_operation (toolName : string) (n : Z) :
  GoInt.in_range (n * 2000) ->
  (toolName = "memory_search" -> tokenEstimate toolName n = n * 500) /\
  (toolName = "session_search" -> tokenEstimate toolName n = n * 2000) /\
  (toolName = "file_search" -> tokenEstimate toolName n = n * 800) /\
  (toolName <> "memory_search" -> toolName <> "session_search" ->
   toolName <> "file_search" ->
   forall m, tokenEstimate toolName m = 100).
Proof.
  intros Hn.
  assert (H500 : GoInt.in_range (n * 500))
    by (revert Hn; unfold GoInt.in_range, GoInt.min_int, GoInt.max_int; lia).
  assert (H800 : GoInt.in_range (n * 800))
    by (revert Hn; unfold GoInt.in_range, GoInt.min_int, GoInt.max_int; lia).
  repeat split.
  - intros ->. change (GoInt.wrap (n * 500) = n * 500).
    now apply GoIntFacts.wrap_in_range.
  - intros ->. change (GoInt.wrap (n * 2000) = n * 2000).
    now apply GoIntFacts.wrap_in_range.
  - intros ->. change (GoInt.wrap (n * 800) = n * 800).
    now apply GoIntFacts.wrap_in_range.
  - intros H1 H2 H3 m. now apply tokenEstimate_other.
Qed.

(** The scenario of the specification: three results at weight 500. *)
Lemma tokenEstimate_by_operation_witness :
  GoInt.in_range (3 * 2000) /\ tokenEstimate "memory_search" 3 = 1500.
Proof.
  assert (H : GoInt.in_range (3 * 2000))
    by (unfold GoInt.in_range, GoInt.min_int, GoInt.max_int; lia).
  split; [exact H|].
  exact (proj1 (tokenEstimate_by_operation "memory_search" 3 H) eq_refl).
Defined.

Example tokenEstimate_write : tokenEstimate "memory_set" 3 = 100.
Proof. reflexivity. Qed.

(** ** The in-place sort *)

Section SortFacts.
Context {A : Type} (score : A -> float).

Local Abbreviation select := (select score).
Local Abbreviation selection := (selection score).
Local Abbreviation beats := (fun y x : A => Score.gt (score y) (score x)).

Lemma swap_if_greater_middle (pre done todo : list A) (x y : A) :
  swap_if_greater score (length pre) (S (length pre + length done))
    (pre ++ x :: done ++ y :: todo)
  = if beats y x then pre ++ y :: done ++ x :: todo
    else pre ++ x :: done ++ y :: todo.
Proof.
  unfold swap_if_greater.
  assert (Hi : (pre ++ x :: done ++ y :: todo) !! length pre = Some x)
    by apply list_lookup_middle, eq_refl.
  assert (Hj : (pre ++ x :: done ++ y :: todo) !! S (length pre + length done)
               = Some y).
  { replace (pre ++ x :: done ++ y :: todo)
      with ((pre ++ x :: done) ++ y :: todo) by now rewrite <- app_assoc.
    apply list_lookup_middle. rewrite length_app. simpl. lia. }
  rewrite Hi, Hj. destruct (Score.gt (score y) (score x)); [|reflexivity].
  rewrite insert_app_r_alt by lia.
  replace (length pre - length pre)%nat with 0%nat by lia. simpl.
  replace (pre ++ y :: done ++ y :: todo)
    with ((pre ++ y :: done) ++ y :: todo) by now rewrite <- app_assoc.
  rewrite insert_app_r_alt by (rewrite length_app; simpl; lia).
  replace (S (length pre + length done) - length (pre ++ y :: done))%nat
    with 0%nat by (rewrite length_app; simpl; lia).
  simpl. now rewrite <- app_assoc.
Qed.

Lemma inner_loop_select (pre : list A) :
  forall (todo done : list A) (x : A),
    inner_loop score (length pre) (S (length pre + length done))
      (length todo) (pre ++ x :: done ++ todo)
    = pre ++ (select x todo).1 :: done ++ (select x todo).2.
Proof.
  induction todo as [|y todo IH]; intros done x; simpl.
  - reflexivity.
  - rewrite swap_if_greater_middle.
    destruct (Score.gt (score y) (score x)).
    + specialize (IH (done ++ [x]) y).
      rewrite length_app in IH. simpl in IH.
      replace (S (length pre + (length done + 1)))
        with (S (S (length pre + length done))) in IH by lia.
      rewrite <- !app_assoc in IH. simpl in IH. rewrite IH.
      destruct (select y todo). reflexivity.
    + specialize (IH (done ++ [y]) x).
      rewrite length_app in IH. simpl in IH.
      replace (S (length pre + (length done + 1)))
        with (S (S (length pre + length done))) in IH by lia.
      rewrite <- !app_assoc in IH. simpl in IH. rewrite IH.
      destruct (select x todo). reflexivity.
Qed.

Lemma select_length (rest : list A) :
  forall x, length (select x rest).2 = length rest.
Proof.
  induction rest as [|y t IH]; intros x; simpl; [reflexivity|].
  destruct (Score.gt (score y) (score x)).
  - specialize (IH y). destruct (select y t). simpl in *. lia.
  - specialize (IH x). destruct (select x t). simpl in *. lia.
Qed.

Lemma select_perm (rest : list A) :
  forall x, (select x rest).1 :: (select x rest).2 ≡ₚ x :: rest.
Proof.
  induction rest as [|y t IH]; intros x; simpl; [reflexivity|].
  destruct (Score.gt (score y) (score x)).
  - specialize (IH y). destruct (select y t) as [m t']. simpl in *.
    etrans; [apply Permutation_swap|]. now apply Permutation_skip.
  - specialize (IH x). destruct (select x t) as [m t']. simpl in *.
    etrans; [apply Permutation_swap|].
    etrans; [apply Permutation_skip, IH|]. apply Permutation_swap.
Qed.

(** The selected element is the running one or beats it, and nothing
    left behind beats it. *)
Lemma select_top (rest : list A) :
  forall x,
    ((select x rest).1 = x \/ beats (select x rest).1 x = true) /\
    Forall (fun y => beats y (select x rest).1 = false) (select x rest).2.
Proof.
  induction rest as [|y t IH]; intros x; simpl.
  - split; [now left | constructor].
  - destruct (Score.gt (score y) (score x)) eqn:Hyx.
    + destruct (IH y) as [Hm Ht]. destruct (select y t) as [m t'].
      simpl in *.
      assert (Hmx : Score.gt (score m) (score x) = true).
      { destruct Hm as [->|Hm]; [exact Hyx|].
        exact (ScoreFacts.gt_trans _ _ _ Hm Hyx). }
      split; [now right|]. constructor; [|exact Ht].
      now apply ScoreFacts.gt_asym.
    + destruct (IH x) as [Hm Ht]. destruct (select x t) as [m t'].
      simpl in *. split; [exact Hm|]. constructor; [|exact Ht].
      destruct Hm as [->|Hm]; [exact Hyx|].
      destruct (Score.gt (score y) (score m)) eqn:Hym; [|reflexivity].
      rewrite (ScoreFacts.gt_trans _ _ _ Hym Hm) in Hyx. discriminate.
Qed.

Lemma outer_loop_selection (n : nat) :
  forall (pre l : list A),
    length l = n ->
    outer_loop score (length pre) n (pre ++ l) = pre ++ selection n l.
Proof.
  induction n as [|n IH]; intros pre l Hl; simpl.
  - reflexivity.
  - destruct l as [|x rest]; [discriminate|]. simpl in Hl.
    replace (length (pre ++ x :: rest) - S (length pre))%nat
      with (length rest) by (rewrite length_app; simpl; lia).
    pose proof (inner_loop_select pre rest [] x) as Hin.
    simpl in Hin. rewrite Nat.add_0_r in Hin. rewrite Hin.
    pose proof (select_length rest x) as Hlen.
    destruct (select x rest) as [m t]. simpl in *.
    specialize (IH (pre ++ [m]) t ltac:(lia)).
    rewrite length_app in IH. simpl in IH.
    replace (length pre + 1)%nat with (S (length pre)) in IH by lia.
    rewrite <- !app_assoc in IH. simpl in IH. exact IH.
Qed.

Lemma sort_desc_selection (l : list A) :
  sort_desc score l = selection (length l) l.
Proof.
  unfold sort_desc. exact (outer_loop_selection (length l) [] l eq_refl).
Qed.

Lemma selection_perm (n : nat) :
  forall l, selection n l ≡ₚ l.
Proof.
  induction n as [|n IH]; intros l; simpl; [reflexivity|].
  destruct l as [|x rest]; [reflexivity|].
  pose proof (select_perm rest x) as Hp.
  destruct (select x rest) as [m t]. simpl in *.
  now rewrite IH.
Qed.

Lemma selection_sorted (n : nat) :
  forall l, length l = n -> sorted_desc score (selection n l).
Proof.
  induction n as [|n IH]; intros l Hl.
  - destruct l; [constructor | discriminate].
  - destruct l as [|x rest]; [discriminate|]. simpl in *.
    pose proof (select_length rest x) as Hlen.
    destruct (select_top rest x) as [_ Htop].
    destruct (select x rest) as [m t]. simpl in *.
    constructor.
    + apply IH. lia.
    + rewrite (selection_perm n t). exact Htop.
Qed.

Lemma sort_desc_perm (l : list A) : sort_desc score l ≡ₚ l.
Proof. rewrite sort_desc_selection. apply selection_perm. Qed.

Lemma sort_desc_sorted (l : list A) : sorted_desc score (sort_desc score l).
Proof. rewrite sort_desc_selection. now apply selection_sorted. Qed.

Lemma sorted_desc_take (n : nat) (l : list A) :
  sorted_desc score l -> sorted_desc score (take n l).
Proof.
  intros Hs. revert n. induction Hs as [|x l Hs IH Hx]; intros [|n]; simpl;
    try constructor.
  - apply IH.
  - apply Forall_take. exact Hx.
Qed.

Lemma cap_length (limit : Z) (l : list A) :
  0 < limit -> (Z.of_nat (length (cap limit l)) <= limit)%Z.
Proof.
  intros Hl. unfold cap, sortAndCap. rewrite length_take.
  destruct (Z.gtb_spec (Z.of_nat (length l)) limit); lia.
Qed.

Lemma cap_take (limit : Z) (l : list A) :
  0 <= limit -> cap limit l = take (Z.to_nat limit) l.
Proof.
  intros Hl. unfold cap, sortAndCap.
  destruct (Z.gtb_spec (Z.of_nat (length l)) limit); [reflexivity|].
  rewrite Nat2Z.id. rewrite firstn_all. symmetry. apply take_ge. lia.
Qed.

Lemma cap_sorted (limit : Z) (l : list A) :
  sorted_desc score l -> sorted_desc score (cap limit l).
Proof. apply sorted_desc_take. Qed.

(** In a list sorted this way no later score exceeds an earlier one. *)
Lemma sorted_desc_lookup (l : list A) (i j : nat) (x y : A) :
  sorted_desc score l -> (i < j)%nat -> l !! i = Some x -> l !! j = Some y ->
  Score.gt (score y) (score x) = false.
Proof.
  intros Hs. revert i j. induction Hs as [|z l Hs IH Hz]; intros i j Hij Hi Hj.
  - discriminate.
  - destruct j as [|j]; [lia|]. simpl in Hj. destruct i as [|i].
    + simpl in Hi. injection Hi as ->.
      rewrite Forall_forall in Hz. apply Hz.
      apply list_elem_of_lookup. eauto.
    + simpl in Hi. apply (IH i j); [lia|assumption..].
Qed.

End SortFacts.

(** ** SQL helpers *)

Lemma elem_of_insert_by {A} (le : A -> A -> bool) (x y : A) (l : list A) :
  y ∈ insert_by le x l <-> y = x \/ y ∈ l.
Proof.
  induction l as [|z l IH]; simpl.
  - rewrite list_elem_of_singleton, elem_of_nil. tauto.
  - destruct (le x z).
    + rewrite elem_of_cons. tauto.
    + rewrite !elem_of_cons, IH. tauto.
Qed.

Lemma elem_of_order_by {A} (le : A -> A -> bool) (y : A) (l : list A) :
  y ∈ order_by le l <-> y ∈ l.
Proof.
  induction l as [|x l IH]; simpl; [reflexivity|].
  rewrite elem_of_insert_by, IH, elem_of_cons. reflexivity.
Qed.

Lemma length_insert_by {A} (le : A -> A -> bool) (x : A) (l : list A) :
  length (insert_by le x l) = S (length l).
Proof.
  induction l as [|z l IH]; simpl; [reflexivity|].
  destruct (le x z); simpl; [reflexivity|]. now rewrite IH.
Qed.

Lemma elem_of_sql_limit {A} (n : Z) (y : A) (l : list A) :
  y ∈ sql_limit n l -> y ∈ l.
Proof.
  unfold sql_limit. rewrite elem_of_take. intros (i & Hi & _).
  apply list_elem_of_lookup. eauto.
Qed.

(** ** The store *)

Section StoreFacts.
Context `{Externals}.

Lemma default_limit_pos (limit : Z) : 0 < default_limit limit.
Proof. unfold default_limit. destruct (Z.leb_spec limit 0); lia. Qed.

Lemma default_limit_idem (limit : Z) :
  default_limit (default_limit limit) = default_limit limit.
Proof.
  pose proof (default_limit_pos limit) as Hp.
  unfold default_limit at 1. destruct (Z.leb_spec (default_limit limit) 0);
    [lia | reflexivity].
Qed.

Lemma default_limit_of_pos (limit : Z) : 0 < limit -> default_limit limit = limit.
Proof. intros Hp. unfold default_limit. destruct (Z.leb_spec limit 0); lia. Qed.

(** *** The pool: what a call returns and what it leaves behind *)

Lemma elem_of_delivered {R} (stream : option nat) (rows : list R) (y : R) :
  y ∈ delivered stream rows -> y ∈ rows.
Proof.
  destruct stream as [n|]; simpl; [|auto].
  rewrite elem_of_take. intros (i & Hi & _).
  apply list_elem_of_lookup. eauto.
Qed.

Lemma length_delivered {R} (stream : option nat) (rows : list R) :
  (length (delivered stream rows) <= length rows)%nat.
Proof. destruct stream as [n|]; simpl; [rewrite length_take|]; lia. Qed.

Lemma pool_Query_eq {R} (q : stmt) (run : database -> list R) (w : world) :
  pool_Query q run w =
    ((if pg_fault q then ([], Some ErrEngine)
      else (delivered (pg_stream q) (run (w_db w)), None)),
     log_stmt q w).
Proof. unfold pool_Query. simpl. now destruct (pg_fault q). Qed.

Lemma pool_QueryRow_eq {R} (q : stmt) (run : database -> option R) (w : world) :
  pool_QueryRow q run w =
    ((if pg_fault q then (None, Some ErrEngine)
      else match run (w_db w) with
           | Some r => (Some r, None)
           | None => (None, Some ErrNoRows)
           end),
     log_stmt q w).
Proof.
  unfold pool_QueryRow. simpl. destruct (pg_fault q); [reflexivity|].
  now destruct (run (w_db w)).
Qed.

(** *** The search executors *)

Lemma SearchMemories_eq (p q : string) (emb : option Vector) (limit : Z)
    (w : world) :
  SearchMemories p q emb limit w =
    match emb with
    | Some v =>
        pool_Query (SimilarMemories p v (default_limit limit))
          (similar_memories p v (default_limit limit)) w
    | None =>
        pool_Query (KeywordMemories p q (default_limit limit))
          (keyword_memories p q (default_limit limit)) w
    end.
Proof. unfold SearchMemories. now destruct emb. Qed.

Lemma SearchSessions_eq (p q : string) (emb : option Vector) (limit : Z)
    (w : world) :
  SearchSessions p q emb limit w =
    match emb with
    | Some v =>
        pool_Query (SimilarSessions p v (default_limit limit))
          (similar_sessions p v (default_limit limit)) w
    | None =>
        pool_Query (KeywordSessions p q (default_limit limit))
          (keyword_sessions p q (default_limit limit)) w
    end.
Proof. unfold SearchSessions. now destruct emb. Qed.

Lemma SearchFiles_eq (p q : string) (emb : option Vector) (limit : Z)
    (w : world) :
  SearchFiles p q emb limit w =
    match emb with
    | Some v =>
        pool_Query (SimilarFiles p v (default_limit limit))
          (similar_files p v (default_limit limit)) w
    | None =>
        pool_Query (KeywordFiles p q (default_limit limit))
          (keyword_files p q (default_limit limit)) w
    end.
Proof. unfold SearchFiles. now destruct emb. Qed.

Lemma SearchMemories_runs (p q : string) (emb : option Vector) (limit : Z)
    (w : world) :
  runs_only (chosen emb) w (SearchMemories p q emb limit w).2.
Proof.
  rewrite SearchMemories_eq.
  destruct emb as [v|]; rewrite pool_Query_eq; eexists; split; reflexivity.
Qed.

Lemma SearchSessions_runs (p q : string) (emb : option Vector) (limit : Z)
    (w : world) :
  runs_only (chosen emb) w (SearchSessions p q emb limit w).2.
Proof.
  rewrite SearchSessions_eq.
  destruct emb as [v|]; rewrite pool_Query_eq; eexists; split; reflexivity.
Qed.

Lemma SearchFiles_runs (p q : string) (emb : option Vector) (limit : Z)
    (w : world) :
  runs_only (chosen emb) w (SearchFiles p q emb limit w).2.
Proof.
  rewrite SearchFiles_eq.
  destruct emb as [v|]; rewrite pool_Query_eq; eexists; split; reflexivity.
Qed.

(** A similarity result is a row of the tenant that stores a vector, scored
    by its distance to the query vector. *)
Lemma similar_memories_from (p : string) (v : Vector) (limit : Z)
    (db : database) (m : Memory) :
  m ∈ similar_memories p v limit db ->
  m_ProjectID m = p /\
  exists row e,
    memories db !! (m_ProjectID m, m_Topic m, m_Key m) = Some row /\
    mr_embedding row = Some e /\
    m_Score m = (1 - cosine_distance e v)%float.
Proof.
  unfold similar_memories. intros Hm.
  apply list_elem_of_fmap in Hm as ([[k row] d] & -> & Hin).
  apply elem_of_sql_limit, elem_of_order_by, list_elem_of_omap in Hin
    as ([k' row'] & Hin & Hg).
  simpl in Hg. case_bool_decide as Hp; [|discriminate].
  destruct (mr_embedding row') as [e|] eqn:He; [|discriminate].
  simpl in Hg. injection Hg as <- <- <-.
  apply elem_of_map_to_list in Hin. destruct k' as [[pp t] kk]. simpl in *.
  split; [exact Hp|]. exists row', e. auto.
Qed.

Lemma similar_sessions_from (p : string) (v : Vector) (limit : Z)
    (db : database) (s : Session) :
  s ∈ similar_sessions p v limit db ->
  s_ProjectID s = p /\
  exists row e,
    sessions db !! (s_ProjectID s, s_SessionNum s) = Some row /\
    sr_embedding row = Some e /\
    s_Score s = (1 - cosine_distance e v)%float.
Proof.
  unfold similar_sessions. intros Hm.
  apply list_elem_of_fmap in Hm as ([[k row] d] & -> & Hin).
  apply elem_of_sql_limit, elem_of_order_by, list_elem_of_omap in Hin
    as ([k' row'] & Hin & Hg).
  simpl in Hg. case_bool_decide as Hp; [|discriminate].
  destruct (sr_embedding row') as [e|] eqn:He; [|discriminate].
  simpl in Hg. injection Hg as <- <- <-.
  apply elem_of_map_to_list in Hin. destruct k' as [pp n]. simpl in *.
  split; [exact Hp|]. exists row', e. auto.
Qed.

Lemma similar_files_from (p : string) (v : Vector) (limit : Z)
    (db : database) (f : FileEntry) :
  f ∈ similar_files p v limit db ->
  f_ProjectID f = p /\
  exists row e,
    file_index db !! (f_ProjectID f, f_FilePath f) = Some row /\
    fr_embedding row = Some e /\
    f_Score f = (1 - cosine_distance e v)%float.
Proof.
  unfold similar_files. intros Hm.
  apply list_elem_of_fmap in Hm as ([[k row] d] & -> & Hin).
  apply elem_of_sql_limit, elem_of_order_by, list_elem_of_omap in Hin
    as ([k' row'] & Hin & Hg).
  simpl in Hg. case_bool_decide as Hp; [|discriminate].
  destruct (fr_embedding row') as [e|] eqn:He; [|discriminate].
  simpl in Hg. injection Hg as <- <- <-.
  apply elem_of_map_to_list in Hin. destruct k' as [pp n]. simpl in *.
  split; [exact Hp|]. exists row', e. auto.
Qed.

Lemma keyword_memories_from (p q : string) (limit : Z) (db : database)
    (m : Memory) :
  m ∈ keyword_memories p q limit db ->
  m_ProjectID m = p /\ memory_source db q None m.
Proof.
  unfold keyword_memories. intros Hm.
  apply elem_of_sql_limit, elem_of_order_by, list_elem_of_omap in Hm
    as ([k row] & Hin & Hg).
  simpl in Hg. case_bool_decide as Hp; [|discriminate]. simpl in Hg.
  destruct (ts_match (mr_value row) q) eqn:Ht; [|discriminate].
  injection Hg as <-.
  apply elem_of_map_to_list in Hin. destruct k as [[pp t] kk]. simpl in *.
  split; [exact Hp|]. exists row. auto.
Qed.

Lemma keyword_sessions_from (p q : string) (limit : Z) (db : database)
    (s : Session) :
  s ∈ keyword_sessions p q limit db ->
  s_ProjectID s = p /\ session_source db q None s.
Proof.
  unfold keyword_sessions. intros Hm.
  apply elem_of_sql_limit, elem_of_order_by, list_elem_of_omap in Hm
    as ([k row] & Hin & Hg).
  simpl in Hg. case_bool_decide as Hp; [|discriminate]. simpl in Hg.
  destruct (ts_match (session_document row) q) eqn:Ht; [|discriminate].
  injection Hg as <-.
  apply elem_of_map_to_list in Hin. destruct k as [pp n]. simpl in *.
  split; [exact Hp|]. exists row. auto.
Qed.

Lemma keyword_files_from (p q : string) (limit : Z) (db : database)
    (f : FileEntry) :
  f ∈ keyword_files p q limit db ->
  f_ProjectID f = p /\ file_source db q None f.
Proof.
  unfold keyword_files. intros Hm.
  apply elem_of_sql_limit, elem_of_order_by, list_elem_of_omap in Hm
    as ([k row] & Hin & Hg).
  simpl in Hg. case_bool_decide as Hp; [|discriminate]. simpl in Hg.
  destruct (ts_match (fr_summary row) q) eqn:Ht; [|discriminate].
  injection Hg as <-.
  apply elem_of_map_to_list in Hin. destruct k as [pp n]. simpl in *.
  split; [exact Hp|]. exists row. auto.
Qed.

Lemma SearchMemories_source (p q : string) (emb : option Vector)
    (limit : Z) (w : world) (m : Memory) :
  m ∈ (SearchMemories p q emb limit w).1.1 ->
  m_ProjectID m = p /\ memory_source (w_db w) q emb m.
Proof.
  rewrite SearchMemories_eq.
  destruct emb as [v|]; rewrite pool_Query_eq; simpl;
    destruct (pg_fault _); simpl; try (intros Hm; now apply elem_of_nil in Hm).
  - intros Hm%elem_of_delivered.
    apply similar_memories_from in Hm as (Hp & row & e & ? & ? & ?).
    split; [exact Hp|]. exists row. eauto.
  - intros Hm%elem_of_delivered. now apply keyword_memories_from in Hm.
Qed.

Lemma SearchSessions_source (p q : string) (emb : option Vector)
    (limit : Z) (w : world) (s : Session) :
  s ∈ (SearchSessions p q emb limit w).1.1 ->
  s_ProjectID s = p /\ session_source (w_db w) q emb s.
Proof.
  rewrite SearchSessions_eq.
  destruct emb as [v|]; rewrite pool_Query_eq; simpl;
    destruct (pg_fault _); simpl; try (intros Hm; now apply elem_of_nil in Hm).
  - intros Hm%elem_of_delivered.
    apply similar_sessions_from in Hm as (Hp & row & e & ? & ? & ?).
    split; [exact Hp|]. exists row. eauto.
  - intros Hm%elem_of_delivered. now apply keyword_sessions_from in Hm.
Qed.

Lemma SearchFiles_source (p q : string) (emb : option Vector)
    (limit : Z) (w : world) (f : FileEntry) :
  f ∈ (SearchFiles p q emb limit w).1.1 ->
  f_ProjectID f = p /\ file_source (w_db w) q emb f.
Proof.
  rewrite SearchFiles_eq.
  destruct emb as [v|]; rewrite pool_Query_eq; simpl;
    destruct (pg_fault _); simpl; try (intros Hm; now apply elem_of_nil in Hm).
  - intros Hm%elem_of_delivered.
    apply similar_files_from in Hm as (Hp & row & e & ? & ? & ?).
    split; [exact Hp|]. exists row. eauto.
  - intros Hm%elem_of_delivered. now apply keyword_files_from in Hm.
Qed.

(** C1: a single-kind, single-tenant search sends exactly one statement.
    With a query vector it is the similarity-ranked query, and every item
    returned is a row of the tenant whose stored vector is present; without
    one it is the keyword-ranked full-text query, and every item returned
    is a row of the tenant whose text matches.  The two are never run
    together. *)
Theorem search_selects_one_strategy (p q : string) (emb : option Vector)
    (limit : Z) (w : world) :
  (runs_only (chosen emb) w (SearchMemories p q emb limit w).2 /\
   Forall (fun m => m_ProjectID m = p /\ memory_source (w_db w) q emb m)
     (SearchMemories p q emb limit w).1.1) /\
  (runs_only (chosen emb) w (SearchSessions p q emb limit w).2 /\
   Forall (fun s => s_ProjectID s = p /\ session_source (w_db w) q emb s)
     (SearchSessions p q emb limit w).1.1) /\
  (runs_only (chosen emb) w (SearchFiles p q emb limit w).2 /\
   Forall (fun f => f_ProjectID f = p /\ file_source (w_db w) q emb f)
     (SearchFiles p q emb limit w).1.1).
Proof.
  repeat split.
  - apply SearchMemories_runs.
  - apply Forall_forall. intros m. apply SearchMemories_source.
  - apply SearchSessions_runs.
  - apply Forall_forall. intros s. apply SearchSessions_source.
  - apply SearchFiles_runs.
  - apply Forall_forall. intros f. apply SearchFiles_source.
Qed.

End StoreFacts.

(** ** Cross-entity aggregation *)

Section AggregationFacts.
Context `{Externals}.

Lemma SearchMemories_db (p q : string) (emb : option Vector) (limit : Z)
    (w1 w2 : world) :
  w_db w1 = w_db w2 ->
  (SearchMemories p q emb limit w1).1 = (SearchMemories p q emb limit w2).1.
Proof.
  intros Hdb. rewrite !SearchMemories_eq.
  destruct emb; rewrite !pool_Query_eq; simpl; now rewrite Hdb.
Qed.

Lemma SearchSessions_db (p q : string) (emb : option Vector) (limit : Z)
    (w1 w2 : world) :
  w_db w1 = w_db w2 ->
  (SearchSessions p q emb limit w1).1 = (SearchSessions p q emb limit w2).1.
Proof.
  intros Hdb. rewrite !SearchSessions_eq.
  destruct emb; rewrite !pool_Query_eq; simpl; now rewrite Hdb.
Qed.

Lemma SearchFiles_db (p q : string) (emb : option Vector) (limit : Z)
    (w1 w2 : world) :
  w_db w1 = w_db w2 ->
  (SearchFiles p q emb limit w1).1 = (SearchFiles p q emb limit w2).1.
Proof.
  intros Hdb. rewrite !SearchFiles_eq.
  destruct emb; rewrite !pool_Query_eq; simpl; now rewrite Hdb.
Qed.

Lemma SearchMemories_frame (p q : string) (emb : option Vector) (limit : Z)
    (w : world) :
  w_db (SearchMemories p q emb limit w).2 = w_db w.
Proof.
  rewrite SearchMemories_eq. destruct emb; now rewrite pool_Query_eq.
Qed.

Lemma SearchSessions_frame (p q : string) (emb : option Vector) (limit : Z)
    (w : world) :
  w_db (SearchSessions p q emb limit w).2 = w_db w.
Proof.
  rewrite SearchSessions_eq. destruct emb; now rewrite pool_Query_eq.
Qed.

Lemma SearchFiles_frame (p q : string) (emb : option Vector) (limit : Z)
    (w : world) :
  w_db (SearchFiles p q emb limit w).2 = w_db w.
Proof.
  rewrite SearchFiles_eq. destruct emb; now rewrite pool_Query_eq.
Qed.

Lemma append_contribution {A} (acc : list A) (r : list A * option error) :
  match r.2 with None => acc ++ r.1 | Some _ => acc end
  = acc ++ contribution r.
Proof.
  unfold contribution. destruct r.2; [now rewrite app_nil_r | reflexivity].
Qed.

(** One tenant: each kind grows by that tenant's contribution, and the
    database is as before. *)
Lemma search_project_eq (q : string) (emb : option Vector) (limit : Z)
    (p : Project) (acc : SearchAllResult) (w : world) :
  (search_project q emb limit p acc w).1 =
    {| Memories := Memories acc ++ memories_of_tenant q emb limit w p;
       Sessions := Sessions acc ++ sessions_of_tenant q emb limit w p;
       Files := Files acc ++ files_of_tenant q emb limit w p |} /\
  w_db (search_project q emb limit p acc w).2 = w_db w.
Proof.
  unfold search_project, bind, ret, memories_of_tenant, sessions_of_tenant,
    files_of_tenant.
  pose proof (SearchMemories_frame (p_ID p) q emb limit w) as F1.
  destruct (SearchMemories (p_ID p) q emb limit w) as [[ms e1] w1] eqn:E1.
  simpl in F1.
  pose proof (SearchSessions_frame (p_ID p) q emb limit w1) as F2.
  pose proof (SearchSessions_db (p_ID p) q emb limit w1 w F1) as D2.
  destruct (SearchSessions (p_ID p) q emb limit w1) as [[ss e2] w2] eqn:E2.
  simpl in F2, D2.
  pose proof (SearchFiles_frame (p_ID p) q emb limit w2) as F3.
  pose proof (SearchFiles_db (p_ID p) q emb limit w2 w
                (eq_trans F2 F1)) as D3.
  destruct (SearchFiles (p_ID p) q emb limit w2) as [[fs e3] w3] eqn:E3.
  simpl in F3, D3. rewrite <- D2, <- D3. simpl. split; [|congruence].
  unfold contribution. destruct acc. simpl.
  destruct e1, e2, e3; simpl; rewrite ?app_nil_r; reflexivity.
Qed.

Lemma memories_of_tenant_db (q : string) (emb : option Vector) (limit : Z)
    (w1 w2 : world) (p : Project) :
  w_db w1 = w_db w2 ->
  memories_of_tenant q emb limit w1 p = memories_of_tenant q emb limit w2 p.
Proof.
  intros Hdb. unfold memories_of_tenant.
  now rewrite (SearchMemories_db _ _ _ _ w1 w2 Hdb).
Qed.

Lemma sessions_of_tenant_db (q : string) (emb : option Vector) (limit : Z)
    (w1 w2 : world) (p : Project) :
  w_db w1 = w_db w2 ->
  sessions_of_tenant q emb limit w1 p = sessions_of_tenant q emb limit w2 p.
Proof.
  intros Hdb. unfold sessions_of_tenant.
  now rewrite (SearchSessions_db _ _ _ _ w1 w2 Hdb).
Qed.

Lemma files_of_tenant_db (q : string) (emb : option Vector) (limit : Z)
    (w1 w2 : world) (p : Project) :
  w_db w1 = w_db w2 ->
  files_of_tenant q emb limit w1 p = files_of_tenant q emb limit w2 p.
Proof.
  intros Hdb. unfold files_of_tenant.
  now rewrite (SearchFiles_db _ _ _ _ w1 w2 Hdb).
Qed.

(** The whole loop, by induction on the tenants. *)
Lemma search_projects_eq (q : string) (emb : option Vector) (limit : Z)
    (ps : list Project) :
  forall (acc : SearchAllResult) (w w0 : world),
    w_db w = w_db w0 ->
    (search_projects q emb limit ps acc w).1 =
      {| Memories :=
           Memories acc ++ concat (memories_of_tenant q emb limit w0 <$> ps);
         Sessions :=
           Sessions acc ++ concat (sessions_of_tenant q emb limit w0 <$> ps);
         Files :=
           Files acc ++ concat (files_of_tenant q emb limit w0 <$> ps) |} /\
    w_db (search_projects q emb limit ps acc w).2 = w_db w0.
Proof.
  induction ps as [|p ps IH]; intros acc w w0 Hdb; simpl.
  - rewrite !app_nil_r. destruct acc. split; [reflexivity | exact Hdb].
  - unfold bind.
    destruct (search_project_eq q emb limit p acc w) as [Hr Hw].
    destruct (search_project q emb limit p acc w) as [acc1 w1].
    simpl in Hr, Hw.
    destruct (IH acc1 w1 w0 (eq_trans Hw Hdb)) as [Hr' Hw'].
    rewrite Hr', Hw'. subst acc1. simpl. split; [|reflexivity].
    rewrite (memories_of_tenant_db _ _ _ w w0 p Hdb),
      (sessions_of_tenant_db _ _ _ w w0 p Hdb),
      (files_of_tenant_db _ _ _ w w0 p Hdb).
    now rewrite <- !app_assoc.
Qed.

Lemma SearchAll_eq (q : string) (emb : option Vector) (limit : Z)
    (w : world) :
  (SearchAll q emb limit w).1 =
    match (ListProjects w).1 with
    | (_, Some e) => (empty_result, Some e)
    | (ps, None) =>
        let L := default_limit limit in
        ({| Memories :=
              cap L (sort_desc m_Score
                       (concat (memories_of_tenant q emb L w <$> ps)));
            Sessions :=
              cap L (sort_desc s_Score
                       (concat (sessions_of_tenant q emb L w <$> ps)));
            Files :=
              cap L (sort_desc f_Score
                       (concat (files_of_tenant q emb L w <$> ps))) |},
         None)
    end.
Proof.
  unfold SearchAll, bind, ret, ListProjects.
  rewrite pool_Query_eq. simpl.
  destruct (pg_fault SelectProjects); simpl; [reflexivity|].
  set (ps := delivered (pg_stream SelectProjects) (select_projects (w_db w))).
  destruct (search_projects_eq q emb (default_limit limit) ps empty_result
              (log_stmt SelectProjects w) w eq_refl) as [Hr _].
  destruct (search_projects q emb (default_limit limit) ps empty_result
              (log_stmt SelectProjects w)) as [r w1].
  simpl in *. now rewrite Hr.
Qed.

Lemma sorted_desc_ge {A} (score : A -> float) (l : list A) :
  sorted_desc score l -> no_nan score l -> sorted_ge score l.
Proof.
  unfold sorted_desc, sorted_ge, no_nan.
  induction 1 as [|x l Hs IH Hx]; intros Hn; [constructor|].
  apply Forall_cons in Hn as [Hnx Hnl]. constructor; [now apply IH|].
  rewrite Forall_forall in Hx, Hnl. apply Forall_forall. intros y Hy.
  apply ScoreFacts.not_gt_ge; auto. now apply Hx.
Qed.

Lemma capped_sorted {A} (score : A -> float) (limit : Z) (l : list A) :
  0 < limit ->
  Z.of_nat (length (cap limit (sort_desc score l))) <= limit /\
  sorted_desc score (cap limit (sort_desc score l)) /\
  (no_nan score (cap limit (sort_desc score l)) ->
   sorted_ge score (cap limit (sort_desc score l))).
Proof.
  intros Hl.
  assert (Hs : sorted_desc score (cap limit (sort_desc score l)))
    by apply cap_sorted, sort_desc_sorted.
  split; [now apply cap_length|]. split; [exact Hs|].
  now apply sorted_desc_ge.
Qed.

(** C2: with a positive limit, each of the three lists [SearchAll] returns
    holds at most [limit] items, all tenants together, and is sorted by
    score, highest first: no later item has a greater score than an
    earlier one, which for scores that are numbers (not NaN) is "each score
    is greater than or equal to every later one". *)
Theorem SearchAll_sorted_and_capped (q : string) (emb : option Vector)
    (limit : Z) (w : world) :
  0 < limit ->
  let r := (SearchAll q emb limit w).1.1 in
  (Z.of_nat (length (Memories r)) <= limit /\
   sorted_desc m_Score (Memories r) /\
   (no_nan m_Score (Memories r) -> sorted_ge m_Score (Memories r))) /\
  (Z.of_nat (length (Sessions r)) <= limit /\
   sorted_desc s_Score (Sessions r) /\
   (no_nan s_Score (Sessions r) -> sorted_ge s_Score (Sessions r))) /\
  (Z.of_nat (length (Files r)) <= limit /\
   sorted_desc f_Score (Files r) /\
   (no_nan f_Score (Files r) -> sorted_ge f_Score (Files r))).
Proof.
  intros Hl. simpl. rewrite SearchAll_eq.
  destruct (ListProjects w).1 as [ps [e|]]; simpl.
  - repeat split; try lia; try constructor.
  - rewrite (default_limit_of_pos limit Hl).
    split; [|split]; now apply capped_sorted.
Qed.

(** C3: when the tenants can be listed, [SearchAll] returns no error,
    whatever the per-tenant searches do; each returned list is the sorted,
    capped concatenation of the tenants' contributions to that kind, where
    a tenant whose search for the kind failed contributes nothing to that
    kind and everything its other searches returned to the other kinds. *)
Theorem SearchAll_skips_failed_searches (q : string) (emb : option Vector)
    (limit : Z) (w : world) (ps : list Project) :
  (ListProjects w).1 = (ps, None) ->
  let L := default_limit limit in
  let r := (SearchAll q emb limit w).1 in
  r.2 = None /\
  Memories r.1 =
    cap L (sort_desc m_Score (concat (memories_of_tenant q emb L w <$> ps))) /\
  Sessions r.1 =
    cap L (sort_desc s_Score (concat (sessions_of_tenant q emb L w <$> ps))) /\
  Files r.1 =
    cap L (sort_desc f_Score (concat (files_of_tenant q emb L w <$> ps))).
Proof.
  intros Hps. simpl. rewrite SearchAll_eq, Hps. simpl. auto.
Qed.

(** What "contribution" means for a tenant, spelled out. *)
Lemma memories_of_tenant_cases (q : string) (emb : option Vector) (limit : Z)
    (w : world) (p : Project) :
  match (SearchMemories (p_ID p) q emb limit w).1 with
  | (l, None) => memories_of_tenant q emb limit w p = l
  | (_, Some _) => memories_of_tenant q emb limit w p = []
  end.
Proof.
  unfold memories_of_tenant, contribution.
  now destruct (SearchMemories (p_ID p) q emb limit w).1 as [l [e|]].
Qed.

(** Below the cap nothing a successful search returned is lost. *)
Lemma SearchAll_keeps_successes (q : string) (emb : option Vector)
    (limit : Z) (w : world) (ps : list Project) (p : Project) (m : Memory) :
  (ListProjects w).1 = (ps, None) ->
  p ∈ ps ->
  m ∈ memories_of_tenant q emb (default_limit limit) w p ->
  Z.of_nat (length (concat (memories_of_tenant q emb (default_limit limit) w
                              <$> ps))) <= default_limit limit ->
  m ∈ Memories (SearchAll q emb limit w).1.1.
Proof.
  intros Hps Hp Hm Hlen.
  rewrite SearchAll_eq, Hps. simpl.
  rewrite cap_take by (pose proof (default_limit_pos limit); lia).
  rewrite take_ge.
  - rewrite sort_desc_perm. apply list_elem_of_In, in_concat.
    exists (memories_of_tenant q emb (default_limit limit) w p).
    split; [|now apply list_elem_of_In].
    apply list_elem_of_In, list_elem_of_fmap. eauto.
  - rewrite (Permutation_length (sort_desc_perm _ _)). lia.
Qed.

End AggregationFacts.

(** ** Upserts and exact-key reads *)

Section RowFacts.
Context `{Externals}.

Lemma pool_Exec_eq (q : stmt)
    (run : Z -> database -> option error * database) (w : world) :
  pool_Exec q run w =
    if pg_fault q then (Some ErrEngine, log_stmt q w)
    else ((run (w_now w) (w_db w)).1,
          set_db (run (w_now w) (w_db w)).2 (log_stmt q w)).
Proof. reflexivity. Qed.

(** What an upsert leaves when it is refused: the tables as they were, the
    sequence of its table apart. *)
Lemma upsert_memory_refused (p t k v : string) (emb : option Vector)
    (cb : string) (now : Z) (db : database) (e : error) :
  (upsert_memory p t k v emb cb now db).1 = Some e ->
  exists seq,
    (upsert_memory p t k v emb cb now db).2
    = with_memories (memories db) seq db.
Proof.
  unfold upsert_memory. destruct (negb (column_accepts emb)); simpl.
  { intros _. destruct (pg_id_drawn _); [eauto|].
    exists (memories_id_seq db). now destruct db. }
  case_bool_decide; simpl; [eauto | discriminate].
Qed.

Lemma upsert_session_refused (p : string) (n : Z)
    (title summary content : string) (emb : option Vector) (meta : string)
    (now : Z) (db : database) (e : error) :
  (upsert_session p n title summary content emb meta now db).1 = Some e ->
  exists seq,
    (upsert_session p n title summary content emb meta now db).2
    = with_sessions (sessions db) seq db.
Proof.
  unfold upsert_session. destruct (negb (int4_ok n)); simpl.
  { intros _. exists (sessions_id_seq db). now destruct db. }
  destruct (negb (column_accepts emb)); simpl.
  { intros _. destruct (pg_id_drawn _); [eauto|].
    exists (sessions_id_seq db). now destruct db. }
  case_bool_decide; simpl; [eauto | discriminate].
Qed.

Lemma upsert_file_refused (p path ft symbols summary : string)
    (emb : option Vector) (now : Z) (db : database) (e : error) :
  (upsert_file p path ft symbols summary emb now db).1 = Some e ->
  exists seq,
    (upsert_file p path ft symbols summary emb now db).2
    = with_file_index (file_index db) seq db.
Proof.
  unfold upsert_file. destruct (negb (column_accepts emb)); simpl.
  { intros _. destruct (pg_id_drawn _); [eauto|].
    exists (file_index_id_seq db). now destruct db. }
  case_bool_decide; simpl; [eauto | discriminate].
Qed.

(** When an upsert is accepted: the vector fits the column and the project
    is registered. *)
Lemma upsert_memory_accepted (p t k v : string) (emb : option Vector)
    (cb : string) (now : Z) (db : database) :
  (upsert_memory p t k v emb cb now db).1 = None <->
  column_accepts emb = true /\ is_Some (projects db !! p).
Proof.
  unfold upsert_memory. destruct (column_accepts emb); simpl.
  - case_bool_decide as Hp; simpl.
    + split; [discriminate|]. rewrite Hp. intros [_ [? ?]]. discriminate.
    + split; [|reflexivity]. intros _. split; [reflexivity|].
      destruct (projects db !! p); [eauto | contradiction].
  - split; [discriminate|]. intros [? _]. discriminate.
Qed.

Lemma upsert_session_accepted (p : string) (n : Z)
    (title summary content : string) (emb : option Vector) (meta : string)
    (now : Z) (db : database) :
  (upsert_session p n title summary content emb meta now db).1 = None <->
  int4_ok n = true /\ column_accepts emb = true /\
  is_Some (projects db !! p).
Proof.
  unfold upsert_session. destruct (int4_ok n); simpl.
  2:{ split; [discriminate|]. intros [? _]. discriminate. }
  destruct (column_accepts emb); simpl.
  - case_bool_decide as Hp; simpl.
    + split; [discriminate|]. rewrite Hp. intros (_ & _ & [? ?]).
      discriminate.
    + split; [|reflexivity]. intros _. repeat split.
      destruct (projects db !! p); [eauto | contradiction].
  - split; [discriminate|]. intros (_ & ? & _). discriminate.
Qed.

Lemma upsert_file_accepted (p path ft symbols summary : string)
    (emb : option Vector) (now : Z) (db : database) :
  (upsert_file p path ft symbols summary emb now db).1 = None <->
  column_accepts emb = true /\ is_Some (projects db !! p).
Proof.
  unfold upsert_file. destruct (column_accepts emb); simpl.
  - case_bool_decide as Hp; simpl.
    + split; [discriminate|]. rewrite Hp. intros [_ [? ?]]. discriminate.
    + split; [|reflexivity]. intros _. split; [reflexivity|].
      destruct (projects db !! p); [eauto | contradiction].
  - split; [discriminate|]. intros [? _]. discriminate.
Qed.

Lemma SetMemory_row (m : Memory) (emb : option Vector) (w : world)
    (old : memory_row) :
  memories (w_db w) !! (m_ProjectID m, m_Topic m, m_Key m) = Some old ->
  exists row,
    memories (w_db (SetMemory m emb w).2)
      !! (m_ProjectID m, m_Topic m, m_Key m) = Some row /\
    (emb = None -> mr_embedding row = mr_embedding old) /\
    ((SetMemory m emb w).1 = None <->
     pg_fault (UpsertMemory (m_ProjectID m) (m_Topic m) (m_Key m)
                 (m_Value m) emb (m_CreatedBy m)) = false /\
     column_accepts emb = true /\
     is_Some (projects (w_db w) !! m_ProjectID m)) /\
    ((SetMemory m emb w).1 = None ->
     mr_value row = m_Value m /\
     mr_embedding row = match emb with
                        | Some v => Some v
                        | None => mr_embedding old
                        end).
Proof.
  intros Hold. unfold SetMemory. rewrite pool_Exec_eq.
  destruct (pg_fault _) eqn:Hf; cbn [fst snd].
  { exists old. split; [exact Hold|]. split; [auto|].
    split; [|discriminate]. split; [discriminate|]. intros [? _].
    discriminate. }
  set (r := upsert_memory _ _ _ _ _ _ _ _).
  pose proof (upsert_memory_accepted (m_ProjectID m) (m_Topic m) (m_Key m)
                (m_Value m) emb (m_CreatedBy m) (w_now w) (w_db w)) as Hacc.
  fold r in Hacc.
  destruct r.1 as [e|] eqn:Hr; rewrite ?Hr in Hacc.
  - destruct (upsert_memory_refused _ _ _ _ _ _ _ _ e Hr) as [seq Hdb].
    fold r in Hdb. cbn [w_db set_db]. rewrite Hdb. cbn [memories with_memories].
    exists old. split; [exact Hold|]. split; [auto|].
    split; [|discriminate]. split; [discriminate|].
    intros (_ & Hc & Hp).
    assert (Hno : Some e = None) by (apply Hacc; auto). discriminate.
  - destruct (proj1 Hacc eq_refl) as [Hc Hp]. subst r.
    unfold upsert_memory. rewrite Hc. destruct Hp as [prow Hp].
    cbn [negb]. rewrite bool_decide_eq_false_2 by (rewrite Hp; discriminate).
    cbn [snd w_db set_db memories with_memories].
    cbn [log_stmt w_db]. rewrite Hold, lookup_insert_eq.
    eexists. split; [reflexivity|]. simpl.
    split; [now intros ->|].
    split; [split; [intros _; repeat split; eauto | reflexivity]|].
    intros _. split; [reflexivity|]. now destruct emb.
Qed.

Lemma CreateSession_row (s : Session) (emb : option Vector) (w : world)
    (old : session_row) :
  sessions (w_db w) !! (s_ProjectID s, s_SessionNum s) = Some old ->
  exists row,
    sessions (w_db (CreateSession s emb w).2)
      !! (s_ProjectID s, s_SessionNum s) = Some row /\
    (emb = None -> sr_embedding row = sr_embedding old) /\
    ((CreateSession s emb w).1 = None <->
     pg_fault (UpsertSession (s_ProjectID s) (s_SessionNum s) (s_Title s)
                 (s_Summary s) (s_Content s) emb (s_Metadata s)) = false /\
     int4_ok (s_SessionNum s) = true /\ column_accepts emb = true /\
     is_Some (projects (w_db w) !! s_ProjectID s)) /\
    ((CreateSession s emb w).1 = None ->
     (sr_title row = s_Title s /\ sr_summary row = s_Summary s /\
      sr_content row = s_Content s /\ sr_metadata row = s_Metadata s) /\
     sr_embedding row = match emb with
                        | Some v => Some v
                        | None => sr_embedding old
                        end).
Proof.
  intros Hold. unfold CreateSession. rewrite pool_Exec_eq.
  destruct (pg_fault _) eqn:Hf; cbn [fst snd].
  { exists old. split; [exact Hold|]. split; [auto|].
    split; [|discriminate]. split; [discriminate|]. intros [? _].
    discriminate. }
  set (r := upsert_session _ _ _ _ _ _ _ _ _).
  pose proof (upsert_session_accepted (s_ProjectID s) (s_SessionNum s)
                (s_Title s) (s_Summary s) (s_Content s) emb (s_Metadata s)
                (w_now w) (w_db w)) as Hacc.
  fold r in Hacc.
  destruct r.1 as [e|] eqn:Hr; rewrite ?Hr in Hacc.
  - destruct (upsert_session_refused _ _ _ _ _ _ _ _ _ e Hr) as [seq Hdb].
    fold r in Hdb. cbn [w_db set_db]. rewrite Hdb. cbn [sessions with_sessions].
    exists old. split; [exact Hold|]. split; [auto|].
    split; [|discriminate]. split; [discriminate|].
    intros (_ & Hacc').
    assert (Hno : Some e = None) by (apply Hacc; auto). discriminate.
  - destruct (proj1 Hacc eq_refl) as (Hi & Hc & Hp). subst r.
    unfold upsert_session. rewrite Hi, Hc. destruct Hp as [prow Hp].
    cbn [negb]. rewrite bool_decide_eq_false_2 by (rewrite Hp; discriminate).
    cbn [snd w_db set_db sessions with_sessions].
    cbn [log_stmt w_db]. rewrite Hold, lookup_insert_eq.
    eexists. split; [reflexivity|]. simpl.
    split; [now intros ->|].
    split; [split; [intros _; repeat split; eauto | reflexivity]|].
    intros _. split; [auto|]. now destruct emb.
Qed.

Lemma IndexFile_row (f : FileEntry) (emb : option Vector) (w : world)
    (old : file_row) :
  file_index (w_db w) !! (f_ProjectID f, f_FilePath f) = Some old ->
  exists row,
    file_index (w_db (IndexFile f emb w).2)
      !! (f_ProjectID f, f_FilePath f) = Some row /\
    (emb = None -> fr_embedding row = fr_embedding old) /\
    ((IndexFile f emb w).1 = None <->
     pg_fault (UpsertFile (f_ProjectID f) (f_FilePath f) (f_FileType f)
                 (f_Symbols f) (f_Summary f) emb) = false /\
     column_accepts emb = true /\
     is_Some (projects (w_db w) !! f_ProjectID f)) /\
    ((IndexFile f emb w).1 = None ->
     (fr_file_type row = f_FileType f /\ fr_symbols row = f_Symbols f /\
      fr_summary row = f_Summary f) /\
     fr_embedding row = match emb with
                        | Some v => Some v
                        | None => fr_embedding old
                        end).
Proof.
  intros Hold. unfold IndexFile. rewrite pool_Exec_eq.
  destruct (pg_fault _) eqn:Hf; cbn [fst snd].
  { exists old. split; [exact Hold|]. split; [auto|].
    split; [|discriminate]. split; [discriminate|]. intros [? _].
    discriminate. }
  set (r := upsert_file _ _ _ _ _ _ _ _).
  pose proof (upsert_file_accepted (f_ProjectID f) (f_FilePath f)
                (f_FileType f) (f_Symbols f) (f_Summary f) emb
                (w_now w) (w_db w)) as Hacc.
  fold r in Hacc.
  destruct r.1 as [e|] eqn:Hr; rewrite ?Hr in Hacc.
  - destruct (upsert_file_refused _ _ _ _ _ _ _ _ e Hr) as [seq Hdb].
    fold r in Hdb. cbn [w_db set_db]. rewrite Hdb.
    cbn [file_index with_file_index].
    exists old. split; [exact Hold|]. split; [auto|].
    split; [|discriminate]. split; [discriminate|].
    intros (_ & Hc & Hp).
    assert (Hno : Some e = None) by (apply Hacc; auto). discriminate.
  - destruct (proj1 Hacc eq_refl) as [Hc Hp]. subst r.
    unfold upsert_file. rewrite Hc. destruct Hp as [prow Hp].
    cbn [negb]. rewrite bool_decide_eq_false_2 by (rewrite Hp; discriminate).
    cbn [snd w_db set_db file_index with_file_index].
    cbn [log_stmt w_db]. rewrite Hold, lookup_insert_eq.
    eexists. split; [reflexivity|]. simpl.
    split; [now intros ->|].
    split; [split; [intros _; repeat split; eauto | reflexivity]|].
    intros _. split; [auto|]. now destruct emb.
Qed.

(** C5: an upsert of a memory, a session or a file entry whose natural
    key is already stored never erases the stored vector when it supplies
    none: the row keeps its vector, whether or not the statement takes
    effect.  The statement takes effect exactly when the engine answers it,
    the project is registered and the vector, if any, has the dimension of
    the column (and, for a session, its number is an [INTEGER]); then the
    payload of the row is the supplied one, and a supplied vector is the
    stored one afterwards. *)
Theorem upsert_keeps_vector_when_absent (w : world) :
  (forall (m : Memory) (emb : option Vector) (old : memory_row),
     memories (w_db w) !! (m_ProjectID m, m_Topic m, m_Key m) = Some old ->
     exists row,
       memories (w_db (SetMemory m emb w).2)
         !! (m_ProjectID m, m_Topic m, m_Key m) = Some row /\
       (emb = None -> mr_embedding row = mr_embedding old) /\
       ((SetMemory m emb w).1 = None <->
        pg_fault (UpsertMemory (m_ProjectID m) (m_Topic m) (m_Key m)
                    (m_Value m) emb (m_CreatedBy m)) = false /\
        column_accepts emb = true /\
        is_Some (projects (w_db w) !! m_ProjectID m)) /\
       ((SetMemory m emb w).1 = None ->
        mr_value row = m_Value m /\
        mr_embedding row = match emb with
                           | Some v => Some v
                           | None => mr_embedding old
                           end)) /\
  (forall (s : Session) (emb : option Vector) (old : session_row),
     sessions (w_db w) !! (s_ProjectID s, s_SessionNum s) = Some old ->
     exists row,
       sessions (w_db (CreateSession s emb w).2)
         !! (s_ProjectID s, s_SessionNum s) = Some row /\
       (emb = None -> sr_embedding row = sr_embedding old) /\
       ((CreateSession s emb w).1 = None <->
        pg_fault (UpsertSession (s_ProjectID s) (s_SessionNum s) (s_Title s)
                    (s_Summary s) (s_Content s) emb (s_Metadata s)) = false /\
        int4_ok (s_SessionNum s) = true /\ column_accepts emb = true /\
        is_Some (projects (w_db w) !! s_ProjectID s)) /\
       ((CreateSession s emb w).1 = None ->
        (sr_title row = s_Title s /\ sr_summary row = s_Summary s /\
         sr_content row = s_Content s /\ sr_metadata row = s_Metadata s) /\
        sr_embedding row = match emb with
                           | Some v => Some v
                           | None => sr_embedding old
                           end)) /\
  (forall (f : FileEntry) (emb : option Vector) (old : file_row),
     file_index (w_db w) !! (f_ProjectID f, f_FilePath f) = Some old ->
     exists row,
       file_index (w_db (IndexFile f emb w).2)
         !! (f_ProjectID f, f_FilePath f) = Some row /\
       (emb = None -> fr_embedding row = fr_embedding old) /\
       ((IndexFile f emb w).1 = None <->
        pg_fault (UpsertFile (f_ProjectID f) (f_FilePath f) (f_FileType f)
                    (f_Symbols f) (f_Summary f) emb) = false /\
        column_accepts emb = true /\
        is_Some (projects (w_db w) !! f_ProjectID f)) /\
       ((IndexFile f emb w).1 = None ->
        (fr_file_type row = f_FileType f /\ fr_symbols row = f_Symbols f /\
         fr_summary row = f_Summary f) /\
        fr_embedding row = match emb with
                           | Some v => Some v
                           | None => fr_embedding old
                           end)).
Proof.
  split; [|split].
  - intros m emb old. apply SetMemory_row.
  - intros s emb old. apply CreateSession_row.
  - intros f emb old. apply IndexFile_row.
Qed.

(** *** Exact-key reads *)

Lemma GetMemory_eq (p t k : string) (w : world) :
  GetMemory p t k w =
    ((if pg_fault (SelectMemory p t k)
      then (Some zero_Memory, Some ErrEngine)
      else match select_memory p t k (w_db w) with
           | Some m => (Some m, None)
           | None => (None, None)
           end),
     log_stmt (SelectMemory p t k) w).
Proof.
  unfold GetMemory, bind, ret. rewrite pool_QueryRow_eq.
  destruct (pg_fault _); [reflexivity|].
  now destruct (select_memory p t k (w_db w)).
Qed.

Lemma GetSession_eq (p : string) (n : Z) (w : world) :
  GetSession p n w =
    ((if int4_ok n
      then if pg_fault (SelectSession p n)
           then (None, Some ErrEngine)
           else match select_session p n (w_db w) with
                | Some s => (Some s, None)
                | None => (None, None)
                end
      else (None, Some (if pg_fault (SelectSession p n)
                        then ErrEngine else ErrOutOfRange))),
     log_stmt (SelectSession p n) w).
Proof.
  unfold GetSession, bind, ret.
  destruct (int4_ok n); [|now destruct (pg_fault _)].
  rewrite pool_QueryRow_eq.
  destruct (pg_fault _); [reflexivity|].
  now destruct (select_session p n (w_db w)).
Qed.

Lemma GetProject_eq (id : string) (w : world) :
  GetProject id w =
    ((if pg_fault (SelectProject id)
      then (None, Some ErrEngine)
      else match select_project id (w_db w) with
           | Some p => (Some p, None)
           | None => (None, None)
           end),
     log_stmt (SelectProject id) w).
Proof.
  unfold GetProject, bind, ret. rewrite pool_QueryRow_eq.
  destruct (pg_fault _); [reflexivity|].
  now destruct (select_project id (w_db w)).
Qed.

(** C10, as the code has it: an exact-key read that the engine answers and
    that matches no row returns the absent item and no error, and leaves
    the database as it was, for a memory, for a project, and for a session
    whose number is an [INTEGER].  A session number outside that type
    matches no row either, but [GetSession] returns an error: the error of
    encoding the number, when the engine would answer the statement.  (A
    read never changes the database, whatever it returns.) *)
Theorem read_of_missing_key (w : world) :
  (forall p t k,
     pg_fault (SelectMemory p t k) = false ->
     memories (w_db w) !! (p, t, k) = None ->
     (GetMemory p t k w).1 = (None, None) /\
     w_db (GetMemory p t k w).2 = w_db w) /\
  (forall p n,
     int4_ok n = true ->
     pg_fault (SelectSession p n) = false ->
     sessions (w_db w) !! (p, n) = None ->
     (GetSession p n w).1 = (None, None) /\
     w_db (GetSession p n w).2 = w_db w) /\
  (forall p n,
     int4_ok n = false ->
     (GetSession p n w).1
     = (None, Some (if pg_fault (SelectSession p n)
                    then ErrEngine else ErrOutOfRange)) /\
     w_db (GetSession p n w).2 = w_db w) /\
  (forall id,
     pg_fault (SelectProject id) = false ->
     projects (w_db w) !! id = None ->
     (GetProject id w).1 = (None, None) /\
     w_db (GetProject id w).2 = w_db w).
Proof.
  split; [|split; [|split]].
  - intros p t k Hf Hno. rewrite GetMemory_eq, Hf. unfold select_memory.
    now rewrite Hno.
  - intros p n Hi Hf Hno. rewrite GetSession_eq, Hi, Hf.
    unfold select_session. now rewrite Hno.
  - intros p n Hi. now rewrite GetSession_eq, Hi.
  - intros id Hf Hno. rewrite GetProject_eq, Hf. unfold select_project.
    now rewrite Hno.
Qed.

Lemma reads_leave_database (w : world) :
  (forall p t k, w_db (GetMemory p t k w).2 = w_db w) /\
  (forall p n, w_db (GetSession p n w).2 = w_db w) /\
  (forall id, w_db (GetProject id w).2 = w_db w).
Proof.
  split; [|split]; intros.
  - now rewrite GetMemory_eq.
  - now rewrite GetSession_eq.
  - now rewrite GetProject_eq.
Qed.

End RowFacts.

(** ** The embedding gateway *)

Section EmbedFacts.
Context `{Externals}.

(** [Embed] touches nothing but the record of HTTP calls, and makes at
    most one call. *)
Lemma Embed_frame (s : Service) (text : string) (w : world) :
  let w' := (Embed s text w).2 in
  w_db w' = w_db w /\ w_log w' = w_log w /\ w_events w' = w_events w /\
  (w_net w' = w_net w \/ w_net w' = w_net w ++ [(svc_url s, text)]).
Proof.
  unfold Embed.
  destruct (negb (Enabled s) || String.eqb text ""); [simpl; auto|].
  destruct (negb (url_ok (svc_url s))); [simpl; auto|].
  destruct (http_do (svc_url s) text) as [|status body]; [simpl; auto|].
  destruct (negb (status =? 200)); [simpl; auto|].
  destruct body as [|e]; [simpl; auto|].
  destruct (negb (len e =? svc_dim s)); simpl; auto.
Qed.

(** The only way to a vector: an enabled service, a non-empty text, an
    address that parses, and a 200 response that decodes to a vector of
    the configured dimension. *)
Lemma Embed_Some (s : Service) (text : string) (w : world) (v : Vector) :
  (Embed s text w).1 = Some v <->
  Enabled s = true /\ text <> "" /\ url_ok (svc_url s) = true /\
  http_do (svc_url s) text = Response 200 (Decoded (Some v)) /\
  Z.of_nat (length v) = svc_dim s.
Proof.
  unfold Embed. split.
  - destruct (Enabled s); simpl; [|discriminate].
    destruct (String.eqb_spec text "") as [Ht|Ht]; simpl; [discriminate|].
    destruct (url_ok (svc_url s)); simpl; [|discriminate].
    destruct (http_do (svc_url s) text) as [|status body]; [discriminate|].
    destruct (Z.eqb_spec status 200) as [Hs|Hs]; simpl; [|discriminate].
    destruct body as [|got]; [discriminate|].
    destruct (Z.eqb_spec (len got) (svc_dim s)) as [Hl|Hl]; simpl;
      [|discriminate].
    intros ->. subst status. unfold len in *. simpl in *. auto.
  - intros (He & Ht & Hu & Hd & Hl). rewrite He, Hu, Hd. simpl.
    apply String.eqb_neq in Ht. rewrite Ht. simpl.
    unfold len. simpl. rewrite Hl, Z.eqb_refl. reflexivity.
Qed.

(** C6: [Embed] is a total function into "vector or absent": there is no
    error component in what it returns.  An empty text gives absent and
    no HTTP call; a transport failure, a status other than 200, a body
    that does not decode and a vector whose length differs from the
    configured dimension all give absent. *)
Theorem Embed_total_and_silent (s : Service) (text : string) (w : world) :
  (exists v w', Embed s text w = (v, w')) /\
  (text = "" ->
   (Embed s text w).1 = None /\ w_net (Embed s text w).2 = w_net w) /\
  (http_do (svc_url s) text = TransportError -> (Embed s text w).1 = None) /\
  (forall status body,
     http_do (svc_url s) text = Response status body -> status <> 200 ->
     (Embed s text w).1 = None) /\
  (forall status,
     http_do (svc_url s) text = Response status DecodeError ->
     (Embed s text w).1 = None) /\
  (forall status e,
     http_do (svc_url s) text = Response status (Decoded e) ->
     len e <> svc_dim s ->
     (Embed s text w).1 = None).
Proof.
  split; [|split; [|split; [|split; [|split]]]].
  - destruct (Embed s text w) as [v w']. eauto.
  - intros ->. unfold Embed. rewrite orb_true_r. auto.
  - intros Hd. destruct (Embed s text w).1 as [v|] eqn:E; [|reflexivity].
    apply Embed_Some in E as (_ & _ & _ & E & _). congruence.
  - intros status body Hd Hs.
    destruct (Embed s text w).1 as [v|] eqn:E; [|reflexivity].
    apply Embed_Some in E as (_ & _ & _ & E & _). congruence.
  - intros status Hd.
    destruct (Embed s text w).1 as [v|] eqn:E; [|reflexivity].
    apply Embed_Some in E as (_ & _ & _ & E & _). congruence.
  - intros status e Hd Hl.
    destruct (Embed s text w).1 as [v|] eqn:E; [|reflexivity].
    apply Embed_Some in E as (_ & _ & _ & E & El).
    rewrite Hd in E. injection E as _ ->. unfold len in Hl. simpl in Hl.
    contradiction.
Qed.

End EmbedFacts.

(** ** The event bus *)

Module EventBusFacts.
Import EventBus.

Lemma try_send_full (event : string) (c : chan) :
  full c = true -> try_send event c = c.
Proof. unfold try_send. now intros ->. Qed.

Lemma try_send_room (event : string) (c : chan) :
  full c = false -> try_send event c = set_buf (buf c ++ [event]) c.
Proof. unfold try_send. now intros ->. Qed.

Lemma try_send_open (event : string) (c : chan) :
  closed (try_send event c) = closed c.
Proof. unfold try_send. now destruct (full c). Qed.

(** The loop over the clients, for clients that are distinct open
    channels: it returns, and each of them has been offered the event. *)
Lemma publish_to_returns (event : string) (chs : list nat) :
  forall s,
    NoDup chs ->
    (forall ch, ch ∈ chs ->
                exists c, chans s !! ch = Some c /\ closed c = false) ->
    exists s',
      publish_to event chs s = Returned tt s' /\
      clients s' = clients s /\
      forall ch,
        chans s' !! ch =
          if bool_decide (ch ∈ chs)
          then try_send event <$> chans s !! ch
          else chans s !! ch.
Proof.
  induction chs as [|ch0 chs IH]; intros s Hnd Hopen; cbn [publish_to].
  - exists s. split; [reflexivity|]. split; [reflexivity|]. intros ch.
    rewrite bool_decide_eq_false_2; [reflexivity | apply not_elem_of_nil].
  - apply NoDup_cons in Hnd as [Hnot Hnd].
    destruct (Hopen ch0 ltac:(left)) as (c0 & Hc0 & Hopen0).
    rewrite Hc0, Hopen0.
    assert (Hrest : forall ch, ch ∈ chs ->
              exists c, <[ch0 := try_send event c0]> (chans s) !! ch = Some c
                        /\ closed c = false).
    { intros ch Hin.
      destruct (decide (ch = ch0)) as [->|Hne]; [contradiction|].
      rewrite lookup_insert_ne by congruence. apply Hopen. now right. }
    destruct (IH {| chans := <[ch0 := try_send event c0]> (chans s);
                    clients := clients s |} Hnd Hrest)
      as (s' & Hp & Hcl & Hch).
    exists s'. split; [exact Hp|]. split; [exact Hcl|].
    intros ch. rewrite Hch. simpl.
    destruct (decide (ch = ch0)) as [->|Hne].
    + rewrite (bool_decide_eq_false_2 _ Hnot).
      rewrite (bool_decide_eq_true_2 (ch0 ∈ ch0 :: chs)) by left.
      now rewrite lookup_insert_eq, Hc0.
    + rewrite lookup_insert_ne by congruence.
      destruct (decide (ch ∈ chs)) as [Hin|Hnin].
      * rewrite !bool_decide_eq_true_2; [reflexivity | now right | exact Hin].
      * rewrite !bool_decide_eq_false_2; [reflexivity | | exact Hnin].
        rewrite elem_of_cons. tauto.
Qed.

Lemma well_formed_spec (s : state) :
  well_formed s = true <->
  (forall ch, ch ∈ clients s -> is_Some (chans s !! ch)) /\
  (forall ch c, chans s !! ch = Some c -> closed c = false).
Proof.
  unfold well_formed. rewrite andb_true_iff, !forallb_forall.
  split; intros [H1 H2]; split.
  - intros ch Hin. apply elem_of_elements, list_elem_of_In in Hin.
    apply H1 in Hin. now apply bool_decide_eq_true in Hin.
  - intros ch c Hc. apply elem_of_map_to_list, list_elem_of_In in Hc.
    apply H2 in Hc. simpl in Hc. now apply negb_true_iff in Hc.
  - intros ch Hin. apply bool_decide_eq_true, H1, elem_of_elements.
    now apply list_elem_of_In.
  - intros [ch c] Hin. simpl. apply negb_true_iff.
    apply (H2 ch). now apply elem_of_map_to_list, list_elem_of_In.
Qed.

Lemma Publish_returns (event : string) (s : state) :
  well_formed s = true ->
  exists s',
    Publish event s = Returned tt s' /\
    clients s' = clients s /\
    forall ch,
      chans s' !! ch =
        if bool_decide (ch ∈ clients s)
        then try_send event <$> chans s !! ch
        else chans s !! ch.
Proof.
  intros [Hcl Hop]%well_formed_spec. unfold Publish.
  assert (Hopen : forall ch, ch ∈ elements (clients s) ->
            exists c, chans s !! ch = Some c /\ closed c = false).
  { intros ch Hin%elem_of_elements.
    destruct (Hcl ch Hin) as [c Hc]. exists c. split; [exact Hc|].
    now apply (Hop ch). }
  destruct (publish_to_returns event (elements (clients s)) s
              (NoDup_elements _) Hopen) as (s' & Hp & Hc & Hch).
  exists s'. split; [exact Hp|]. split; [exact Hc|].
  intros ch. rewrite Hch.
  destruct (decide (ch ∈ clients s)) as [Hin|Hnin].
  - rewrite !bool_decide_eq_true_2; [reflexivity | exact Hin |].
    now apply elem_of_elements.
  - rewrite !bool_decide_eq_false_2; [reflexivity | exact Hnin |].
    now rewrite elem_of_elements.
Qed.

(** C8: on a bus whose clients are open channels (every bus that
    [Subscribe], [Publish], the subscribers' receives and [unsub] lead to),
    [Publish] returns: it neither waits nor fails.  The registry is as
    before; a subscriber whose inbox is full keeps its inbox as it was; a
    subscriber with room gets the event at the end of its inbox; channels
    that are not registered are untouched. *)
Theorem Publish_never_blocks (event : string) (s : state) :
  well_formed s = true ->
  exists s',
    Publish event s = Returned tt s' /\
    clients s' = clients s /\
    forall ch c,
      chans s !! ch = Some c ->
      chans s' !! ch =
        Some (if bool_decide (ch ∈ clients s)
              then (if full c then c else set_buf (buf c ++ [event]) c)
              else c).
Proof.
  intros Hwf. destruct (Publish_returns event s Hwf) as (s' & Hp & Hc & Hch).
  exists s'. split; [exact Hp|]. split; [exact Hc|].
  intros ch c Hlk. rewrite Hch, Hlk. unfold try_send.
  now destruct (bool_decide (ch ∈ clients s)).
Qed.

(** *** [unsub] *)

Lemma range_chan_open (pending : list string) :
  forall c, closed c = false -> buf c = pending ->
            range_chan pending c = (false, set_buf [] c).
Proof.
  induction pending as [|x rest IH]; intros c Hopen Hbuf; simpl;
    unfold recv; rewrite Hbuf, ?Hopen.
  - destruct c. simpl in *. now subst.
  - rewrite (IH (set_buf rest c)) by (simpl; auto). reflexivity.
Qed.

Lemma range_chan_closed (pending : list string) :
  forall c, closed c = true -> buf c = pending ->
            range_chan pending c = (true, set_buf [] c).
Proof.
  induction pending as [|x rest IH]; intros c Hcl Hbuf; simpl;
    unfold recv; rewrite Hbuf, ?Hcl.
  - destruct c. simpl in *. now subst.
  - rewrite (IH (set_buf rest c)) by (simpl; auto). reflexivity.
Qed.

Lemma unsub_eq (ch : nat) (s : state) (c : chan) :
  chans s !! ch = Some c ->
  unsub ch s =
    (if closed c then Returned tt else Blocked)
      {| chans := <[ch := set_buf [] c]> (chans s);
         clients := clients s ∖ {[ch]} |}.
Proof.
  intros Hc. unfold unsub. simpl. rewrite Hc.
  destruct (closed c) eqn:Hcl.
  - now rewrite (range_chan_closed (buf c) c Hcl eq_refl).
  - now rewrite (range_chan_open (buf c) c Hcl eq_refl).
Qed.

(** Every step keeps the clients allocated and the channels open. *)
Lemma step_well_formed (s s' : state) :
  step s s' -> well_formed s = true -> well_formed s' = true.
Proof.
  intros Hstep Hwf. pose proof Hwf as [Hcl Hop]%well_formed_spec.
  apply well_formed_spec. destruct Hstep as [s|s event|s ch x s' Ht|s ch Hd].
  - simpl. split.
    + intros ch [->%elem_of_singleton|Hin]%elem_of_union.
      * rewrite lookup_insert_eq. eauto.
      * destruct (decide (ch = fresh (dom (chans s)))) as [->|Hne];
          [rewrite lookup_insert_eq; eauto|].
        rewrite lookup_insert_ne by congruence. now apply Hcl.
    + intros ch c. destruct (decide (ch = fresh (dom (chans s)))) as [->|Hne].
      * rewrite lookup_insert_eq. now intros [= <-].
      * rewrite lookup_insert_ne by congruence. apply Hop.
  - destruct (Publish_returns event s Hwf) as (s' & -> & Hc & Hch). simpl.
    split.
    + intros ch Hin. rewrite Hc in Hin. rewrite Hch.
      rewrite bool_decide_eq_true_2 by exact Hin.
      destruct (Hcl ch Hin) as [c ->]. simpl. eauto.
    + intros ch c. rewrite Hch.
      destruct (bool_decide (ch ∈ clients s)); [|apply Hop].
      destruct (chans s !! ch) as [c0|] eqn:E; [|discriminate].
      simpl. intros [= <-]. rewrite try_send_open. now apply (Hop ch).
  - unfold take_one in Ht. destruct (chans s !! ch) as [c|] eqn:E;
      [|discriminate].
    unfold recv in Ht. destruct (buf c) as [|y rest] eqn:Eb.
    { destruct (closed c); discriminate. }
    injection Ht as <- <-. simpl. split.
    + intros ch' Hin. destruct (decide (ch' = ch)) as [->|Hne];
        [rewrite lookup_insert_eq; eauto|].
      rewrite lookup_insert_ne by congruence. now apply Hcl.
    + intros ch' c'. destruct (decide (ch' = ch)) as [->|Hne].
      * rewrite lookup_insert_eq. intros [= <-]. simpl. now apply (Hop ch).
      * rewrite lookup_insert_ne by congruence. apply Hop.
  - apply elem_of_dom in Hd as [c Hc]. rewrite (unsub_eq ch s c Hc).
    assert (Hs : forall o : state -> outcome unit,
               (o = Returned tt \/ o = Blocked) ->
               forall st, state_of (o st) = st)
      by (intros o [-> | ->]; reflexivity).
    rewrite Hs by (destruct (closed c); auto). simpl. split.
    + intros ch' [Hin Hne]%elem_of_difference.
      rewrite not_elem_of_singleton in Hne.
      rewrite lookup_insert_ne by congruence. now apply Hcl.
    + intros ch' c'. destruct (decide (ch' = ch)) as [->|Hne].
      * rewrite lookup_insert_eq. intros [= <-]. simpl. now apply (Hop ch).
      * rewrite lookup_insert_ne by congruence. apply Hop.
Qed.

Lemma reachable_well_formed (s : state) :
  reachable s -> well_formed s = true.
Proof.
  unfold reachable. revert s.
  apply (rtc_ind_r (R := step) (fun s => well_formed s = true) NewEventBus).
  - reflexivity.
  - intros x y _ Hstep IH. exact (step_well_formed x y Hstep IH).
Qed.

(** C9, on the code: the closure returned by [Subscribe] takes the
    subscriber out of the registry and empties its inbox, and then does not
    return.  The channel is open, as every channel of the bus is, so the
    [range] over it waits for a message that no one will send. *)
Theorem unsub_drains_then_blocks (s : state) (ch : nat) :
  well_formed s = true ->
  ch ∈ dom (chans s) ->
  exists s',
    unsub ch s = Blocked s' /\
    (ch ∉ clients s') /\
    (exists c, chans s' !! ch = Some c /\ buf c = []) /\
    (forall event,
       chans (state_of (Publish event s')) !! ch = chans s' !! ch).
Proof.
  intros Hwf [c Hc]%elem_of_dom.
  pose proof Hwf as [Hcl Hop]%well_formed_spec.
  rewrite (unsub_eq ch s c Hc), (Hop ch c Hc).
  eexists. split; [reflexivity|]. simpl.
  split; [rewrite elem_of_difference, elem_of_singleton; tauto|].
  split; [rewrite lookup_insert_eq; eauto|].
  intros event.
  assert (Hwf' : well_formed
                   {| chans := <[ch := set_buf [] c]> (chans s);
                      clients := clients s ∖ {[ch]} |} = true).
  { assert (Hst : step s (state_of (unsub ch s)))
      by (apply step_unsub, elem_of_dom; eauto).
    rewrite (unsub_eq ch s c Hc), (Hop ch c Hc) in Hst.
    exact (step_well_formed _ _ Hst Hwf). }
  destruct (Publish_returns event _ Hwf') as (s'' & -> & _ & Hch).
  simpl. rewrite Hch. simpl.
  rewrite bool_decide_eq_false_2; [reflexivity|].
  rewrite elem_of_difference, elem_of_singleton. tauto.
Qed.

End EventBusFacts.

(** ** Usage accounting of the MCP tools *)

Section AccountingFacts.
Context `{Externals}.
Variable embedding : Service.

Lemma quiet_refl (w : world) : quiet w w.
Proof. split; [exists []; now rewrite app_nil_r | reflexivity]. Qed.

Lemma quiet_trans (w1 w2 w3 : world) :
  quiet w1 w2 -> quiet w2 w3 -> quiet w1 w3.
Proof.
  intros [(q1 & L1 & F1) U1] [(q2 & L2 & F2) U2]. split; [|congruence].
  exists (q1 ++ q2). rewrite L2, L1, <- app_assoc. split; [reflexivity|].
  now rewrite List.filter_app, F1, F2.
Qed.

Lemma quiet_sent (w w' : world) :
  quiet w w' -> usage_inserts w w' = [] /\ recorded w w' = [].
Proof.
  intros [(qs & L & F) U]. unfold usage_inserts, recorded.
  rewrite L, U, !drop_app_length, drop_all. auto.
Qed.

Lemma Embed_quiet (s : Service) (text : string) (w : world) :
  quiet w (Embed s text w).2.
Proof.
  destruct (Embed_frame s text w) as (Hdb & Hlog & _).
  split; [|now rewrite Hdb]. exists []. now rewrite app_nil_r.
Qed.

Lemma pool_Query_quiet {R} (q : stmt) (run : database -> list R) (w : world) :
  is_usage_insert q = false -> quiet w (pool_Query q run w).2.
Proof.
  intros Hq. rewrite pool_Query_eq. split; [|reflexivity].
  exists [q]. simpl. now rewrite Hq.
Qed.

Lemma pool_QueryRow_quiet {R} (q : stmt) (run : database -> option R)
    (w : world) :
  is_usage_insert q = false -> quiet w (pool_QueryRow q run w).2.
Proof.
  intros Hq. rewrite pool_QueryRow_eq. split; [|reflexivity].
  exists [q]. simpl. now rewrite Hq.
Qed.

Lemma pool_Exec_quiet (q : stmt)
    (run : Z -> database -> option error * database) (w : world) :
  is_usage_insert q = false ->
  (forall now db, usage_stats (run now db).2 = usage_stats db) ->
  quiet w (pool_Exec q run w).2.
Proof.
  intros Hq Hrun. rewrite pool_Exec_eq. split.
  - exists [q]. simpl. rewrite Hq. split; [|reflexivity].
    now destruct (pg_fault q).
  - destruct (pg_fault q); [reflexivity|]. simpl. apply Hrun.
Qed.

Lemma CreateProject_quiet (p : Project) (w : world) :
  quiet w (CreateProject p w).2.
Proof. now apply pool_Exec_quiet. Qed.

Lemma SetMemory_quiet (m : Memory) (emb : option Vector) (w : world) :
  quiet w (SetMemory m emb w).2.
Proof.
  apply pool_Exec_quiet; [reflexivity|].
  unfold upsert_memory. intros now db.
  destruct (negb _); [now destruct (pg_id_drawn _)|].
  now case_bool_decide.
Qed.

Lemma DeleteMemory_quiet (p t k : string) (w : world) :
  quiet w (DeleteMemory p t k w).2.
Proof. now apply pool_Exec_quiet. Qed.

Lemma CreateSession_quiet (s : Session) (emb : option Vector) (w : world) :
  quiet w (CreateSession s emb w).2.
Proof.
  apply pool_Exec_quiet; [reflexivity|].
  unfold upsert_session. intros now db.
  destruct (negb _); [reflexivity|].
  destruct (negb _); [now destruct (pg_id_drawn _)|].
  now case_bool_decide.
Qed.

Lemma IndexFile_quiet (f : FileEntry) (emb : option Vector) (w : world) :
  quiet w (IndexFile f emb w).2.
Proof.
  apply pool_Exec_quiet; [reflexivity|].
  unfold upsert_file. intros now db.
  destruct (negb _); [now destruct (pg_id_drawn _)|].
  now case_bool_decide.
Qed.

Lemma GetProject_quiet (id : string) (w : world) :
  quiet w (GetProject id w).2.
Proof.
  rewrite GetProject_eq. split; [|reflexivity]. now exists [SelectProject id].
Qed.

Lemma GetMemory_quiet (p t k : string) (w : world) :
  quiet w (GetMemory p t k w).2.
Proof.
  rewrite GetMemory_eq. split; [|reflexivity]. now exists [SelectMemory p t k].
Qed.

Lemma GetSession_quiet (p : string) (n : Z) (w : world) :
  quiet w (GetSession p n w).2.
Proof.
  rewrite GetSession_eq. split; [|reflexivity]. now exists [SelectSession p n].
Qed.

Lemma ListProjects_quiet (w : world) : quiet w (ListProjects w).2.
Proof. now apply pool_Query_quiet. Qed.

Lemma ListMemories_quiet (p t : string) (w : world) :
  quiet w (ListMemories p t w).2.
Proof. now apply pool_Query_quiet. Qed.

Lemma ListSessions_quiet (p : string) (w : world) :
  quiet w (ListSessions p w).2.
Proof. now apply pool_Query_quiet. Qed.

Lemma SearchMemories_quiet (p q : string) (emb : option Vector) (limit : Z)
    (w : world) :
  quiet w (SearchMemories p q emb limit w).2.
Proof.
  rewrite SearchMemories_eq. destruct emb; now apply pool_Query_quiet.
Qed.

Lemma SearchSessions_quiet (p q : string) (emb : option Vector) (limit : Z)
    (w : world) :
  quiet w (SearchSessions p q emb limit w).2.
Proof.
  rewrite SearchSessions_eq. destruct emb; now apply pool_Query_quiet.
Qed.

Lemma SearchFiles_quiet (p q : string) (emb : option Vector) (limit : Z)
    (w : world) :
  quiet w (SearchFiles p q emb limit w).2.
Proof.
  rewrite SearchFiles_eq. destruct emb; now apply pool_Query_quiet.
Qed.

(** [recordUsage] sends one usage insert; one record is appended when the
    store takes it, none otherwise. *)
Lemma recordUsage_effect (toolName project query : string) (n : Z)
    (w : world) :
  let q := InsertUsage project toolName query n (tokenEstimate toolName n) in
  let w' := (recordUsage toolName project query n w).2 in
  w_log w' = w_log w ++ [q] /\
  projects (w_db w') = projects (w_db w) /\
  exists new,
    usage_stats (w_db w') = usage_stats (w_db w) ++ new /\
    length new = (if accepts (w_db w) q then 1 else 0)%nat /\
    Forall (fun u => u_ProjectID u = project /\ u_ToolName u = toolName /\
                     u_QueryText u = query /\ u_ResultsCount u = n /\
                     u_TokensEstimated u = tokenEstimate toolName n) new.
Proof.
  unfold recordUsage, RecordUsage, bind, publish. simpl.
  rewrite pool_Exec_eq. simpl. unfold accepts, insert_usage.
  destruct (pg_fault _); simpl.
  { repeat split. exists []. now rewrite app_nil_r. }
  destruct (int4_ok n); simpl;
    [|repeat split; exists []; now rewrite app_nil_r].
  destruct (int4_ok (tokenEstimate toolName n)); simpl;
    [|repeat split; exists []; now rewrite app_nil_r].
  case_bool_decide as Hp; simpl.
  - rewrite bool_decide_eq_false_2
      by (rewrite Hp; intros [? ?]; discriminate).
    repeat split. exists []. now rewrite app_nil_r.
  - rewrite bool_decide_eq_true_2
      by (destruct (projects (w_db w) !! project); [eauto | contradiction]).
    repeat split. eexists. split; [reflexivity|]. split; [reflexivity|].
    constructor; [|constructor]. simpl. auto.
Qed.

Lemma accounted_silent (t : tool) (w w' : world) (r : CallToolResult) :
  performed r = false -> quiet w w' -> accounted t w (r, w').
Proof.
  intros Hr Hq. unfold accounted. simpl. rewrite Hr.
  destruct (quiet_sent w w' Hq) as [Hs Hrec]. rewrite Hrec, app_nil_r.
  destruct Hq as [_ U]. auto.
Qed.

Lemma accounted_recorded (t : tool) (w w1 : world) (r : CallToolResult)
    (project query : string) (n : Z) :
  performed r = true -> quiet w w1 ->
  accounted t w (r, (recordUsage (tool_name t) project query n w1).2).
Proof.
  intros Hr [(qs & L & F) U]. unfold accounted. simpl. rewrite Hr.
  destruct (recordUsage_effect (tool_name t) project query n w1)
    as (L' & P' & new & U' & Hn & Hall).
  unfold usage_inserts, recorded, accepts in *.
  rewrite L', L, U', U, P', <- !app_assoc, !drop_app_length.
  split; [reflexivity|]. exists project, query, n.
  rewrite List.filter_app, F. simpl. auto.
Qed.

Lemma bind_eq {A B} (c : M A) (k : A -> M B) (w : world) :
  bind c k w = k (c w).1 (c w).2.
Proof. unfold bind. now destruct (c w). Qed.

Local Ltac quiet_chain :=
  repeat first
    [ apply quiet_refl
    | eapply quiet_trans;
      [| first [ apply Embed_quiet | apply CreateProject_quiet
               | apply SetMemory_quiet | apply DeleteMemory_quiet
               | apply CreateSession_quiet | apply IndexFile_quiet
               | apply GetProject_quiet | apply GetMemory_quiet
               | apply GetSession_quiet | apply ListProjects_quiet
               | apply ListMemories_quiet | apply ListSessions_quiet
               | apply SearchMemories_quiet | apply SearchSessions_quiet
               | apply SearchFiles_quiet ] ] ].

Local Ltac silent :=
  unfold ret; apply accounted_silent; [reflexivity | quiet_chain].

Local Ltac recording t :=
  rewrite bind_eq; unfold ret;
  apply (accounted_recorded t); [reflexivity | quiet_chain].

Lemma handleProjectRegister_accounted (req : request) (w : world) :
  accounted project_register w (handleProjectRegister req w).
Proof.
  unfold handleProjectRegister.
  destruct (_ || _); [silent|].
  rewrite bind_eq. destruct (CreateProject _ w).1; [silent|].
  recording project_register.
Qed.

Lemma handleProjectList_accounted (req : request) (w : world) :
  accounted project_list w (handleProjectList req w).
Proof.
  unfold handleProjectList. rewrite bind_eq.
  destruct (ListProjects w).1 as [ps [e|]]; [silent|].
  recording project_list.
Qed.

Lemma handleProjectStatus_accounted (req : request) (w : world) :
  accounted project_status w (handleProjectStatus embedding req w).
Proof.
  unfold handleProjectStatus.
  destruct (String.eqb _ _); [silent|].
  rewrite bind_eq. destruct (GetProject _ w).1 as [[p|] [e|]]; try silent.
  rewrite bind_eq. destruct (ListMemories _ _ _).1 as [ms e1].
  rewrite bind_eq. destruct (ListSessions _ _).1 as [ss e2].
  recording project_status.
Qed.

Lemma handleMemorySet_accounted (req : request) (w : world) :
  accounted memory_set w (handleMemorySet embedding req w).
Proof.
  unfold handleMemorySet.
  destruct (_ || _); [silent|].
  rewrite bind_eq. rewrite bind_eq.
  destruct (SetMemory _ _ _).1; [silent|].
  recording memory_set.
Qed.

Lemma handleMemoryGet_accounted (req : request) (w : world) :
  accounted memory_get w (handleMemoryGet req w).
Proof.
  unfold handleMemoryGet. rewrite bind_eq.
  destruct (GetMemory _ _ _ w).1 as [[m|] [e|]]; try silent.
  recording memory_get.
Qed.

Lemma handleMemoryList_accounted (req : request) (w : world) :
  accounted memory_list w (handleMemoryList req w).
Proof.
  unfold handleMemoryList. rewrite bind_eq.
  destruct (ListMemories _ _ w).1 as [ms [e|]]; [silent|].
  recording memory_list.
Qed.

Lemma handleMemorySearch_accounted (req : request) (w : world) :
  accounted memory_search w (handleMemorySearch embedding req w).
Proof.
  unfold handleMemorySearch.
  destruct (_ || _); [silent|].
  rewrite bind_eq. rewrite bind_eq.
  destruct (SearchMemories _ _ _ _ _).1 as [rs [e|]]; [silent|].
  recording memory_search.
Qed.

Lemma handleMemoryDelete_accounted (req : request) (w : world) :
  accounted memory_delete w (handleMemoryDelete req w).
Proof.
  unfold handleMemoryDelete. rewrite bind_eq.
  destruct (DeleteMemory _ _ _ w).1; [silent|].
  recording memory_delete.
Qed.

Lemma handleSessionCreate_accounted (req : request) (w : world) :
  accounted session_create w (handleSessionCreate embedding req w).
Proof.
  unfold handleSessionCreate.
  destruct (_ || _); [silent|].
  rewrite bind_eq. rewrite bind_eq.
  destruct (CreateSession _ _ _).1; [silent|].
  recording session_create.
Qed.

Lemma handleSessionGet_accounted (req : request) (w : world) :
  accounted session_get w (handleSessionGet req w).
Proof.
  unfold handleSessionGet. rewrite bind_eq.
  destruct (GetSession _ _ w).1 as [[s|] [e|]]; try silent.
  recording session_get.
Qed.

Lemma handleSessionList_accounted (req : request) (w : world) :
  accounted session_list w (handleSessionList req w).
Proof.
  unfold handleSessionList. rewrite bind_eq.
  destruct (ListSessions _ w).1 as [ss [e|]]; [silent|].
  recording session_list.
Qed.

Lemma handleSessionSearch_accounted (req : request) (w : world) :
  accounted session_search w (handleSessionSearch embedding req w).
Proof.
  unfold handleSessionSearch.
  destruct (_ || _); [silent|].
  rewrite bind_eq. rewrite bind_eq.
  destruct (SearchSessions _ _ _ _ _).1 as [rs [e|]]; [silent|].
  recording session_search.
Qed.

Lemma handleFileIndex_accounted (req : request) (w : world) :
  accounted file_index_tool w (handleFileIndex embedding req w).
Proof.
  unfold handleFileIndex.
  destruct (_ || _); [silent|].
  rewrite bind_eq. rewrite bind_eq.
  destruct (IndexFile _ _ _).1; [silent|].
  recording file_index_tool.
Qed.

Lemma handleFileSearch_accounted (req : request) (w : world) :
  accounted file_search w (handleFileSearch embedding req w).
Proof.
  unfold handleFileSearch.
  destruct (_ || _); [silent|].
  rewrite bind_eq. rewrite bind_eq.
  destruct (SearchFiles _ _ _ _ _).1 as [rs [e|]]; [silent|].
  recording file_search.
Qed.

End AccountingFacts.

(** ** Examples on concrete worlds *)

Example SearchAll_two_tenants :
  map m_Score (Memories (@SearchAll Demo.healthy "auth" None 2 Demo.w0).1.1)
  = [0.75%float; 0.75%float].
Proof. vm_compute. reflexivity. Qed.

Example SearchAll_one_tenant_failing :
  map m_Value (Memories (@SearchAll Demo.flaky "auth" None 2 Demo.w0).1.1)
  = ["auth zzz"; "auth yy"]
  /\ (@SearchAll Demo.flaky "auth" None 2 Demo.w0).1.2 = None.
Proof. vm_compute. split; reflexivity. Qed.

Example ListProjects_demo :
  (@ListProjects Demo.flaky Demo.w0).1 = (Demo.tenants, None).
Proof. vm_compute. reflexivity. Qed.

Example sort_desc_small :
  sort_desc id [0.25%float; 0.75%float; 0.5%float; 0.75%float]
  = [0.75%float; 0.75%float; 0.5%float; 0.25%float].
Proof. vm_compute. reflexivity. Qed.

Example SearchMemories_with_vector :
  let r := @SearchMemories Demo.healthy "t1" "auth" (Some Demo.new_vector) 5
             Demo.w0 in
  map m_Key r.1.1 = ["a"] /\ map strategy_of (w_log r.2) = [Some Similarity].
Proof. vm_compute. split; reflexivity. Qed.

Example SearchMemories_without_vector :
  let r := @SearchMemories Demo.healthy "t1" "auth" None 5 Demo.w0 in
  map m_Key r.1.1 = ["c"; "b"; "a"]
  /\ map strategy_of (w_log r.2) = [Some Keyword].
Proof. vm_compute. split; reflexivity. Qed.

Example Embed_disabled_makes_no_call :
  @Embed Demo.healthy Demo.service "some text" Demo.w0 = (None, Demo.w0).
Proof. reflexivity. Qed.

Example Publish_on_full_inbox :
  EventBus.Publish "late" Demo.full_inbox
  = EventBus.Returned tt Demo.full_inbox.
Proof. vm_compute. reflexivity. Qed.

Example unsub_after_subscribe :
  exists s, EventBus.unsub Demo.inbox Demo.subscribed = EventBus.Blocked s.
Proof. vm_compute. eexists. reflexivity. Qed.

(** ** What the MCP tools record *)

Section ToolFacts.
Context `{Externals}.
Variable embedding : Service.

(** Except for the two reads by key, a tool call that does not return an
    error result has performed its operation: searches, lists and deletes
    with no result among them. *)
Lemma performed_unless_error (t : tool) (req : request) (w : world) :
  t <> memory_get -> t <> session_get ->
  performed (handler embedding t req w).1
  = negb (is_error (handler embedding t req w).1).
Proof.
  intros Hm Hs. destruct t; try contradiction; simpl.
  - unfold handleProjectRegister. destruct (_ || _); [reflexivity|].
    rewrite bind_eq. destruct (CreateProject _ w).1; [reflexivity|].
    now rewrite bind_eq.
  - unfold handleProjectList. rewrite bind_eq.
    destruct (ListProjects w).1 as [ps [e|]]; [reflexivity|].
    now rewrite bind_eq.
  - unfold handleProjectStatus. destruct (String.eqb _ _); [reflexivity|].
    rewrite bind_eq.
    destruct (GetProject _ w).1 as [[p|] [e|]]; try reflexivity.
    rewrite bind_eq. destruct (ListMemories _ _ _).1.
    rewrite bind_eq. destruct (ListSessions _ _).1.
    now rewrite bind_eq.
  - unfold handleMemorySet. destruct (_ || _); [reflexivity|].
    rewrite !bind_eq. destruct (SetMemory _ _ _).1; [reflexivity|].
    now rewrite bind_eq.
  - unfold handleMemoryList. rewrite bind_eq.
    destruct (ListMemories _ _ w).1 as [ms [e|]]; [reflexivity|].
    now rewrite bind_eq.
  - unfold handleMemorySearch. destruct (_ || _); [reflexivity|].
    rewrite !bind_eq.
    destruct (SearchMemories _ _ _ _ _).1 as [rs [e|]]; [reflexivity|].
    now rewrite bind_eq.
  - unfold handleMemoryDelete. rewrite bind_eq.
    destruct (DeleteMemory _ _ _ w).1; [reflexivity|].
    now rewrite bind_eq.
  - unfold handleSessionCreate. destruct (_ || _); [reflexivity|].
    rewrite !bind_eq. destruct (CreateSession _ _ _).1; [reflexivity|].
    now rewrite bind_eq.
  - unfold handleSessionList. rewrite bind_eq.
    destruct (ListSessions _ w).1 as [ss [e|]]; [reflexivity|].
    now rewrite bind_eq.
  - unfold handleSessionSearch. destruct (_ || _); [reflexivity|].
    rewrite !bind_eq.
    destruct (SearchSessions _ _ _ _ _).1 as [rs [e|]]; [reflexivity|].
    now rewrite bind_eq.
  - unfold handleFileIndex. destruct (_ || _); [reflexivity|].
    rewrite !bind_eq. destruct (IndexFile _ _ _).1; [reflexivity|].
    now rewrite bind_eq.
  - unfold handleFileSearch. destruct (_ || _); [reflexivity|].
    rewrite !bind_eq.
    destruct (SearchFiles _ _ _ _ _).1 as [rs [e|]]; [reflexivity|].
    now rewrite bind_eq.
Qed.

Lemma handler_accounted (t : tool) (req : request) (w : world) :
  accounted t w (handler embedding t req w).
Proof.
  destruct t; simpl.
  - apply handleProjectRegister_accounted.
  - apply handleProjectList_accounted.
  - apply handleProjectStatus_accounted.
  - apply handleMemorySet_accounted.
  - apply handleMemoryGet_accounted.
  - apply handleMemoryList_accounted.
  - apply handleMemorySearch_accounted.
  - apply handleMemoryDelete_accounted.
  - apply handleSessionCreate_accounted.
  - apply handleSessionGet_accounted.
  - apply handleSessionList_accounted.
  - apply handleSessionSearch_accounted.
  - apply handleFileIndex_accounted.
  - apply handleFileSearch_accounted.
Qed.

(** C4, as the code has it: the accounting table only grows.  A tool call
    that performs its operation (it returns a result that is neither an
    error nor the "not found" of a read by key) sends exactly one usage
    insert, for that tool, its result count and the token estimate of the
    two; exactly one record is appended when the store takes the insert
    and none when it does not.  Every call of a tool other than
    [memory_get] and [session_get] that returns no error is such a call,
    with zero results or not.  A call that returns an error, or that finds
    no item, sends no usage insert and appends nothing. *)
Theorem tool_call_accounting (t : tool) (req : request) (w : world) :
  let r := (handler embedding t req w).1 in
  let w' := (handler embedding t req w).2 in
  usage_stats (w_db w') = usage_stats (w_db w) ++ recorded w w' /\
  (if performed r
   then exists project query n,
       usage_inserts w w' =
         [InsertUsage project (tool_name t) query n
            (tokenEstimate (tool_name t) n)] /\
       length (recorded w w') =
         (if accepts (w_db w')
               (InsertUsage project (tool_name t) query n
                  (tokenEstimate (tool_name t) n))
          then 1 else 0)%nat /\
       Forall (fun u => u_ProjectID u = project /\
                        u_ToolName u = tool_name t /\
                        u_QueryText u = query /\ u_ResultsCount u = n /\
                        u_TokensEstimated u = tokenEstimate (tool_name t) n)
         (recorded w w')
   else usage_inserts w w' = [] /\ recorded w w' = []) /\
  (t <> memory_get -> t <> session_get ->
   performed r = negb (is_error r)).
Proof.
  simpl. split; [|split].
  - apply (handler_accounted t req w).
  - apply (handler_accounted t req w).
  - apply performed_unless_error.
Qed.

End ToolFacts.

(** C4, as stated, fails: [memory_get] of a key that is not stored completes
    with the text "not found", which is not an error result, and no
    accounting record is appended. *)
Lemma memory_get_missing_unrecorded :
  let rw := @handler Demo.healthy Demo.service memory_get Demo.get_missing
              Demo.w0 in
  rw.1 = ToolResultText (Plain "not found") /\
  is_error rw.1 = false /\
  usage_stats (w_db rw.2) = usage_stats (w_db Demo.w0) /\
  length (recorded Demo.w0 rw.2) <> 1%nat.
Proof. vm_compute. repeat split; discriminate. Qed.

(** A delete of nothing and a search without a match are recorded. *)
Example memory_delete_recorded :
  let rw := @handler Demo.healthy Demo.service memory_delete Demo.get_missing
              Demo.w0 in
  map u_ToolName (recorded Demo.w0 rw.2) = ["memory_delete"]
  /\ map u_ResultsCount (recorded Demo.w0 rw.2) = [0]
  /\ map u_TokensEstimated (recorded Demo.w0 rw.2) = [100].
Proof. vm_compute. repeat split. Qed.

Example memory_search_no_match_recorded :
  let req : request :=
    {[ "project_id" := ArgString "t1"; "query" := ArgString "zebra" ]} in
  let rw := @handler Demo.healthy Demo.service memory_search req Demo.w0 in
  rw.1 = ToolResultText (JSONMemorySearch "full-text" "zebra" 0 [])
  /\ map u_ToolName (recorded Demo.w0 rw.2) = ["memory_search"]
  /\ map u_TokensEstimated (recorded Demo.w0 rw.2) = [0].
Proof. vm_compute. repeat split. Qed.

(** [project_list] names no project, and the insert of its record is
    refused. *)
Example project_list_insert_refused :
  let rw := @handler Demo.healthy Demo.service project_list ∅ Demo.w0 in
  is_error rw.1 = false /\ recorded Demo.w0 rw.2 = [] /\
  map (@accepts Demo.healthy (w_db rw.2)) (usage_inserts Demo.w0 rw.2)
  = [false].
Proof. vm_compute. repeat split. Qed.

(** ** The theorems at the concrete worlds *)

Lemma SearchAll_sorted_and_capped_witness :
  0 < 2 /\
  Z.of_nat (length (Memories
                      (@SearchAll Demo.healthy "auth" None 2 Demo.w0).1.1))
  <= 2 /\
  sorted_desc m_Score
    (Memories (@SearchAll Demo.healthy "auth" None 2 Demo.w0).1.1).
Proof.
  assert (Hl : 0 < 2) by lia.
  split; [exact Hl|].
  pose proof (@SearchAll_sorted_and_capped Demo.healthy "auth" None 2 Demo.w0
                Hl) as [[Hlen [Hs _]] _].
  exact (conj Hlen Hs).
Defined.

Lemma SearchAll_skips_failed_searches_witness :
  (@ListProjects Demo.flaky Demo.w0).1 = (Demo.tenants, None) /\
  (@SearchAll Demo.flaky "auth" None 2 Demo.w0).1.2 = None /\
  Memories (@SearchAll Demo.flaky "auth" None 2 Demo.w0).1.1 =
    cap 2 (sort_desc m_Score
             (concat (@memories_of_tenant Demo.flaky "auth" None 2 Demo.w0
                        <$> Demo.tenants))).
Proof.
  assert (Hps : (@ListProjects Demo.flaky Demo.w0).1 = (Demo.tenants, None))
    by (vm_compute; reflexivity).
  split; [exact Hps|].
  pose proof (@SearchAll_skips_failed_searches Demo.flaky "auth" None 2
                Demo.w0 Demo.tenants Hps) as [Herr [Hm _]].
  exact (conj Herr Hm).
Defined.

Lemma upsert_keeps_vector_when_absent_witness :
  memories (w_db Demo.w0) !! ("t1", "arch", "a")
  = Some (Demo.note 1 "auth a" (Some Demo.stored_vector)) /\
  (@SetMemory Demo.healthy Demo.rewrite_a None Demo.w0).1 = None /\
  (exists row,
     memories (w_db (@SetMemory Demo.healthy Demo.rewrite_a None Demo.w0).2)
       !! ("t1", "arch", "a") = Some row /\
     mr_value row = "auth, revised" /\
     mr_embedding row = Some Demo.stored_vector) /\
  (@SetMemory Demo.healthy Demo.rewrite_a (Some Demo.new_vector)
     Demo.w0).1 = None /\
  (exists row,
     memories (w_db (@SetMemory Demo.healthy Demo.rewrite_a
                       (Some Demo.new_vector) Demo.w0).2)
       !! ("t1", "arch", "a") = Some row /\
     mr_value row = "auth, revised" /\
     mr_embedding row = Some Demo.new_vector).
Proof.
  assert (Hold : memories (w_db Demo.w0)
                   !! (m_ProjectID Demo.rewrite_a, m_Topic Demo.rewrite_a,
                       m_Key Demo.rewrite_a)
                 = Some (Demo.note 1 "auth a" (Some Demo.stored_vector)))
    by (vm_compute; reflexivity).
  assert (Hreg : is_Some (projects (w_db Demo.w0)
                            !! m_ProjectID Demo.rewrite_a))
    by (vm_compute; eexists; reflexivity).
  assert (Hdim : column_accepts (Some Demo.new_vector) = true)
    by (vm_compute; reflexivity).
  split; [exact Hold|].
  destruct (proj1 (@upsert_keeps_vector_when_absent Demo.healthy Demo.w0)
              Demo.rewrite_a None _ Hold) as (row & Hrow & Hkeep & Hiff & Hrep).
  destruct (proj1 (@upsert_keeps_vector_when_absent Demo.healthy Demo.w0)
              Demo.rewrite_a (Some Demo.new_vector) _ Hold)
    as (row' & Hrow' & _ & Hiff' & Hrep').
  pose proof (proj2 Hiff (conj eq_refl (conj eq_refl Hreg))) as Hok.
  pose proof (proj2 Hiff' (conj eq_refl (conj Hdim Hreg))) as Hok'.
  split; [exact Hok|]. split.
  - exists row. split; [exact Hrow|].
    split; [exact (proj1 (Hrep Hok)) | exact (Hkeep eq_refl)].
  - split; [exact Hok'|]. exists row'. split; [exact Hrow'|].
    exact (Hrep' Hok').
Defined.

Example upsert_with_vector_replaces :
  (fun r => (mr_value r, mr_embedding r)) <$>
    memories (w_db (@SetMemory Demo.healthy Demo.rewrite_a
                      (Some Demo.new_vector) Demo.w0).2)
      !! ("t1", "arch", "a")
  = Some ("auth, revised", Some Demo.new_vector).
Proof. vm_compute. reflexivity. Qed.

Lemma read_of_missing_key_witness :
  (@pg_fault Demo.healthy (SelectMemory "t1" "arch" "nothing") = false /\
   memories (w_db Demo.w0) !! ("t1", "arch", "nothing") = None /\
   (@GetMemory Demo.healthy "t1" "arch" "nothing" Demo.w0).1 = (None, None) /\
   w_db (@GetMemory Demo.healthy "t1" "arch" "nothing" Demo.w0).2
   = w_db Demo.w0) /\
  (int4_ok 7 = true /\
   @pg_fault Demo.healthy (SelectSession "t1" 7) = false /\
   sessions (w_db Demo.w0) !! ("t1", 7) = None /\
   (@GetSession Demo.healthy "t1" 7 Demo.w0).1 = (None, None) /\
   w_db (@GetSession Demo.healthy "t1" 7 Demo.w0).2 = w_db Demo.w0) /\
  (int4_ok 2147483648 = false /\
   (@GetSession Demo.healthy "t1" 2147483648 Demo.w0).1
   = (None, Some ErrOutOfRange)).
Proof.
  assert (Hf : @pg_fault Demo.healthy (SelectMemory "t1" "arch" "nothing")
               = false) by reflexivity.
  assert (Hno : memories (w_db Demo.w0) !! ("t1", "arch", "nothing") = None)
    by (vm_compute; reflexivity).
  assert (Hi : int4_ok 7 = true) by reflexivity.
  assert (Hfs : @pg_fault Demo.healthy (SelectSession "t1" 7) = false)
    by reflexivity.
  assert (Hns : sessions (w_db Demo.w0) !! ("t1", 7) = None)
    by (vm_compute; reflexivity).
  assert (Hbig : int4_ok 2147483648 = false) by reflexivity.
  split; [|split].
  - split; [exact Hf|]. split; [exact Hno|].
    exact (proj1 (@read_of_missing_key Demo.healthy Demo.w0)
             "t1" "arch" "nothing" Hf Hno).
  - split; [exact Hi|]. split; [exact Hfs|]. split; [exact Hns|].
    exact (proj1 (proj2 (@read_of_missing_key Demo.healthy Demo.w0))
             "t1" 7 Hi Hfs Hns).
  - split; [exact Hbig|].
    exact (proj1 (proj1 (proj2 (proj2 (@read_of_missing_key Demo.healthy
                                         Demo.w0)))
                    "t1" 2147483648 Hbig)).
Defined.

(** C10, as stated, fails for [GetSession]: the engine answers every
    statement and no session of the key is stored, yet a session number
    that is no [INTEGER] is answered with an error. *)
Lemma GetSession_out_of_range_fails :
  @pg_fault Demo.healthy (SelectSession "t1" 2147483648) = false /\
  sessions (w_db Demo.w0) !! ("t1", 2147483648) = None /\
  (@GetSession Demo.healthy "t1" 2147483648 Demo.w0).1
  = (None, Some ErrOutOfRange) /\
  (@GetSession Demo.healthy "t1" 2147483648 Demo.w0).1 <> (None, None).
Proof. vm_compute. repeat split; discriminate. Qed.

Lemma Embed_total_and_silent_witness :
  @http_do Demo.healthy (svc_url Demo.enabled_service) "where is auth"
  = TransportError /\
  (@Embed Demo.healthy Demo.enabled_service "where is auth" Demo.w0).1 = None
  /\
  (@Embed Demo.healthy Demo.enabled_service "" Demo.w0).1 = None /\
  w_net (@Embed Demo.healthy Demo.enabled_service "" Demo.w0).2
  = w_net Demo.w0.
Proof.
  assert (Hd : @http_do Demo.healthy (svc_url Demo.enabled_service)
                 "where is auth" = TransportError) by reflexivity.
  split; [exact Hd|]. split.
  - exact (proj1 (proj2 (proj2
             (@Embed_total_and_silent Demo.healthy Demo.enabled_service
                "where is auth" Demo.w0))) Hd).
  - exact (proj1 (proj2
             (@Embed_total_and_silent Demo.healthy Demo.enabled_service
                "" Demo.w0)) eq_refl).
Defined.

Example Embed_enabled_calls_once :
  w_net (@Embed Demo.healthy Demo.enabled_service "where is auth" Demo.w0).2
  = [("http://localhost:8091/embed", "where is auth")].
Proof. reflexivity. Qed.

Lemma Publish_never_blocks_witness :
  EventBus.well_formed Demo.full_inbox = true /\
  exists s',
    EventBus.Publish "late" Demo.full_inbox = EventBus.Returned tt s' /\
    EventBus.clients s' = EventBus.clients Demo.full_inbox.
Proof.
  assert (Hwf : EventBus.well_formed Demo.full_inbox = true)
    by (vm_compute; reflexivity).
  split; [exact Hwf|].
  destruct (EventBusFacts.Publish_never_blocks "late" Demo.full_inbox Hwf)
    as (s' & Hp & Hc & _).
  exists s'. exact (conj Hp Hc).
Defined.

Lemma unsub_drains_then_blocks_witness :
  EventBus.well_formed Demo.full_inbox = true /\
  Demo.inbox ∈ dom (EventBus.chans Demo.full_inbox) /\
  exists s',
    EventBus.unsub Demo.inbox Demo.full_inbox = EventBus.Blocked s' /\
    Demo.inbox ∉ EventBus.clients s'.
Proof.
  assert (Hwf : EventBus.well_formed Demo.full_inbox = true)
    by (vm_compute; reflexivity).
  assert (Hin : Demo.inbox ∈ dom (EventBus.chans Demo.full_inbox))
    by (apply elem_of_dom; vm_compute; eexists; reflexivity).
  split; [exact Hwf|]. split; [exact Hin|].
  destruct (EventBusFacts.unsub_drains_then_blocks Demo.full_inbox Demo.inbox
              Hwf Hin) as (s' & Hb & Hout & _).
  exists s'. exact (conj Hb Hout).
Defined.

(** * Part III: further properties of the store and of its callers *)

(** ** [ORDER BY] and [LIMIT] *)

Lemma insert_by_perm {A} (le : A -> A -> bool) (x : A) (l : list A) :
  insert_by le x l ≡ₚ x :: l.
Proof.
  induction l as [|y l IH]; simpl; [reflexivity|].
  destruct (le x y); [reflexivity|].
  etrans; [apply Permutation_skip, IH|]. apply Permutation_swap.
Qed.

Lemma order_by_perm {A} (le : A -> A -> bool) (l : list A) :
  order_by le l ≡ₚ l.
Proof.
  induction l as [|x l IH]; simpl; [reflexivity|].
  etrans; [apply insert_by_perm|]. now apply Permutation_skip.
Qed.

Lemma insert_by_sorted {A} (le : A -> A -> bool) (x : A) (l : list A) :
  (forall a b, le a b = true \/ le b a = true) ->
  Sorted (fun a b => le a b = true) l ->
  Sorted (fun a b => le a b = true) (insert_by le x l).
Proof.
  intros Htot. induction 1 as [|y l Hs IH Hy]; simpl.
  - repeat constructor.
  - destruct (le x y) eqn:Hxy.
    + constructor; [constructor; assumption|]. now constructor.
    + constructor; [exact IH|].
      assert (Hyx : le y x = true) by (destruct (Htot x y); congruence).
      destruct Hy as [|z l' Hyz]; simpl.
      * now constructor.
      * destruct (le x z); now constructor.
Qed.

Lemma order_by_sorted {A} (le : A -> A -> bool) (l : list A) :
  (forall a b, le a b = true \/ le b a = true) ->
  Sorted (fun a b => le a b = true) (order_by le l).
Proof.
  intros Htot. induction l as [|x l IH]; simpl; [constructor|].
  now apply insert_by_sorted.
Qed.

Lemma Sorted_take {A} (R : A -> A -> Prop) (n : nat) (l : list A) :
  Sorted R l -> Sorted R (take n l).
Proof.
  intros Hs. revert n. induction Hs as [|x l Hs IH Hx]; intros [|n]; simpl;
    try constructor.
  - apply IH.
  - destruct Hx as [|y l' Hxy]; destruct n; simpl; now constructor.
Qed.

Lemma sql_limit_length {A} (n : Z) (l : list A) :
  0 <= n -> Z.of_nat (length (sql_limit n l)) <= n.
Proof. intros Hn. unfold sql_limit. rewrite length_take. lia. Qed.

(** ** Writes of the store *)

Section WriteFacts.
Context `{Externals}.

Lemma pool_Exec_ok (q : stmt)
    (run : Z -> database -> option error * database) (w : world) :
  (pool_Exec q run w).1 = None ->
  pg_fault q = false /\
  exists db', run (w_now w) (w_db w) = (None, db') /\
              (pool_Exec q run w).2 = set_db db' (log_stmt q w).
Proof.
  rewrite pool_Exec_eq. destruct (pg_fault q); [discriminate|].
  destruct (run (w_now w) (w_db w)) as [[e|] db']; [discriminate|]. eauto.
Qed.

Lemma pool_Exec_run (q : stmt)
    (run : Z -> database -> option error * database) (w : world)
    (e : option error) (db' : database) :
  pg_fault q = false -> run (w_now w) (w_db w) = (e, db') ->
  pool_Exec q run w = (e, set_db db' (log_stmt q w)).
Proof. intros Hf Hr. rewrite pool_Exec_eq, Hf. simpl. now rewrite Hr. Qed.

(** What an accepted memory upsert leaves in the database. *)
Lemma upsert_memory_inr (p t k v : string) (emb : option Vector)
    (cb : string) (now : Z) (db db' : database) :
  upsert_memory p t k v emb cb now db = (None, db') ->
  column_accepts emb = true /\ is_Some (projects db !! p) /\
  db' = with_memories
          (<[(p, t, k) :=
               match memories db !! (p, t, k) with
               | None => {| mr_id := memories_id_seq db; mr_value := v;
                            mr_embedding := emb; mr_created_at := now;
                            mr_updated_at := now; mr_created_by := cb |}
               | Some old => {| mr_id := mr_id old; mr_value := v;
                                mr_embedding :=
                                  COALESCE emb (mr_embedding old);
                                mr_created_at := mr_created_at old;
                                mr_updated_at := now;
                                mr_created_by := mr_created_by old |}
               end]> (memories db)) (memories_id_seq db + 1) db.
Proof.
  unfold upsert_memory. destruct (column_accepts emb); [|discriminate].
  simpl. case_bool_decide as Hp; [discriminate|]. intros [= <-].
  repeat split. destruct (projects db !! p); [eauto | contradiction].
Qed.


Lemma upsert_session_inr (p : string) (n : Z) (title summary content : string)
    (emb : option Vector) (meta : string) (now : Z) (db db' : database) :
  upsert_session p n title summary content emb meta now db = (None, db') ->
  int4_ok n = true /\ column_accepts emb = true /\
  is_Some (projects db !! p) /\
  db' = with_sessions
          (<[(p, n) :=
               match sessions db !! (p, n) with
               | None => {| sr_id := sessions_id_seq db; sr_title := title;
                            sr_summary := summary; sr_content := content;
                            sr_embedding := emb; sr_metadata := meta;
                            sr_created_at := now |}
               | Some old => {| sr_id := sr_id old; sr_title := title;
                                sr_summary := summary; sr_content := content;
                                sr_embedding :=
                                  COALESCE emb (sr_embedding old);
                                sr_metadata := meta;
                                sr_created_at := sr_created_at old |}
               end]> (sessions db)) (sessions_id_seq db + 1) db.
Proof.
  unfold upsert_session. destruct (int4_ok n); [|discriminate].
  destruct (column_accepts emb); [|discriminate].
  simpl. case_bool_decide as Hp; [discriminate|]. intros [= <-].
  repeat split. destruct (projects db !! p); [eauto | contradiction].
Qed.

Lemma upsert_file_inr (p path ft symbols summary : string)
    (emb : option Vector) (now : Z) (db db' : database) :
  upsert_file p path ft symbols summary emb now db = (None, db') ->
  column_accepts emb = true /\ is_Some (projects db !! p) /\
  db' = with_file_index
          (<[(p, path) :=
               match file_index db !! (p, path) with
               | None => {| fr_id := file_index_id_seq db;
                            fr_file_type := ft; fr_symbols := symbols;
                            fr_summary := summary; fr_embedding := emb;
                            fr_last_indexed := now |}
               | Some old => {| fr_id := fr_id old; fr_file_type := ft;
                                fr_symbols := symbols; fr_summary := summary;
                                fr_embedding :=
                                  COALESCE emb (fr_embedding old);
                                fr_last_indexed := now |}
               end]> (file_index db)) (file_index_id_seq db + 1) db.
Proof.
  unfold upsert_file. destruct (column_accepts emb); [|discriminate].
  simpl. case_bool_decide as Hp; [discriminate|]. intros [= <-].
  repeat split. destruct (projects db !! p); [eauto | contradiction].
Qed.

(** The database after a [SetMemory] that returned no error. *)
Lemma SetMemory_ok (m : Memory) (emb : option Vector) (w : world) :
  (SetMemory m emb w).1 = None ->
  pg_fault (UpsertMemory (m_ProjectID m) (m_Topic m) (m_Key m) (m_Value m)
              emb (m_CreatedBy m)) = false /\
  exists db',
    upsert_memory (m_ProjectID m) (m_Topic m) (m_Key m) (m_Value m) emb
      (m_CreatedBy m) (w_now w) (w_db w) = (None, db') /\
    w_db (SetMemory m emb w).2 = db'.
Proof.
  intros Hok. apply pool_Exec_ok in Hok as (Hf & db' & Hr & Hw).
  split; [exact Hf|]. exists db'. split; [exact Hr|].
  unfold SetMemory. now rewrite Hw.
Qed.

Lemma CreateSession_ok (s : Session) (emb : option Vector) (w : world) :
  (CreateSession s emb w).1 = None ->
  exists db',
    upsert_session (s_ProjectID s) (s_SessionNum s) (s_Title s) (s_Summary s)
      (s_Content s) emb (s_Metadata s) (w_now w) (w_db w) = (None, db') /\
    w_db (CreateSession s emb w).2 = db'.
Proof.
  intros Hok. apply pool_Exec_ok in Hok as (Hf & db' & Hr & Hw).
  exists db'. split; [exact Hr|]. unfold CreateSession. now rewrite Hw.
Qed.

Lemma IndexFile_ok (f : FileEntry) (emb : option Vector) (w : world) :
  (IndexFile f emb w).1 = None ->
  exists db',
    upsert_file (f_ProjectID f) (f_FilePath f) (f_FileType f) (f_Symbols f)
      (f_Summary f) emb (w_now w) (w_db w) = (None, db') /\
    w_db (IndexFile f emb w).2 = db'.
Proof.
  intros Hok. apply pool_Exec_ok in Hok as (Hf & db' & Hr & Hw).
  exists db'. split; [exact Hr|]. unfold IndexFile. now rewrite Hw.
Qed.

Lemma CreateProject_ok (p : Project) (w : world) :
  (CreateProject p w).1 = None ->
  exists db',
    upsert_project (p_ID p) (p_Name p) (p_RootPath p) (p_Metadata p)
      (w_now w) (w_db w) = (None, db') /\
    w_db (CreateProject p w).2 = db'.
Proof.
  intros Hok. apply pool_Exec_ok in Hok as (Hf & db' & Hr & Hw).
  exists db'. split; [exact Hr|]. unfold CreateProject. now rewrite Hw.
Qed.

(** A write that returns an error leaves every table as it was; the
    sequence of its table may have moved. *)
Lemma SetMemory_refused (m : Memory) (emb : option Vector) (w : world)
    (e : error) :
  (SetMemory m emb w).1 = Some e ->
  exists seq,
    w_db (SetMemory m emb w).2
    = with_memories (memories (w_db w)) seq (w_db w).
Proof.
  unfold SetMemory. rewrite pool_Exec_eq. destruct (pg_fault _).
  - intros _. exists (memories_id_seq (w_db w)). simpl. now destruct (w_db w).
  - cbn [fst snd w_db set_db]. apply upsert_memory_refused.
Qed.

Lemma CreateSession_refused (s : Session) (emb : option Vector) (w : world)
    (e : error) :
  (CreateSession s emb w).1 = Some e ->
  exists seq,
    w_db (CreateSession s emb w).2
    = with_sessions (sessions (w_db w)) seq (w_db w).
Proof.
  unfold CreateSession. rewrite pool_Exec_eq. destruct (pg_fault _).
  - intros _. exists (sessions_id_seq (w_db w)). simpl. now destruct (w_db w).
  - cbn [fst snd w_db set_db]. apply upsert_session_refused.
Qed.

Lemma IndexFile_refused (f : FileEntry) (emb : option Vector) (w : world)
    (e : error) :
  (IndexFile f emb w).1 = Some e ->
  exists seq,
    w_db (IndexFile f emb w).2
    = with_file_index (file_index (w_db w)) seq (w_db w).
Proof.
  unfold IndexFile. rewrite pool_Exec_eq. destruct (pg_fault _).
  - intros _. exists (file_index_id_seq (w_db w)). simpl.
    now destruct (w_db w).
  - cbn [fst snd w_db set_db]. apply upsert_file_refused.
Qed.

(** X1: what a successful write stored is what the read by the same key
    returns, when the engine answers the read: [SetMemory] then [GetMemory]
    gives the memory with the written value, [CreateSession] then
    [GetSession] the session with the written title, summary and content,
    [CreateProject] then [GetProject] the project with the written name and
    root path. *)
Theorem write_then_read (w : world) :
  (forall (m : Memory) (emb : option Vector),
     (SetMemory m emb w).1 = None ->
     pg_fault (SelectMemory (m_ProjectID m) (m_Topic m) (m_Key m)) = false ->
     exists got,
       (GetMemory (m_ProjectID m) (m_Topic m) (m_Key m)
          (SetMemory m emb w).2).1 = (Some got, None) /\
       m_ProjectID got = m_ProjectID m /\ m_Topic got = m_Topic m /\
       m_Key got = m_Key m /\ m_Value got = m_Value m) /\
  (forall (s : Session) (emb : option Vector),
     (CreateSession s emb w).1 = None ->
     pg_fault (SelectSession (s_ProjectID s) (s_SessionNum s)) = false ->
     exists got,
       (GetSession (s_ProjectID s) (s_SessionNum s)
          (CreateSession s emb w).2).1 = (Some got, None) /\
       s_ProjectID got = s_ProjectID s /\
       s_SessionNum got = s_SessionNum s /\ s_Title got = s_Title s /\
       s_Summary got = s_Summary s /\ s_Content got = s_Content s /\
       s_Metadata got = s_Metadata s) /\
  (forall (p : Project),
     (CreateProject p w).1 = None ->
     pg_fault (SelectProject (p_ID p)) = false ->
     exists got,
       (GetProject (p_ID p) (CreateProject p w).2).1 = (Some got, None) /\
       p_ID got = p_ID p /\ p_Name got = p_Name p /\
       p_RootPath got = p_RootPath p /\ p_Metadata got = p_Metadata p).
Proof.
  split; [|split].
  - intros m emb Hok Hf.
    destruct (SetMemory_ok m emb w Hok) as (_ & db' & Hr & Hw).
    apply upsert_memory_inr in Hr as (_ & _ & ->).
    rewrite GetMemory_eq, Hf, Hw. unfold select_memory. simpl.
    rewrite lookup_insert_eq. simpl. eexists. split; [reflexivity|].
    destruct (memories (w_db w) !! _); simpl; auto.
  - intros s emb Hok Hf.
    destruct (CreateSession_ok s emb w Hok) as (db' & Hr & Hw).
    apply upsert_session_inr in Hr as (Hi & _ & _ & ->).
    rewrite GetSession_eq, Hi, Hf, Hw. unfold select_session. simpl.
    rewrite lookup_insert_eq. simpl. eexists. split; [reflexivity|].
    destruct (sessions (w_db w) !! _); simpl; repeat split.
  - intros p Hok Hf.
    destruct (CreateProject_ok p w Hok) as (db' & Hr & Hw).
    unfold upsert_project in Hr. injection Hr as <-.
    rewrite GetProject_eq, Hf, Hw. unfold select_project. simpl.
    rewrite lookup_insert_eq. simpl. eexists. split; [reflexivity|].
    destruct (projects (w_db w) !! _); simpl; auto.
Qed.

End WriteFacts.

Section UpsertFacts.
Context `{Externals}.


(** X3: an upsert touches one row of one table.  After [SetMemory],
    successful or not, every other memory is as it was, and so are the
    projects, the sessions, the file index and the accounting records; the
    same holds for [CreateSession] and [IndexFile] on their tables. *)
Theorem upsert_touches_one_row (w : world) :
  (forall (m : Memory) (emb : option Vector),
     let db' := w_db (SetMemory m emb w).2 in
     (forall k, k <> (m_ProjectID m, m_Topic m, m_Key m) ->
                memories db' !! k = memories (w_db w) !! k) /\
     projects db' = projects (w_db w) /\ sessions db' = sessions (w_db w) /\
     file_index db' = file_index (w_db w) /\
     usage_stats db' = usage_stats (w_db w)) /\
  (forall (s : Session) (emb : option Vector),
     let db' := w_db (CreateSession s emb w).2 in
     (forall k, k <> (s_ProjectID s, s_SessionNum s) ->
                sessions db' !! k = sessions (w_db w) !! k) /\
     projects db' = projects (w_db w) /\ memories db' = memories (w_db w) /\
     file_index db' = file_index (w_db w) /\
     usage_stats db' = usage_stats (w_db w)) /\
  (forall (f : FileEntry) (emb : option Vector),
     let db' := w_db (IndexFile f emb w).2 in
     (forall k, k <> (f_ProjectID f, f_FilePath f) ->
                file_index db' !! k = file_index (w_db w) !! k) /\
     projects db' = projects (w_db w) /\ memories db' = memories (w_db w) /\
     sessions db' = sessions (w_db w) /\
     usage_stats db' = usage_stats (w_db w)).
Proof.
  split; [|split].
  - intros m emb. simpl.
    destruct (SetMemory m emb w).1 as [e|] eqn:E.
    + destruct (SetMemory_refused m emb w e E) as [seq ->]. simpl. auto.
    + destruct (SetMemory_ok m emb w E) as (_ & db' & Hr & ->).
      apply upsert_memory_inr in Hr as (_ & _ & ->). simpl.
      repeat split. intros k Hk. now rewrite lookup_insert_ne.
  - intros s emb. simpl.
    destruct (CreateSession s emb w).1 as [e|] eqn:E.
    + destruct (CreateSession_refused s emb w e E) as [seq ->]. simpl. auto.
    + destruct (CreateSession_ok s emb w E) as (db' & Hr & ->).
      apply upsert_session_inr in Hr as (_ & _ & _ & ->). simpl.
      repeat split. intros k Hk. now rewrite lookup_insert_ne.
  - intros f emb. simpl.
    destruct (IndexFile f emb w).1 as [e|] eqn:E.
    + destruct (IndexFile_refused f emb w e E) as [seq ->]. simpl. auto.
    + destruct (IndexFile_ok f emb w E) as (db' & Hr & ->).
      apply upsert_file_inr in Hr as (_ & _ & ->). simpl.
      repeat split. intros k Hk. now rewrite lookup_insert_ne.
Qed.

(** A write refused for its project has drawn its id. *)
Lemma upsert_memory_unregistered (p t k v : string) (emb : option Vector)
    (cb : string) (now : Z) (db : database) :
  column_accepts emb = true -> projects db !! p = None ->
  upsert_memory p t k v emb cb now db
  = (Some ErrForeignKey,
     with_memories (memories db) (memories_id_seq db + 1) db).
Proof.
  intros Hc Hp. unfold upsert_memory. rewrite Hc. simpl.
  now rewrite bool_decide_eq_true_2 by exact Hp.
Qed.

Lemma upsert_session_unregistered (p : string) (n : Z)
    (title summary content : string) (emb : option Vector) (meta : string)
    (now : Z) (db : database) :
  int4_ok n = true -> column_accepts emb = true -> projects db !! p = None ->
  upsert_session p n title summary content emb meta now db
  = (Some ErrForeignKey,
     with_sessions (sessions db) (sessions_id_seq db + 1) db).
Proof.
  intros Hi Hc Hp. unfold upsert_session. rewrite Hi, Hc. simpl.
  now rewrite bool_decide_eq_true_2 by exact Hp.
Qed.

Lemma upsert_file_unregistered (p path ft symbols summary : string)
    (emb : option Vector) (now : Z) (db : database) :
  column_accepts emb = true -> projects db !! p = None ->
  upsert_file p path ft symbols summary emb now db
  = (Some ErrForeignKey,
     with_file_index (file_index db) (file_index_id_seq db + 1) db).
Proof.
  intros Hc Hp. unfold upsert_file. rewrite Hc. simpl.
  now rewrite bool_decide_eq_true_2 by exact Hp.
Qed.

(** X4: content is stored under registered projects only, with vectors of
    the schema's dimension only.  [SetMemory], [CreateSession] and
    [IndexFile] for a project that is not registered, or with a vector that
    has not 384 coordinates, return an error and store nothing: every table
    is as it was.  The sequence of the table is another matter: a row that
    the engine refuses for its project has drawn its id, so the sequence is
    one further. *)
Theorem rejected_write_stores_nothing (w : world) :
  (forall (m : Memory) (emb : option Vector),
     (projects (w_db w) !! m_ProjectID m = None \/
      (exists v, emb = Some v /\ length v <> schema_dim)) ->
     (SetMemory m emb w).1 <> None /\
     stored (w_db (SetMemory m emb w).2) = stored (w_db w) /\
     (pg_fault (UpsertMemory (m_ProjectID m) (m_Topic m) (m_Key m)
                  (m_Value m) emb (m_CreatedBy m)) = false ->
      column_accepts emb = true ->
      (SetMemory m emb w).1 = Some ErrForeignKey /\
      memories_id_seq (w_db (SetMemory m emb w).2)
      = memories_id_seq (w_db w) + 1)) /\
  (forall (s : Session) (emb : option Vector),
     (projects (w_db w) !! s_ProjectID s = None \/
      (exists v, emb = Some v /\ length v <> schema_dim)) ->
     (CreateSession s emb w).1 <> None /\
     stored (w_db (CreateSession s emb w).2) = stored (w_db w) /\
     (pg_fault (UpsertSession (s_ProjectID s) (s_SessionNum s) (s_Title s)
                  (s_Summary s) (s_Content s) emb (s_Metadata s)) = false ->
      int4_ok (s_SessionNum s) = true -> column_accepts emb = true ->
      (CreateSession s emb w).1 = Some ErrForeignKey /\
      sessions_id_seq (w_db (CreateSession s emb w).2)
      = sessions_id_seq (w_db w) + 1)) /\
  (forall (f : FileEntry) (emb : option Vector),
     (projects (w_db w) !! f_ProjectID f = None \/
      (exists v, emb = Some v /\ length v <> schema_dim)) ->
     (IndexFile f emb w).1 <> None /\
     stored (w_db (IndexFile f emb w).2) = stored (w_db w) /\
     (pg_fault (UpsertFile (f_ProjectID f) (f_FilePath f) (f_FileType f)
                  (f_Symbols f) (f_Summary f) emb) = false ->
      column_accepts emb = true ->
      (IndexFile f emb w).1 = Some ErrForeignKey /\
      file_index_id_seq (w_db (IndexFile f emb w).2)
      = file_index_id_seq (w_db w) + 1)).
Proof.
  assert (Hcol : forall emb : option Vector,
             (exists v, emb = Some v /\ length v <> schema_dim) ->
             column_accepts emb = false).
  { intros emb (v & -> & Hv). simpl. now apply bool_decide_eq_false_2. }
  assert (Hnone : forall p, projects (w_db w) !! p = None ->
                            ~ is_Some (projects (w_db w) !! p)).
  { intros p ->. now intros [? ?]. }
  split; [|split].
  - intros m emb Hbad.
    destruct (SetMemory m emb w).1 as [e|] eqn:E.
    + split; [discriminate|].
      destruct (SetMemory_refused m emb w e E) as [seq Hdb].
      split; [now rewrite Hdb|]. intros Hf Hc.
      destruct Hbad as [Hno|Hv]; [|rewrite (Hcol _ Hv) in Hc; discriminate].
      unfold SetMemory in *.
      rewrite (pool_Exec_run _ _ _ _ _ Hf
                 (upsert_memory_unregistered _ _ _ _ _ _ _ _ Hc Hno)) in *.
      simpl in *. split; [now symmetry | reflexivity].
    + exfalso. destruct (SetMemory_ok m emb w E) as (_ & db' & Hr & _).
      apply upsert_memory_inr in Hr as (Hc & Hp & _).
      destruct Hbad as [Hno|Hv];
        [exact (Hnone _ Hno Hp) | rewrite (Hcol _ Hv) in Hc; discriminate].
  - intros s emb Hbad.
    destruct (CreateSession s emb w).1 as [e|] eqn:E.
    + split; [discriminate|].
      destruct (CreateSession_refused s emb w e E) as [seq Hdb].
      split; [now rewrite Hdb|]. intros Hf Hi Hc.
      destruct Hbad as [Hno|Hv]; [|rewrite (Hcol _ Hv) in Hc; discriminate].
      unfold CreateSession in *.
      rewrite (pool_Exec_run _ _ _ _ _ Hf
                 (upsert_session_unregistered _ _ _ _ _ _ _ _ _ Hi Hc Hno))
        in *.
      simpl in *. split; [now symmetry | reflexivity].
    + exfalso. destruct (CreateSession_ok s emb w E) as (db' & Hr & _).
      apply upsert_session_inr in Hr as (_ & Hc & Hp & _).
      destruct Hbad as [Hno|Hv];
        [exact (Hnone _ Hno Hp) | rewrite (Hcol _ Hv) in Hc; discriminate].
  - intros f emb Hbad.
    destruct (IndexFile f emb w).1 as [e|] eqn:E.
    + split; [discriminate|].
      destruct (IndexFile_refused f emb w e E) as [seq Hdb].
      split; [now rewrite Hdb|]. intros Hf Hc.
      destruct Hbad as [Hno|Hv]; [|rewrite (Hcol _ Hv) in Hc; discriminate].
      unfold IndexFile in *.
      rewrite (pool_Exec_run _ _ _ _ _ Hf
                 (upsert_file_unregistered _ _ _ _ _ _ _ _ Hc Hno)) in *.
      simpl in *. split; [now symmetry | reflexivity].
    + exfalso. destruct (IndexFile_ok f emb w E) as (db' & Hr & _).
      apply upsert_file_inr in Hr as (Hc & Hp & _).
      destruct Hbad as [Hno|Hv];
        [exact (Hnone _ Hno Hp) | rewrite (Hcol _ Hv) in Hc; discriminate].
Qed.

Lemma DeleteMemory_eq (p t k : string) (w : world) :
  DeleteMemory p t k w =
    if pg_fault (DeleteMemoryRow p t k)
    then (Some ErrEngine, log_stmt (DeleteMemoryRow p t k) w)
    else (None,
          set_db (with_memories (delete (p, t, k) (memories (w_db w)))
                    (memories_id_seq (w_db w)) (w_db w))
            (log_stmt (DeleteMemoryRow p t k) w)).
Proof. unfold DeleteMemory. rewrite pool_Exec_eq. reflexivity. Qed.

(** X5: [DeleteMemory] removes exactly the row of its key.  When it returns
    no error, a [GetMemory] of the key that the engine answers returns
    absent; every other memory is as before, successful or not; and deleting
    a key that is not stored is no error and changes no row. *)
Theorem DeleteMemory_removes_one_row (p t k : string) (w : world) :
  let w' := (DeleteMemory p t k w).2 in
  ((DeleteMemory p t k w).1 = None ->
   memories (w_db w') !! (p, t, k) = None /\
   (pg_fault (SelectMemory p t k) = false ->
    (GetMemory p t k w').1 = (None, None))) /\
  (forall k', k' <> (p, t, k) ->
              memories (w_db w') !! k' = memories (w_db w) !! k') /\
  (memories (w_db w) !! (p, t, k) = None ->
   memories (w_db w') = memories (w_db w) /\
   (pg_fault (DeleteMemoryRow p t k) = false ->
    (DeleteMemory p t k w).1 = None)).
Proof.
  simpl. rewrite DeleteMemory_eq.
  destruct (pg_fault (DeleteMemoryRow p t k)); simpl.
  - split; [discriminate|]. split; [auto|]. intros _.
    split; [reflexivity | discriminate].
  - split; [|split].
    + intros _. split; [apply lookup_delete_eq|].
      intros Hf. rewrite GetMemory_eq, Hf. unfold select_memory. simpl.
      now rewrite lookup_delete_eq.
    + intros k' Hk. now apply lookup_delete_ne.
    + intros Hno. split; [now apply delete_id | reflexivity].
Qed.

(** X6: registering a project again updates it in place.  A successful
    [CreateProject] keeps the creation time of a project that exists, sets
    the update time, registers no other project and removes none, and
    leaves every content table and the accounting records alone. *)
Theorem CreateProject_updates_in_place (p : Project) (w : world) :
  (CreateProject p w).1 = None ->
  let db' := w_db (CreateProject p w).2 in
  (exists row,
     projects db' !! p_ID p = Some row /\
     pr_name row = p_Name p /\ pr_root_path row = p_RootPath p /\
     pr_metadata row = p_Metadata p /\ pr_updated_at row = w_now w /\
     pr_created_at row =
       match projects (w_db w) !! p_ID p with
       | Some old => pr_created_at old
       | None => w_now w
       end) /\
  (forall id, id <> p_ID p -> projects db' !! id = projects (w_db w) !! id) /\
  memories db' = memories (w_db w) /\ sessions db' = sessions (w_db w) /\
  file_index db' = file_index (w_db w) /\
  usage_stats db' = usage_stats (w_db w).
Proof.
  intros Hok. simpl. destruct (CreateProject_ok p w Hok) as (db' & Hr & ->).
  unfold upsert_project in Hr. injection Hr as <-. simpl.
  split; [|repeat split].
  - rewrite lookup_insert_eq. eexists. split; [reflexivity|].
    destruct (projects (w_db w) !! p_ID p); simpl; repeat split.
  - intros id Hid. now rewrite lookup_insert_ne.
Qed.

End UpsertFacts.

(** ** Lists and searches of the store *)

Section ReadFacts.
Context `{Externals}.

(** What is delivered is the head of the result. *)
Lemma delivered_take {R} (stream : option nat) (rows : list R) :
  exists n, delivered stream rows = take n rows.
Proof.
  destruct stream as [n|]; simpl; [eauto|].
  exists (length rows). now rewrite take_ge.
Qed.

Lemma delivered_all {R} (rows : list R) : delivered None rows = rows.
Proof. reflexivity. Qed.

Lemma NoDup_delivered {R B} (f : R -> B) (stream : option nat)
    (rows : list R) :
  NoDup (f <$> rows) -> NoDup (f <$> delivered stream rows).
Proof.
  intros Hnd. destruct (delivered_take stream rows) as [n ->].
  rewrite fmap_take. eapply sublist_NoDup; [exact Hnd | apply sublist_take].
Qed.

Lemma Sorted_delivered {R} (le : R -> R -> Prop) (stream : option nat)
    (rows : list R) :
  Sorted le rows -> Sorted le (delivered stream rows).
Proof.
  intros Hs. destruct (delivered_take stream rows) as [n ->].
  now apply Sorted_take.
Qed.

Lemma ListProjects_eq (w : world) :
  ListProjects w =
    ((if pg_fault SelectProjects then ([], Some ErrEngine)
      else (delivered (pg_stream SelectProjects) (select_projects (w_db w)),
            None)),
     log_stmt SelectProjects w).
Proof. unfold ListProjects. apply pool_Query_eq. Qed.

Lemma select_projects_perm (db : database) :
  select_projects db ≡ₚ
    (fun kr => project_of_row kr.1 kr.2) <$> map_to_list (projects db).
Proof. unfold select_projects. apply order_by_perm. Qed.

Lemma elem_of_select_projects (db : database) (p : Project) :
  p ∈ select_projects db <->
  exists row, projects db !! p_ID p = Some row /\
              p = project_of_row (p_ID p) row.
Proof.
  rewrite (select_projects_perm db), list_elem_of_fmap. split.
  - intros ([id row] & -> & Hin%elem_of_map_to_list). simpl in *. eauto.
  - intros (row & Hrow & Hp). exists (p_ID p, row).
    split; [exact Hp | now apply elem_of_map_to_list].
Qed.

(** X7: what [ListProjects] lists when it returns no error.  Every project
    of the list is registered and carries its stored fields; none is listed
    twice; the list follows the collation's order of the names (given that
    this order compares any two texts).  The list holds every registered
    project when the engine delivered every row; it does not otherwise: the
    loop never reads [rows.Err()], so a stream that breaks gives the rows
    before the break and no error.  The database is as before. *)
Theorem ListProjects_lists_registered (w : world) (ps : list Project) :
  (ListProjects w).1 = (ps, None) ->
  (forall p, p ∈ ps ->
             exists row, projects (w_db w) !! p_ID p = Some row /\
                         p = project_of_row (p_ID p) row) /\
  NoDup (p_ID <$> ps) /\
  ((forall a b, pg_collate_le a b = true \/ pg_collate_le b a = true) ->
   Sorted (fun a b => pg_collate_le (p_Name a) (p_Name b) = true) ps) /\
  match pg_stream SelectProjects with
  | None =>
      (forall p, (exists row, projects (w_db w) !! p_ID p = Some row /\
                              p = project_of_row (p_ID p) row) -> p ∈ ps) /\
      length ps = size (projects (w_db w))
  | Some n => length ps = Nat.min n (size (projects (w_db w)))
  end /\
  w_db (ListProjects w).2 = w_db w.
Proof.
  rewrite ListProjects_eq. simpl.
  destruct (pg_fault SelectProjects); [discriminate|]. intros [= <-].
  pose proof (select_projects_perm (w_db w)) as Hperm.
  assert (Hlen : length (select_projects (w_db w))
                 = size (projects (w_db w))).
  { rewrite Hperm, length_fmap. apply length_map_to_list. }
  split; [|split; [|split; [|split]]].
  - intros p Hp%elem_of_delivered. now apply elem_of_select_projects.
  - apply NoDup_delivered. rewrite Hperm, <- list_fmap_compose.
    apply (NoDup_fst_map_to_list (projects (w_db w))).
  - intros Htotal. apply Sorted_delivered. unfold select_projects.
    apply (order_by_sorted
             (fun a b => pg_collate_le (p_Name a) (p_Name b))).
    intros a b. apply Htotal.
  - destruct (pg_stream SelectProjects) as [n|]; simpl.
    + now rewrite length_take, Hlen.
    + split; [|exact Hlen]. intros p Hp. now apply elem_of_select_projects.
  - reflexivity.
Qed.

Lemma by_topic_key_total (a b : Memory) :
  (forall x y, pg_collate_le x y = true \/ pg_collate_le y x = true) ->
  by_topic_key a b = true \/ by_topic_key b a = true.
Proof.
  intros Htotal. unfold by_topic_key. rewrite (String.eqb_sym (m_Topic b)).
  destruct (String.eqb (m_Topic a) (m_Topic b)); apply Htotal.
Qed.

Lemma ListMemories_eq (p topic : string) (w : world) :
  let filter := if String.eqb topic "" then None else Some topic in
  ListMemories p topic w =
    ((if pg_fault (SelectMemories p filter) then ([], Some ErrEngine)
      else (delivered (pg_stream (SelectMemories p filter))
              (select_memories p filter (w_db w)), None)),
     log_stmt (SelectMemories p filter) w).
Proof. unfold ListMemories. apply pool_Query_eq. Qed.

Lemma elem_of_select_memories (p : string) (filter : option string)
    (db : database) (m : Memory) :
  m ∈ select_memories p filter db <->
  (exists row,
     memories db !! (m_ProjectID m, m_Topic m, m_Key m) = Some row /\
     m = memory_of_row (m_ProjectID m, m_Topic m, m_Key m) row 0%float) /\
  m_ProjectID m = p /\
  match filter with Some t => m_Topic m = t | None => True end.
Proof.
  unfold select_memories. rewrite elem_of_order_by, list_elem_of_omap. split.
  - intros ([[[pp t] k] row] & Hin%elem_of_map_to_list & Hg). simpl in Hg.
    case_bool_decide as Hp; [|discriminate]. simpl in Hg.
    destruct filter as [t'|].
    + case_bool_decide as Ht; [|discriminate]. injection Hg as <-.
      simpl. split; [eauto|]. auto.
    + injection Hg as <-. simpl. split; [eauto|]. auto.
  - intros ((row & Hrow & Hm) & Hp & Ht).
    exists ((m_ProjectID m, m_Topic m, m_Key m), row).
    split; [now apply elem_of_map_to_list|]. simpl.
    rewrite bool_decide_eq_true_2 by exact Hp. simpl.
    destruct filter as [t'|].
    + rewrite bool_decide_eq_true_2 by exact Ht. now rewrite <- Hm.
    + now rewrite <- Hm.
Qed.

(** X8: what [ListMemories] lists when it returns no error.  Every memory
    of the list is a stored memory of the project (of the project and topic
    when a topic is given), with its stored fields and a zero score; the
    list follows the collation's order of topic and then key (given that
    this order compares any two texts).  The list holds every such memory
    when the engine delivered every row; a stream that breaks gives the
    rows before the break and no error. *)
Theorem ListMemories_lists_stored (p topic : string) (w : world)
    (ms : list Memory) :
  (ListMemories p topic w).1 = (ms, None) ->
  let filter := if String.eqb topic "" then None else Some topic in
  let listed (m : Memory) :=
    (exists row,
       memories (w_db w) !! (m_ProjectID m, m_Topic m, m_Key m) = Some row /\
       m = memory_of_row (m_ProjectID m, m_Topic m, m_Key m) row 0%float) /\
    m_ProjectID m = p /\ (topic = "" \/ m_Topic m = topic) in
  (forall m, m ∈ ms -> listed m) /\
  ((forall a b, pg_collate_le a b = true \/ pg_collate_le b a = true) ->
   Sorted (fun a b => by_topic_key a b = true) ms) /\
  (pg_stream (SelectMemories p filter) = None ->
   forall m, listed m -> m ∈ ms) /\
  (forall n, pg_stream (SelectMemories p filter) = Some n ->
             (length ms <= n)%nat) /\
  w_db (ListMemories p topic w).2 = w_db w.
Proof.
  rewrite ListMemories_eq. cbv zeta. cbn [fst snd].
  destruct (pg_fault _); [discriminate|]. intros [= <-].
  assert (Hiff : forall m,
             m ∈ select_memories p
                   (if String.eqb topic "" then None else Some topic)
                   (w_db w) <->
             (exists row,
                memories (w_db w) !! (m_ProjectID m, m_Topic m, m_Key m)
                = Some row /\
                m = memory_of_row (m_ProjectID m, m_Topic m, m_Key m) row
                      0%float) /\
             m_ProjectID m = p /\ (topic = "" \/ m_Topic m = topic)).
  { intros m. rewrite elem_of_select_memories.
    destruct (String.eqb_spec topic "") as [Ht|Ht]; split;
      intros (Hrow & Hp & Hm); repeat split; auto.
    destruct Hm as [Hm|Hm]; [contradiction | exact Hm]. }
  split; [|split; [|split; [|split]]].
  - intros m Hm%elem_of_delivered. now apply Hiff.
  - intros Htotal. apply Sorted_delivered. unfold select_memories.
    apply (order_by_sorted by_topic_key). intros a b.
    now apply by_topic_key_total.
  - intros ->. intros m Hm. now apply Hiff.
  - intros n ->. simpl. rewrite length_take. lia.
  - reflexivity.
Qed.

(** X9: a session list carries no transcript.  When [ListSessions] returns
    no error, every session of its list is a stored session of the project,
    with an empty [Content] (the content is returned by [GetSession] only),
    and the list is in ascending order of session number.  The list holds
    every session of the project when the engine delivered every row; a
    stream that breaks gives the rows before the break and no error. *)
Theorem ListSessions_without_content (p : string) (w : world)
    (ss : list Session) :
  (ListSessions p w).1 = (ss, None) ->
  let listed (s : Session) :=
    (exists row,
       sessions (w_db w) !! (s_ProjectID s, s_SessionNum s) = Some row /\
       s = session_of_row (s_ProjectID s, s_SessionNum s) row "" 0%float) /\
    s_ProjectID s = p in
  (forall s, s ∈ ss -> listed s) /\
  Forall (fun s => s_Content s = "") ss /\
  Sorted (fun a b => (s_SessionNum a <=? s_SessionNum b) = true) ss /\
  (pg_stream (SelectSessions p) = None -> forall s, listed s -> s ∈ ss) /\
  (forall n, pg_stream (SelectSessions p) = Some n -> (length ss <= n)%nat).
Proof.
  unfold ListSessions. rewrite pool_Query_eq. simpl.
  destruct (pg_fault _); [discriminate|]. intros [= <-].
  assert (Hmem : forall s, s ∈ select_sessions p (w_db w) <->
             (exists row,
                sessions (w_db w) !! (s_ProjectID s, s_SessionNum s)
                = Some row /\
                s = session_of_row (s_ProjectID s, s_SessionNum s) row ""
                      0%float) /\
             s_ProjectID s = p).
  { intros s. unfold select_sessions.
    rewrite elem_of_order_by, list_elem_of_omap. split.
    - intros ([[pp n] row] & Hin%elem_of_map_to_list & Hg). simpl in Hg.
      case_bool_decide as Hp; [|discriminate]. injection Hg as <-.
      simpl. split; [eauto | exact Hp].
    - intros ((row & Hrow & Hs) & Hp).
      exists ((s_ProjectID s, s_SessionNum s), row).
      split; [now apply elem_of_map_to_list|]. simpl.
      rewrite bool_decide_eq_true_2 by exact Hp. now rewrite <- Hs. }
  split; [|split; [|split; [|split]]].
  - intros s Hs%elem_of_delivered. now apply Hmem.
  - apply Forall_forall. intros s Hs%elem_of_delivered.
    apply Hmem in Hs as ((row & _ & ->) & _). reflexivity.
  - apply Sorted_delivered. unfold select_sessions.
    apply (order_by_sorted (fun a b => s_SessionNum a <=? s_SessionNum b)).
    intros a b. rewrite !Z.leb_le. lia.
  - intros ->. intros s Hs. now apply Hmem.
  - intros n ->. simpl. rewrite length_take. lia.
Qed.

End ReadFacts.

(** ** PostgreSQL's order on doubles *)

Module PgOrderFacts.

Lemma SFleb_total (x y : spec_float) :
  x <> S754_nan -> y <> S754_nan -> SFleb x y = true \/ SFleb y x = true.
Proof.
  intros Hx Hy. destruct (SFleb x y) eqn:E; [now left | right].
  apply ScoreFacts.SFltb_false_SFleb; try assumption.
  unfold SFleb, SFltb in *. destruct (SFcompare x y) as [[| |]|];
    try discriminate; reflexivity.
Qed.

Lemma prim_is_nan_spec (a : float) :
  PrimFloat.is_nan a = false -> Prim2SF a <> S754_nan.
Proof. apply ScoreFacts.is_nan_spec. Qed.

Lemma pg_float_le_total (a b : float) :
  pg_float_le a b = true \/ pg_float_le b a = true.
Proof.
  unfold pg_float_le.
  destruct (PrimFloat.is_nan b) eqn:Hb; [now left|].
  destruct (PrimFloat.is_nan a) eqn:Ha; [now right|].
  rewrite !FloatAxioms.leb_spec.
  apply SFleb_total; now apply prim_is_nan_spec.
Qed.

End PgOrderFacts.

Section SearchFacts.
Context `{Externals}.

(** X10: a search returns at most [limit] items, and at most 10 when the
    limit is zero or negative; a search that fails returns no item. *)
Theorem search_returns_at_most_limit (p q : string) (emb : option Vector)
    (limit : Z) (w : world) :
  let bound := if limit <=? 0 then 10 else limit in
  (Z.of_nat (length (SearchMemories p q emb limit w).1.1) <= bound /\
   ((SearchMemories p q emb limit w).1.2 <> None ->
    (SearchMemories p q emb limit w).1.1 = [])) /\
  (Z.of_nat (length (SearchSessions p q emb limit w).1.1) <= bound /\
   ((SearchSessions p q emb limit w).1.2 <> None ->
    (SearchSessions p q emb limit w).1.1 = [])) /\
  (Z.of_nat (length (SearchFiles p q emb limit w).1.1) <= bound /\
   ((SearchFiles p q emb limit w).1.2 <> None ->
    (SearchFiles p q emb limit w).1.1 = [])).
Proof.
  simpl. change (if limit <=? 0 then 10 else limit) with (default_limit limit).
  pose proof (default_limit_pos limit) as Hpos.
  rewrite SearchMemories_eq, SearchSessions_eq, SearchFiles_eq.
  destruct emb as [v|]; rewrite !pool_Query_eq; simpl;
    repeat match goal with |- context [pg_fault ?s] => destruct (pg_fault s) end;
    simpl; repeat split; try lia; try congruence;
    match goal with
    | |- Z.of_nat (length (delivered ?s ?l)) <= _ =>
        pose proof (length_delivered s l);
        assert (Z.of_nat (length l) <= default_limit limit)
          by (unfold similar_memories, similar_sessions, similar_files,
                keyword_memories, keyword_sessions, keyword_files;
              rewrite ?length_map; apply sql_limit_length; lia);
        lia
    end.
Qed.

(** X11: the items of a keyword search come in descending order of
    relevance, in the engine's order on doubles: each score is at most the
    score before it. *)
Theorem keyword_search_sorted (p q : string) (limit : Z) (w : world) :
  Sorted (fun a b => pg_float_le (m_Score b) (m_Score a) = true)
    (SearchMemories p q None limit w).1.1 /\
  Sorted (fun a b => pg_float_le (s_Score b) (s_Score a) = true)
    (SearchSessions p q None limit w).1.1 /\
  Sorted (fun a b => pg_float_le (f_Score b) (f_Score a) = true)
    (SearchFiles p q None limit w).1.1.
Proof.
  rewrite SearchMemories_eq, SearchSessions_eq, SearchFiles_eq.
  rewrite !pool_Query_eq. simpl.
  repeat match goal with |- context [pg_fault ?s] => destruct (pg_fault s) end;
    simpl; repeat split; try constructor;
    apply Sorted_delivered;
    unfold keyword_memories, keyword_sessions, keyword_files, sql_limit;
    apply Sorted_take;
    first
      [ apply (order_by_sorted
                 (fun a b => pg_float_le (m_Score b) (m_Score a)))
      | apply (order_by_sorted
                 (fun a b => pg_float_le (s_Score b) (s_Score a)))
      | apply (order_by_sorted
                 (fun a b => pg_float_le (f_Score b) (f_Score a))) ];
    intros a b; apply PgOrderFacts.pg_float_le_total.
Qed.

(** The statements one tenant's three searches send. *)
Lemma search_project_log (q : string) (emb : option Vector) (limit : Z)
    (p : Project) (acc : SearchAllResult) (w : world) :
  w_log (search_project q emb limit p acc w).2 =
    w_log w ++ tenant_statements q emb (default_limit limit) p.
Proof.
  unfold search_project. rewrite bind_eq.
  destruct (SearchMemories (p_ID p) q emb limit w).1 as [ms e1].
  cbv zeta. rewrite bind_eq.
  destruct (SearchSessions (p_ID p) q emb limit _).1 as [ss e2].
  cbv zeta. rewrite bind_eq.
  destruct (SearchFiles (p_ID p) q emb limit _).1 as [fs e3].
  unfold ret. cbn [snd].
  rewrite SearchFiles_eq, SearchSessions_eq, SearchMemories_eq.
  destruct emb as [v|]; rewrite !pool_Query_eq; simpl;
    now rewrite <- !app_assoc.
Qed.

Lemma search_projects_log (q : string) (emb : option Vector) (limit : Z)
    (ps : list Project) :
  forall (acc : SearchAllResult) (w : world),
    w_log (search_projects q emb limit ps acc w).2 =
      w_log w ++
      concat (tenant_statements q emb (default_limit limit) <$> ps).
Proof.
  induction ps as [|p ps IH]; intros acc w; simpl.
  - now rewrite app_nil_r.
  - unfold bind.
    pose proof (search_project_log q emb limit p acc w) as Hl.
    destruct (search_project q emb limit p acc w) as [acc1 w1].
    simpl in Hl. rewrite IH, Hl. now rewrite <- app_assoc.
Qed.

Lemma tenant_statements_strategy (q : string) (emb : option Vector)
    (limit : Z) (p : Project) :
  Forall (fun s => strategy_of s = Some (chosen emb))
    (tenant_statements q emb limit p).
Proof. destruct emb; repeat constructor. Qed.

Lemma tenant_statements_length (q : string) (emb : option Vector)
    (limit : Z) (ps : list Project) :
  length (concat (tenant_statements q emb limit <$> ps))
  = (3 * length ps)%nat.
Proof.
  induction ps as [|p ps IH]; [reflexivity|].
  rewrite fmap_cons, concat_cons, length_app, IH.
  assert (length (tenant_statements q emb limit p) = 3%nat) as ->
    by (destruct emb; reflexivity).
  cbn [length]. lia.
Qed.

(** X12: [SearchAll] resolves the strategy once.  When the tenants can be
    listed it sends the listing and then three searches per tenant, in the
    order of the listing (memories, sessions, files), every one of them of
    the strategy that goes with the query vector; when they cannot, it
    sends the listing alone.  The database is as before. *)
Theorem SearchAll_statements (q : string) (emb : option Vector) (limit : Z)
    (w : world) :
  let w' := (SearchAll q emb limit w).2 in
  w_db w' = w_db w /\
  match (ListProjects w).1 with
  | (ps, None) =>
      w_log w' =
        w_log w ++ SelectProjects ::
          concat (tenant_statements q emb (default_limit limit) <$> ps) /\
      length (w_log w') = (length (w_log w) + 1 + 3 * length ps)%nat /\
      Forall (fun s => strategy_of s = Some (chosen emb))
        (concat (tenant_statements q emb (default_limit limit) <$> ps))
  | (_, Some _) => w_log w' = w_log w ++ [SelectProjects]
  end.
Proof.
  simpl. unfold SearchAll, bind, ret. rewrite ListProjects_eq. simpl.
  destruct (pg_fault SelectProjects); simpl; [auto|].
  set (ps := delivered (pg_stream SelectProjects) (select_projects (w_db w))).
  pose proof (search_projects_log q emb (default_limit limit) ps
                empty_result (log_stmt SelectProjects w)) as Hlog.
  destruct (search_projects_eq q emb (default_limit limit) ps empty_result
              (log_stmt SelectProjects w) w eq_refl) as [_ Hdb].
  destruct (search_projects q emb (default_limit limit) ps empty_result
              (log_stmt SelectProjects w)) as [r w1].
  simpl in *. rewrite default_limit_idem in Hlog.
  split; [exact Hdb|]. rewrite Hlog, <- app_assoc. simpl.
  split; [reflexivity|]. split.
  - rewrite length_app. simpl.
    rewrite (tenant_statements_length q emb (default_limit limit)). lia.
  - apply Forall_concat, Forall_fmap, Forall_forall. intros p _.
    apply tenant_statements_strategy.
Qed.

(** X13: [SearchAll] invents nothing.  Every memory, session and file it
    returns was returned by the search of a listed tenant, belongs to that
    tenant, and is a stored row with the score of the chosen strategy. *)
Theorem SearchAll_returns_stored_items (q : string) (emb : option Vector)
    (limit : Z) (w : world) :
  let r := (SearchAll q emb limit w).1.1 in
  Forall (fun m => (exists p, p ∈ (ListProjects w).1.1 /\
                              m_ProjectID m = p_ID p) /\
                   memory_source (w_db w) q emb m) (Memories r) /\
  Forall (fun s => (exists p, p ∈ (ListProjects w).1.1 /\
                              s_ProjectID s = p_ID p) /\
                   session_source (w_db w) q emb s) (Sessions r) /\
  Forall (fun f => (exists p, p ∈ (ListProjects w).1.1 /\
                              f_ProjectID f = p_ID p) /\
                   file_source (w_db w) q emb f) (Files r).
Proof.
  simpl. rewrite SearchAll_eq.
  destruct (ListProjects w).1 as [ps [e|]]; simpl;
    [repeat split; constructor|].
  assert (Hcap : forall {A} (score : A -> float) (l : list A) (x : A),
             x ∈ cap (default_limit limit) (sort_desc score l) -> x ∈ l).
  { intros A score l x Hx. unfold cap in Hx.
    apply elem_of_take in Hx as (i & Hi & _).
    rewrite <- (sort_desc_perm score l).
    apply list_elem_of_lookup. eauto. }
  assert (Hcat : forall {A} (f : Project -> list A) (x : A),
             x ∈ concat (f <$> ps) -> exists p, p ∈ ps /\ x ∈ f p).
  { intros A f x Hx. apply list_elem_of_In, in_concat in Hx as (l & Hl & Hx).
    apply list_elem_of_In, list_elem_of_fmap in Hl as (p & -> & Hp).
    exists p. split; [exact Hp | now apply list_elem_of_In]. }
  split; [|split]; apply Forall_forall; intros x Hx;
    apply Hcap, Hcat in Hx as (p & Hp & Hx).
  - unfold memories_of_tenant, contribution in Hx.
    destruct (SearchMemories _ _ _ _ _).1 as [l [e|]] eqn:E; simpl in Hx;
      [now apply elem_of_nil in Hx|].
    assert (Hin : x ∈ (SearchMemories (p_ID p) q emb (default_limit limit)
                         w).1.1) by now rewrite E.
    apply SearchMemories_source in Hin as [Hid Hsrc]. split; eauto.
  - unfold sessions_of_tenant, contribution in Hx.
    destruct (SearchSessions _ _ _ _ _).1 as [l [e|]] eqn:E; simpl in Hx;
      [now apply elem_of_nil in Hx|].
    assert (Hin : x ∈ (SearchSessions (p_ID p) q emb (default_limit limit)
                         w).1.1) by now rewrite E.
    apply SearchSessions_source in Hin as [Hid Hsrc]. split; eauto.
  - unfold files_of_tenant, contribution in Hx.
    destruct (SearchFiles _ _ _ _ _).1 as [l [e|]] eqn:E; simpl in Hx;
      [now apply elem_of_nil in Hx|].
    assert (Hin : x ∈ (SearchFiles (p_ID p) q emb (default_limit limit)
                         w).1.1) by now rewrite E.
    apply SearchFiles_source in Hin as [Hid Hsrc]. split; eauto.
Qed.

End SearchFacts.

(** ** More on the embedding gateway *)

Section EmbedMore.
Context `{Externals}.

(** What [Embed] returns does not depend on the world it runs in. *)
Lemma Embed_value (s : Service) (text : string) (w1 w2 : world) :
  (Embed s text w1).1 = (Embed s text w2).1.
Proof.
  unfold Embed.
  destruct (negb (Enabled s) || String.eqb text ""); [reflexivity|].
  destruct (negb (url_ok (svc_url s))); [reflexivity|].
  destruct (http_do (svc_url s) text) as [|status body]; [reflexivity|].
  destruct (negb (status =? 200)); [reflexivity|].
  destruct body as [|e]; [reflexivity|].
  now destruct (negb (len e =? svc_dim s)).
Qed.

Lemma Embed_calls (s : Service) (text : string) (w : world) :
  w_net (Embed s text w).2 =
    w_net w ++
    (if Enabled s && negb (String.eqb text "") && url_ok (svc_url s)
     then [(svc_url s, text)] else []).
Proof.
  unfold Embed. destruct (Enabled s); simpl; [|now rewrite app_nil_r].
  destruct (String.eqb text ""); simpl; [now rewrite app_nil_r|].
  destruct (url_ok (svc_url s)); simpl; [|now rewrite app_nil_r].
  destruct (http_do (svc_url s) text) as [|status body]; [reflexivity|].
  destruct (negb (status =? 200)); [reflexivity|].
  destruct body as [|e]; [reflexivity|].
  now destruct (negb (len e =? svc_dim s)).
Qed.

(** X14: [Embed] returns a vector only from a successful exchange, and then
    the vector has the configured dimension: the service is enabled, the text
    is not empty, exactly one HTTP call was made, for that text, and the
    response had status 200 and carried that vector.  A disabled service
    makes no call at all. *)
Theorem Embed_vector_provenance (s : Service) (text : string) (w : world) :
  (forall v, (Embed s text w).1 = Some v ->
             Z.of_nat (length v) = svc_dim s /\
             Enabled s = true /\ text <> "" /\
             http_do (svc_url s) text = Response 200 (Decoded (Some v)) /\
             w_net (Embed s text w).2 = w_net w ++ [(svc_url s, text)]) /\
  (Enabled s = false -> Embed s text w = (None, w)).
Proof.
  split.
  - intros v Hv. pose proof Hv as (He & Ht & Hu & Hd & Hl)%Embed_Some.
    repeat split; try assumption.
    rewrite Embed_calls, He, Hu. apply String.eqb_neq in Ht.
    now rewrite Ht.
  - intros He. unfold Embed. now rewrite He.
Qed.

Lemma embed_each_spec (s : Service) (texts : list string) :
  forall (i : nat) (results : list (option Vector)) (w : world),
    (i + length texts <= length results)%nat ->
    (embed_each s i texts results w).1 =
      take i results ++ ((fun t => (Embed s t w).1) <$> texts)
      ++ drop (i + length texts) results /\
    w_net (embed_each s i texts results w).2 =
      w_net w ++
      (if Enabled s && url_ok (svc_url s) then calls_for s texts else []) /\
    w_db (embed_each s i texts results w).2 = w_db w /\
    w_log (embed_each s i texts results w).2 = w_log w.
Proof.
  induction texts as [|t texts IH]; intros i results w Hlen; simpl.
  - unfold ret. simpl. rewrite Nat.add_0_r, take_drop.
    repeat split.
    destruct (Enabled s && url_ok (svc_url s)); now rewrite app_nil_r.
  - rewrite bind_eq. simpl in Hlen.
    destruct (IH (S i) (<[i := (Embed s t w).1]> results) (Embed s t w).2)
      as (Hr & Hn & Hd & Hl); [rewrite length_insert; lia|].
    assert (Hext : (fun t0 => (Embed s t0 (Embed s t w).2).1) <$> texts
                   = (fun t0 => (Embed s t0 w).1) <$> texts)
      by (apply list_fmap_ext; intros; apply Embed_value).
    rewrite Hext in Hr. rewrite Hr, Hn, Hd, Hl.
    destruct (Embed_frame s t w) as (Hdb & Hlog & _).
    split; [|split; [|split; assumption]].
    + rewrite (take_S_r _ _ (Embed s t w).1)
        by (apply list_lookup_insert_eq; lia).
      rewrite take_insert_ge by lia.
      rewrite drop_insert_lt by lia.
      rewrite <- app_assoc. simpl.
      replace (S (i + length texts))%nat with (i + S (length texts))%nat
        by lia.
      reflexivity.
    + rewrite Embed_calls, <- app_assoc. f_equal.
      unfold calls_for. simpl.
      destruct (Enabled s), (url_ok (svc_url s)), (String.eqb t "");
        reflexivity.
Qed.

(** X15: [EmbedBatch] is [Embed] on each text in turn.  It returns as many
    results as there are texts, the i-th being what [Embed] returns for the
    i-th text; on an enabled service whose address parses it makes one HTTP
    call per text that is not empty, in the order of the texts, and no call
    otherwise; it sends nothing to the store. *)
Theorem EmbedBatch_pointwise (s : Service) (texts : list string) (w : world) :
  (EmbedBatch s texts w).1 = (fun t => (Embed s t w).1) <$> texts /\
  length (EmbedBatch s texts w).1 = length texts /\
  w_net (EmbedBatch s texts w).2 =
    w_net w ++
    (if Enabled s && url_ok (svc_url s) then calls_for s texts else []) /\
  w_db (EmbedBatch s texts w).2 = w_db w /\
  w_log (EmbedBatch s texts w).2 = w_log w.
Proof.
  unfold EmbedBatch.
  destruct (embed_each_spec s texts 0 (replicate (length texts) None) w)
    as (Hr & Hn & Hd & Hl); [rewrite length_replicate; lia|].
  rewrite Hr, Hn, Hd, Hl. simpl.
  rewrite drop_ge, app_nil_r by (rewrite length_replicate; lia).
  repeat split. apply length_fmap.
Qed.

End EmbedMore.

(** ** More on the event bus *)

Module EventBusMore.
Import EventBus.

Lemma Publish_state (event : string) (s : state) :
  well_formed s = true ->
  clients (state_of (Publish event s)) = clients s /\
  (forall ch,
     chans (state_of (Publish event s)) !! ch =
       if bool_decide (ch ∈ clients s)
       then try_send event <$> chans s !! ch
       else chans s !! ch) /\
  well_formed (state_of (Publish event s)) = true.
Proof.
  intros Hwf.
  pose proof (EventBusFacts.step_well_formed _ _ (step_Publish s event) Hwf)
    as Hwf'.
  destruct (EventBusFacts.Publish_returns event s Hwf) as (s' & Hp & Hc & Hch).
  rewrite Hp in *. simpl in *. auto.
Qed.

Lemma try_send_bounded (event : string) (c : chan) :
  (length (buf c) <= capacity c)%nat ->
  capacity (try_send event c) = capacity c /\
  (length (buf (try_send event c)) <= capacity c)%nat.
Proof.
  intros Hb. unfold try_send, full.
  destruct (Nat.leb_spec (capacity c) (length (buf c))); simpl;
    [auto|]. rewrite length_app. simpl. split; [reflexivity | lia].
Qed.

Lemma step_bounded (s s' : state) :
  step s s' -> well_formed s = true -> inboxes_bounded s ->
  inboxes_bounded s'.
Proof.
  intros Hstep Hwf Hb. destruct Hstep as [s|s event|s ch x s' Ht|s ch Hd].
  - intros ch c. simpl.
    destruct (decide (ch = fresh (dom (chans s)))) as [->|Hne].
    + rewrite lookup_insert_eq. intros [= <-]. simpl. split; [reflexivity|lia].
    + rewrite lookup_insert_ne by congruence. apply Hb.
  - destruct (Publish_state event s Hwf) as (_ & Hch & _).
    intros ch c. rewrite Hch.
    destruct (bool_decide (ch ∈ clients s)); [|apply Hb].
    destruct (chans s !! ch) as [c0|] eqn:E; [|discriminate].
    simpl. intros [= <-]. destruct (Hb ch c0 E) as [Hcap Hlen].
    destruct (try_send_bounded event c0) as [-> Hl]; [lia|].
    split; [exact Hcap | lia].
  - unfold take_one in Ht. destruct (chans s !! ch) as [c|] eqn:E;
      [|discriminate].
    unfold recv in Ht. destruct (buf c) as [|y rest] eqn:Eb.
    { destruct (closed c); discriminate. }
    injection Ht as <- <-. intros ch' c'. simpl.
    destruct (decide (ch' = ch)) as [->|Hne].
    + rewrite lookup_insert_eq. intros [= <-]. simpl.
      destruct (Hb ch c E) as [Hcap Hlen]. rewrite Eb in Hlen. simpl in Hlen.
      split; [exact Hcap | lia].
    + rewrite lookup_insert_ne by congruence. apply Hb.
  - apply elem_of_dom in Hd as [c Hc].
    rewrite (EventBusFacts.unsub_eq ch s c Hc).
    assert (Hs : forall st,
               state_of ((if closed c then Returned tt else Blocked) st) = st)
      by (intros st; destruct (closed c); reflexivity).
    rewrite Hs. intros ch' c'. simpl.
    destruct (decide (ch' = ch)) as [->|Hne].
    + rewrite lookup_insert_eq. intros [= <-]. simpl.
      destruct (Hb ch c Hc) as [Hcap _]. split; [exact Hcap | lia].
    + rewrite lookup_insert_ne by congruence. apply Hb.
Qed.

(** X16: an inbox never holds more than 16 events.  In every state the
    bus gets into through [Subscribe], [Publish], the subscribers' receives
    and [unsub], each channel has 16 slots, holds at most 16 events and is
    open. *)
Theorem inbox_never_over_capacity (s : state) :
  reachable s ->
  forall ch c, chans s !! ch = Some c ->
               capacity c = 16%nat /\ (length (buf c) <= 16)%nat /\
               closed c = false.
Proof.
  intros Hr.
  assert (Hinv : well_formed s = true /\ inboxes_bounded s).
  { revert s Hr.
    apply (rtc_ind_r (R := step)
             (fun s => well_formed s = true /\ inboxes_bounded s)
             NewEventBus).
    - split; [reflexivity|]. intros ch c. simpl.
      rewrite lookup_empty. discriminate.
    - intros x y _ Hstep [Hwf Hb]. split.
      + exact (EventBusFacts.step_well_formed x y Hstep Hwf).
      + exact (step_bounded x y Hstep Hwf Hb). }
  destruct Hinv as [Hwf Hb]. intros ch c Hc.
  destruct (Hb ch c Hc) as [Hcap Hlen].
  apply EventBusFacts.well_formed_spec in Hwf as [_ Hop].
  repeat split; try assumption. exact (Hop ch c Hc).
Qed.

Lemma publish_all_inbox (events : list string) :
  forall (s : state) (ch : nat) (c : chan),
    well_formed s = true -> ch ∈ clients s -> chans s !! ch = Some c ->
    capacity c = 16%nat -> (length (buf c) <= 16)%nat ->
    well_formed (publish_all events s) = true /\
    clients (publish_all events s) = clients s /\
    chans (publish_all events s) !! ch
    = Some (set_buf (take 16 (buf c ++ events)) c).
Proof.
  induction events as [|e events IH]; intros s ch c Hwf Hin Hc Hcap Hlen;
    simpl.
  - rewrite app_nil_r, take_ge by lia. destruct c. auto.
  - destruct (Publish_state e s Hwf) as (Hcl & Hch & Hwf').
    specialize (Hch ch). rewrite bool_decide_eq_true_2, Hc in Hch by exact Hin.
    simpl in Hch.
    destruct (try_send_bounded e c) as [Hcap' Hlen']; [lia|].
    destruct (IH _ ch (try_send e c) Hwf') as (Hw & Hcs & Hlk);
      [now rewrite Hcl | exact Hch | lia | lia |].
    split; [exact Hw|]. split; [now rewrite Hcs|]. rewrite Hlk.
    unfold try_send, full. rewrite Hcap.
    destruct (Nat.leb_spec 16 (length (buf c))) as [Hfull|Hroom].
    + simpl. f_equal. f_equal.
      rewrite !take_app_le by lia. reflexivity.
    + simpl. unfold set_buf. simpl. f_equal. f_equal.
      now rewrite <- app_assoc.
Qed.

(** X17: events reach a subscriber in the order they were published, and a
    subscriber that does not read keeps the first 16 of them.  After
    [Subscribe] on a bus whose clients are open channels, the new inbox
    holds, after any publications, the first 16 events published, in order;
    the subscriber's next receive takes the oldest of them. *)
Theorem inbox_is_first_in_first_out (s : state) (events : list string) :
  well_formed s = true ->
  let ch := (Subscribe s).1 in
  let s' := publish_all events (Subscribe s).2 in
  ch ∈ clients s' /\
  chans s' !! ch
  = Some {| buf := take 16 events; capacity := 16; closed := false |} /\
  match take 16 events with
  | [] => take_one ch s' = None
  | e :: rest =>
      exists s'', take_one ch s' = Some (e, s'') /\
                  chans s'' !! ch
                  = Some {| buf := rest; capacity := 16; closed := false |}
  end.
Proof.
  intros Hwf. cbv zeta.
  pose proof (EventBusFacts.step_well_formed _ _ (step_Subscribe s) Hwf)
    as Hwf1.
  destruct (publish_all_inbox events (Subscribe s).2 (Subscribe s).1
              (make_chan 16) Hwf1) as (Hw & Hcl & Hlk).
  - simpl. apply elem_of_union_l, elem_of_singleton. reflexivity.
  - simpl. apply lookup_insert_eq.
  - reflexivity.
  - simpl. lia.
  - split.
    { rewrite Hcl. simpl. apply elem_of_union_l, elem_of_singleton.
      reflexivity. }
    assert (Hlk' : chans (publish_all events (Subscribe s).2)
                     !! (Subscribe s).1
                   = Some {| buf := take 16 events; capacity := 16;
                             closed := false |}) by exact Hlk.
    split; [exact Hlk'|].
    unfold take_one. rewrite Hlk'. unfold recv. cbn [buf closed].
    destruct (take 16 events) as [|e rest]; [reflexivity|].
    eexists. split; [reflexivity|]. cbn [chans]. apply lookup_insert_eq.
Qed.

(** X18: [unsub] concerns one subscriber.  Whatever it does for its own
    channel, every other channel keeps its inbox and its registration, and
    a later [Publish] still offers the event to every other subscriber. *)
Theorem unsub_leaves_others (s : state) (ch : nat) :
  well_formed s = true ->
  ch ∈ dom (chans s) ->
  let s' := state_of (unsub ch s) in
  well_formed s' = true /\
  forall ch', ch' <> ch ->
    chans s' !! ch' = chans s !! ch' /\
    (ch' ∈ clients s' <-> ch' ∈ clients s) /\
    forall event,
      chans (state_of (Publish event s')) !! ch'
      = chans (state_of (Publish event s)) !! ch'.
Proof.
  intros Hwf Hd. simpl.
  pose proof (EventBusFacts.step_well_formed _ _ (step_unsub s ch Hd) Hwf)
    as Hwf'.
  split; [exact Hwf'|]. intros ch' Hne.
  apply elem_of_dom in Hd as [c Hc].
  assert (Hs : state_of (unsub ch s)
               = {| chans := <[ch := set_buf [] c]> (chans s);
                    clients := clients s ∖ {[ch]} |}).
  { rewrite (EventBusFacts.unsub_eq ch s c Hc). now destruct (closed c). }
  rewrite Hs in *. simpl.
  assert (Hlk : <[ch := set_buf [] c]> (chans s) !! ch' = chans s !! ch')
    by (rewrite lookup_insert_ne by congruence; reflexivity).
  assert (Hcl : ch' ∈ clients s ∖ {[ch]} <-> ch' ∈ clients s)
    by (rewrite elem_of_difference, elem_of_singleton; tauto).
  split; [exact Hlk|]. split; [exact Hcl|].
  intros event.
  destruct (Publish_state event _ Hwf') as (_ & Hch' & _).
  destruct (Publish_state event s Hwf) as (_ & Hch & _).
  rewrite Hch', Hch. simpl. rewrite Hlk.
  destruct (decide (ch' ∈ clients s)) as [Hin|Hnin].
  - rewrite !bool_decide_eq_true_2; [reflexivity | exact Hin | now apply Hcl].
  - rewrite !bool_decide_eq_false_2; [reflexivity | exact Hnin |].
    now rewrite Hcl.
Qed.

End EventBusMore.

(** ** What a computation keeps *)

Section Shapes.
Context `{Externals}.

(** Whatever a write answers, it leaves the database with its own table and
    sequence set, and nothing else. *)
Lemma upsert_memory_shape (p t k v : string) (emb : option Vector)
    (cb : string) (now : Z) (db : database) :
  exists tb seq,
    (upsert_memory p t k v emb cb now db).2 = with_memories tb seq db.
Proof.
  destruct (upsert_memory p t k v emb cb now db).1 as [e|] eqn:E.
  - destruct (upsert_memory_refused _ _ _ _ _ _ _ _ e E) as [seq ->]. eauto.
  - destruct (upsert_memory p t k v emb cb now db) as [e' db'] eqn:E'.
    simpl in E. subst e'. apply upsert_memory_inr in E' as (_ & _ & ->).
    simpl. eauto.
Qed.

Lemma upsert_session_shape (p : string) (n : Z)
    (title summary content : string) (emb : option Vector) (meta : string)
    (now : Z) (db : database) :
  exists tb seq,
    (upsert_session p n title summary content emb meta now db).2
    = with_sessions tb seq db.
Proof.
  destruct (upsert_session p n title summary content emb meta now db).1
    as [e|] eqn:E.
  - destruct (upsert_session_refused _ _ _ _ _ _ _ _ _ e E) as [seq ->].
    eauto.
  - destruct (upsert_session p n title summary content emb meta now db)
      as [e' db'] eqn:E'.
    simpl in E. subst e'. apply upsert_session_inr in E' as (_ & _ & _ & ->).
    simpl. eauto.
Qed.

Lemma upsert_file_shape (p path ft symbols summary : string)
    (emb : option Vector) (now : Z) (db : database) :
  exists tb seq,
    (upsert_file p path ft symbols summary emb now db).2
    = with_file_index tb seq db.
Proof.
  destruct (upsert_file p path ft symbols summary emb now db).1
    as [e|] eqn:E.
  - destruct (upsert_file_refused _ _ _ _ _ _ _ _ e E) as [seq ->]. eauto.
  - destruct (upsert_file p path ft symbols summary emb now db)
      as [e' db'] eqn:E'.
    simpl in E. subst e'. apply upsert_file_inr in E' as (_ & _ & ->).
    simpl. eauto.
Qed.

Lemma insert_usage_shape (p tool q : string) (results tokens : Z) (now : Z)
    (db : database) :
  exists tb seq,
    (insert_usage p tool q results tokens now db).2
    = with_usage_stats tb seq db.
Proof.
  unfold insert_usage. destruct (negb _); simpl.
  { exists (usage_stats db), (usage_stats_id_seq db). now destruct db. }
  case_bool_decide; simpl; eauto.
Qed.

End Shapes.

Section KeepFacts.
Context `{Externals}.
Context {X : Type} (f : world -> X).

(** [f] does not look at the statement log, at the record of HTTP calls or
    at the published events. *)
Hypothesis f_log : forall q w, f (log_stmt q w) = f w.
Hypothesis f_net : forall u t w, f (log_call u t w) = f w.

Lemma keeps_ret {A} (a : A) : keeps f (ret a).
Proof. intros w. reflexivity. Qed.

Lemma keeps_bind {A B} (c : M A) (k : A -> M B) :
  keeps f c -> (forall a, keeps f (k a)) -> keeps f (bind c k).
Proof.
  intros Hc Hk w. rewrite bind_eq. now rewrite Hk, Hc.
Qed.

Lemma keeps_pool_Query {R} (q : stmt) (run : database -> list R) :
  keeps f (pool_Query q run).
Proof. intros w. rewrite pool_Query_eq. apply f_log. Qed.

Lemma keeps_pool_QueryRow {R} (q : stmt) (run : database -> option R) :
  keeps f (pool_QueryRow q run).
Proof. intros w. rewrite pool_QueryRow_eq. apply f_log. Qed.

Lemma keeps_pool_Exec (q : stmt)
    (run : Z -> database -> option error * database) :
  (forall w, f (set_db (run (w_now w) (w_db w)).2 w) = f w) ->
  keeps f (pool_Exec q run).
Proof.
  intros Hrun w. rewrite pool_Exec_eq.
  destruct (pg_fault q); [apply f_log|]. cbn [snd].
  rewrite <- (f_log q w). apply (Hrun (log_stmt q w)).
Qed.

Lemma keeps_Embed (s : Service) (text : string) : keeps f (Embed s text).
Proof.
  intros w. unfold Embed.
  destruct (negb (Enabled s) || String.eqb text ""); [reflexivity|].
  destruct (negb (url_ok (svc_url s))); [reflexivity|].
  destruct (http_do (svc_url s) text) as [|status body]; [apply f_net|].
  destruct (negb (status =? 200)); [apply f_net|].
  destruct body as [|e]; [apply f_net|].
  destruct (negb (len e =? svc_dim s)); apply f_net.
Qed.

Lemma keeps_GetProject (id : string) : keeps f (GetProject id).
Proof. intros w. rewrite GetProject_eq. apply f_log. Qed.

Lemma keeps_GetMemory (p t k : string) : keeps f (GetMemory p t k).
Proof. intros w. rewrite GetMemory_eq. apply f_log. Qed.

Lemma keeps_GetSession (p : string) (n : Z) : keeps f (GetSession p n).
Proof. intros w. rewrite GetSession_eq. apply f_log. Qed.

Lemma keeps_ListProjects : keeps f ListProjects.
Proof. apply keeps_pool_Query. Qed.

Lemma keeps_ListMemories (p t : string) : keeps f (ListMemories p t).
Proof. apply keeps_pool_Query. Qed.

Lemma keeps_ListSessions (p : string) : keeps f (ListSessions p).
Proof. apply keeps_pool_Query. Qed.

Lemma keeps_SearchMemories (p q : string) (emb : option Vector) (limit : Z) :
  keeps f (SearchMemories p q emb limit).
Proof. unfold SearchMemories. destruct emb; apply keeps_pool_Query. Qed.

Lemma keeps_SearchSessions (p q : string) (emb : option Vector) (limit : Z) :
  keeps f (SearchSessions p q emb limit).
Proof. unfold SearchSessions. destruct emb; apply keeps_pool_Query. Qed.

Lemma keeps_SearchFiles (p q : string) (emb : option Vector) (limit : Z) :
  keeps f (SearchFiles p q emb limit).
Proof. unfold SearchFiles. destruct emb; apply keeps_pool_Query. Qed.

Lemma keeps_search_project (q : string) (emb : option Vector) (limit : Z)
    (p : Project) (acc : SearchAllResult) :
  keeps f (search_project q emb limit p acc).
Proof.
  unfold search_project.
  apply keeps_bind; [apply keeps_SearchMemories|]. intros [ms e1].
  apply keeps_bind; [apply keeps_SearchSessions|]. intros [ss e2].
  apply keeps_bind; [apply keeps_SearchFiles|]. intros [fs e3].
  apply keeps_ret.
Qed.

Lemma keeps_search_projects (q : string) (emb : option Vector) (limit : Z)
    (ps : list Project) :
  forall acc, keeps f (search_projects q emb limit ps acc).
Proof.
  induction ps as [|p ps IH]; intros acc; simpl; [apply keeps_ret|].
  apply keeps_bind; [apply keeps_search_project | intros a; apply IH].
Qed.

Lemma keeps_SearchAll (q : string) (emb : option Vector) (limit : Z) :
  keeps f (SearchAll q emb limit).
Proof.
  unfold SearchAll. apply keeps_bind; [apply keeps_ListProjects|].
  intros [ps [e|]]; [apply keeps_ret|].
  apply keeps_bind; [apply keeps_search_projects | intros r; apply keeps_ret].
Qed.

(** The writes keep what does not depend on the table they write. *)
Lemma keeps_CreateProject (p : Project) :
  (forall t w, f (set_db (with_projects t (w_db w)) w) = f w) ->
  keeps f (CreateProject p).
Proof.
  intros Hf. apply keeps_pool_Exec. intros w. apply Hf.
Qed.

Lemma keeps_SetMemory (m : Memory) (emb : option Vector) :
  (forall t seq w, f (set_db (with_memories t seq (w_db w)) w) = f w) ->
  keeps f (SetMemory m emb).
Proof.
  intros Hf. apply keeps_pool_Exec. intros w.
  destruct (upsert_memory_shape (m_ProjectID m) (m_Topic m) (m_Key m)
              (m_Value m) emb (m_CreatedBy m) (w_now w) (w_db w))
    as (t & seq & ->).
  apply Hf.
Qed.

Lemma keeps_DeleteMemory (p t k : string) :
  (forall t seq w, f (set_db (with_memories t seq (w_db w)) w) = f w) ->
  keeps f (DeleteMemory p t k).
Proof.
  intros Hf. apply keeps_pool_Exec. intros w. apply Hf.
Qed.

Lemma keeps_CreateSession (s : Session) (emb : option Vector) :
  (forall t seq w, f (set_db (with_sessions t seq (w_db w)) w) = f w) ->
  keeps f (CreateSession s emb).
Proof.
  intros Hf. apply keeps_pool_Exec. intros w.
  destruct (upsert_session_shape (s_ProjectID s) (s_SessionNum s)
              (s_Title s) (s_Summary s) (s_Content s) emb (s_Metadata s)
              (w_now w) (w_db w)) as (t & seq & ->).
  apply Hf.
Qed.

Lemma keeps_IndexFile (e : FileEntry) (emb : option Vector) :
  (forall t seq w, f (set_db (with_file_index t seq (w_db w)) w) = f w) ->
  keeps f (IndexFile e emb).
Proof.
  intros Hf. apply keeps_pool_Exec. intros w.
  destruct (upsert_file_shape (f_ProjectID e) (f_FilePath e) (f_FileType e)
              (f_Symbols e) (f_Summary e) emb (w_now w) (w_db w))
    as (t & seq & ->).
  apply Hf.
Qed.

Lemma keeps_RecordUsage (u : UsageStat) :
  (forall t seq w, f (set_db (with_usage_stats t seq (w_db w)) w) = f w) ->
  keeps f (RecordUsage u).
Proof.
  intros Hf. apply keeps_pool_Exec. intros w.
  destruct (insert_usage_shape (u_ProjectID u) (u_ToolName u)
              (u_QueryText u) (u_ResultsCount u) (u_TokensEstimated u)
              (w_now w) (w_db w)) as (t & seq & ->).
  apply Hf.
Qed.

Lemma keeps_recordUsage (tool p q : string) (n : Z) :
  (forall t seq w, f (set_db (with_usage_stats t seq (w_db w)) w) = f w) ->
  (forall e w, f (publish e w).2 = f w) ->
  keeps f (recordUsage tool p q n).
Proof.
  intros Hu Hp. unfold recordUsage.
  apply keeps_bind; [now apply keeps_RecordUsage | intros _ w; apply Hp].
Qed.

End KeepFacts.

(** ** More on the MCP tools *)

Local Ltac keeps_prim :=
  first
    [ apply keeps_ret
    | apply keeps_Embed; intros; reflexivity
    | apply keeps_GetProject; intros; reflexivity
    | apply keeps_GetMemory; intros; reflexivity
    | apply keeps_GetSession; intros; reflexivity
    | apply keeps_ListProjects; intros; reflexivity
    | apply keeps_ListMemories; intros; reflexivity
    | apply keeps_ListSessions; intros; reflexivity
    | apply keeps_SearchMemories; intros; reflexivity
    | apply keeps_SearchSessions; intros; reflexivity
    | apply keeps_SearchFiles; intros; reflexivity
    | apply keeps_SearchAll; intros; reflexivity
    | apply keeps_CreateProject; intros; reflexivity
    | apply keeps_SetMemory; intros; reflexivity
    | apply keeps_DeleteMemory; intros; reflexivity
    | apply keeps_CreateSession; intros; reflexivity
    | apply keeps_IndexFile; intros; reflexivity
    | apply keeps_recordUsage; intros; reflexivity ].

Local Ltac keeps_chain :=
  repeat first
    [ keeps_prim
    | apply keeps_bind; [keeps_prim | intros ?]
    | match goal with
      | |- keeps _ (if ?b then _ else _) => destruct b
      | |- keeps _ (match ?x with _ => _ end) => destruct x
      end ].

Local Ltac unfold_handlers :=
  unfold handler, handleProjectRegister, handleProjectList,
    handleProjectStatus, handleMemorySet, handleMemoryGet, handleMemoryList,
    handleMemorySearch, handleMemoryDelete, handleSessionCreate,
    handleSessionGet, handleSessionList, handleSessionSearch, handleFileIndex,
    handleFileSearch; cbv zeta.

Section ToolMore.
Context `{Externals}.
Variable embedding : Service.

(** X19: a tool call changes no content table other than the one of its
    tool: [projects] changes only through [project_register], [memories] only
    through [memory_set] and [memory_delete], [sessions] only through
    [session_create] and [file_index] only through [file_index]; the reads,
    lists and searches change none, whatever they return. *)
Theorem tool_writes_only_its_table (t : tool) (tb : content_table)
    (req : request) (w : world) :
  writes t <> Some tb ->
  same_table tb (w_db w) (w_db (handler embedding t req w).2).
Proof.
  intros Hw. destruct tb; simpl; revert w.
  - change (keeps (fun w => projects (w_db w)) (handler embedding t req)).
    destruct t; try (exfalso; apply Hw; reflexivity);
      unfold_handlers; keeps_chain.
  - change (keeps (fun w => memories (w_db w)) (handler embedding t req)).
    destruct t; try (exfalso; apply Hw; reflexivity);
      unfold_handlers; keeps_chain.
  - change (keeps (fun w => sessions (w_db w)) (handler embedding t req)).
    destruct t; try (exfalso; apply Hw; reflexivity);
      unfold_handlers; keeps_chain.
  - change (keeps (fun w => file_index (w_db w)) (handler embedding t req)).
    destruct t; try (exfalso; apply Hw; reflexivity);
      unfold_handlers; keeps_chain.
Qed.

Lemma announces_ret (r : CallToolResult) :
  performed r = false -> announces (ret r).
Proof. intros Hr w. unfold announced, ret. simpl. now rewrite Hr. Qed.

Lemma announces_recorded (tool p q : string) (n : Z) (r : CallToolResult) :
  performed r = true ->
  announces (bind (recordUsage tool p q n) (fun _ => ret r)).
Proof.
  intros Hr w. rewrite bind_eq. unfold announced, ret. simpl. rewrite Hr.
  unfold recordUsage. rewrite bind_eq. simpl. f_equal.
  apply (keeps_RecordUsage w_events); intros; reflexivity.
Qed.

Lemma announces_bind {A} (c : M A) (k : A -> M CallToolResult) :
  keeps w_events c -> (forall a, announces (k a)) -> announces (bind c k).
Proof.
  intros Hc Hk w. rewrite bind_eq. unfold announced.
  rewrite (Hk (c w).1 (c w).2). now rewrite (Hc w).
Qed.

Local Ltac announces_chain :=
  repeat first
    [ apply announces_ret; reflexivity
    | apply announces_recorded; reflexivity
    | apply announces_bind; [keeps_prim | intros ?]
    | match goal with
      | |- announces (if ?b then _ else _) => destruct b
      | |- announces (match ?x with _ => _ end) => destruct x
      end ].

(** X20: a tool call publishes the event ["dashboard-stats"] exactly when it
    performed its operation, once, whether or not the store took the
    accounting record; a call that returns an error or finds nothing
    publishes no event.  ([w_events] is [None] when no publisher is wired,
    and stays so.) *)
Theorem tool_announces_performed_calls (t : tool) (req : request)
    (w : world) :
  let r := (handler embedding t req w).1 in
  let w' := (handler embedding t req w).2 in
  w_events w' =
    (if performed r
     then (fun l => l ++ ["dashboard-stats"]) <$> w_events w
     else w_events w).
Proof.
  cbv zeta.
  assert (Ha : announces (handler embedding t req))
    by (destruct t; unfold_handlers; announces_chain).
  exact (Ha w).
Qed.

End ToolMore.

Section ToolCalls.
Context `{Externals}.
Variable embedding : Service.

Lemma Embed_then {A} (text : string) (k : option Vector -> M A) (w : world) :
  (forall v, keeps w_net (k v)) ->
  w_net (bind (Embed embedding text) k w).2 =
    w_net w ++
    (if Enabled embedding && negb (String.eqb text "")
        && url_ok (svc_url embedding)
     then [(svc_url embedding, text)] else []).
Proof. intros Hk. now rewrite bind_eq, Hk, Embed_calls. Qed.

Local Ltac keeps_net := intros; keeps_chain.

(** What a handler does with the embedding service: when its arguments fail
    its test it returns an error without any effect; otherwise it embeds its
    text and makes no other call. *)
Lemma handler_calls (t : tool) (req : request) (w : world) :
  let r := (handler embedding t req w).1 in
  let w' := (handler embedding t req w).2 in
  if passes_test t req
  then match embedded_text t req with
       | None => w_net w' = w_net w
       | Some text =>
           w_net w' =
             w_net w ++
             (if Enabled embedding && negb (String.eqb text "")
                 && url_ok (svc_url embedding)
              then [(svc_url embedding, text)] else [])
       end
  else is_error r = true /\ w' = w.
Proof.
  cbv zeta.
  destruct t; unfold passes_test, tested, embedded_text; cbn [forallb];
    unfold_handlers;
    repeat match goal with
    | |- context [String.eqb (stringArg req ?a) ""] =>
        destruct (String.eqb (stringArg req a) "") eqn:?
    | |- context [intArg req "session_num" 0 =? 0] =>
        destruct (intArg req "session_num" 0 =? 0) eqn:?
    end;
    cbn [orb andb negb];
    first
      [ split; reflexivity
      | rewrite Embed_then by keeps_net;
        repeat match goal with
        | E : String.eqb _ _ = _ |- _ => rewrite E; clear E
        end;
        reflexivity
      | revert w;
        match goal with
        | |- forall w, w_net (?c w).2 = w_net w => change (keeps w_net c)
        end;
        keeps_chain ].
Qed.

(** X21: a tool call makes at most one HTTP call, to the configured
    embedding address and with the text of its tool: the value for
    [memory_set], the query for the three searches, the summary for
    [file_index], and for [session_create] the summary or, when that is
    empty, the title.  The other tools make none; nor does any tool when the
    service is disabled or the text is empty.  A call whose arguments pass
    the test of its handler makes the call whatever the store then answers,
    also when the store refuses the write and the tool returns an error; a
    call whose arguments fail the test returns an error and does nothing. *)
Theorem tool_embeds_its_text_once (t : tool) (req : request) (w : world) :
  let r := (handler embedding t req w).1 in
  let w' := (handler embedding t req w).2 in
  (w_net w' = w_net w \/
   exists text,
     embedded_text t req = Some text /\ text <> "" /\
     Enabled embedding = true /\
     w_net w' = w_net w ++ [(svc_url embedding, text)]) /\
  (forall text,
     passes_test t req = true -> embedded_text t req = Some text ->
     w_net w' =
       w_net w ++
       (if Enabled embedding && negb (String.eqb text "")
           && url_ok (svc_url embedding)
        then [(svc_url embedding, text)] else [])) /\
  (passes_test t req = false -> is_error r = true /\ w' = w).
Proof.
  cbv zeta. pose proof (handler_calls t req w) as Hc. cbv zeta in Hc.
  destruct (passes_test t req) eqn:Hp.
  - split; [|split; [|discriminate]].
    + destruct (embedded_text t req) as [text|]; [|now left].
      destruct (Enabled embedding) eqn:He; simpl in Hc;
        [|left; now rewrite Hc, app_nil_r].
      destruct (String.eqb_spec text "") as [Ht|Ht]; simpl in Hc;
        [left; now rewrite Hc, app_nil_r|].
      destruct (url_ok (svc_url embedding)); simpl in Hc;
        [|left; now rewrite Hc, app_nil_r].
      right. exists text. auto.
    + intros text _ Ht. now rewrite Ht in Hc.
  - destruct Hc as [He Hw]. split; [left; now rewrite Hw|].
    split; [discriminate|]. auto.
Qed.

End ToolCalls.

Section ToolArguments.
Context `{Externals}.
Variable embedding : Service.

Lemma intArg_absent (req : request) (a : string) (d : Z) :
  stringArg req a = "" -> intArg req a d = d.
Proof. intros Ha. unfold intArg. now rewrite Ha. Qed.

Local Ltac first_only := eexists _, []; split; [|split]; reflexivity.

Local Ltac after_record :=
  match goal with
  | |- context [recordUsage ?a ?b ?c ?d ?w0] =>
      let L := fresh "L" in
      destruct (recordUsage_effect a b c d w0) as (L & _);
      rewrite L; cbn [log_stmt set_db w_log]; rewrite <- app_assoc;
      eexists _, [_]; split; [|split]; reflexivity
  end.

(** The statements a call of a tool without a test of its arguments sends:
    its own query first, built from the values it reads of its arguments. *)
Lemma unvalidated_reaches_store (t : tool) (req : request) (w : world) :
  validates t = false ->
  exists q qs,
    statement_of t (stringArg req "project_id") (stringArg req "topic")
      (stringArg req "key") (intArg req "session_num" 0) = Some q /\
    w_log (handler embedding t req w).2 = w_log w ++ q :: qs /\
    is_usage_insert q = false.
Proof.
  intros Hv. destruct t; try discriminate; unfold_handlers; rewrite bind_eq;
    cbn [statement_of].
  - rewrite ListProjects_eq. cbn [fst snd].
    destruct (pg_fault _); [first_only|].
    rewrite bind_eq. cbn [ret fst snd].
    after_record.
  - rewrite GetMemory_eq. cbn [fst snd].
    destruct (pg_fault _); [first_only|].
    destruct (select_memory _ _ _ _); [|first_only].
    rewrite bind_eq. cbn [ret fst snd].
    after_record.
  - pose proof (ListMemories_eq (stringArg req "project_id")
                  (stringArg req "topic") w) as E.
    cbv zeta in E. rewrite E. cbn [fst snd].
    destruct (pg_fault _); [first_only|].
    rewrite bind_eq. cbn [ret fst snd].
    after_record.
  - rewrite DeleteMemory_eq.
    destruct (pg_fault _); [first_only|].
    cbn [fst snd]. rewrite bind_eq. cbn [ret fst snd].
    after_record.
  - rewrite GetSession_eq. cbn [fst snd].
    destruct (int4_ok _); [|first_only].
    destruct (pg_fault _); [first_only|].
    destruct (select_session _ _ _); [|first_only].
    rewrite bind_eq. cbn [ret fst snd].
    after_record.
  - unfold ListSessions. rewrite pool_Query_eq. cbn [fst snd].
    destruct (pg_fault _); [first_only|].
    rewrite bind_eq. cbn [ret fst snd].
    after_record.
Qed.

(** X22: eight of the fourteen tools test their arguments: when an argument
    that [registerTools] declares required is absent or empty, they return
    an error result and nothing else happens: no statement, no HTTP call, no
    event.  Five others ([memory_get], [memory_list], [memory_delete],
    [session_get], [session_list]) test nothing: with a required argument
    absent they still send their statement to the store first, with the
    empty string in the place of an absent text and the number 0 in the
    place of an absent [session_num].  ([project_list], the sixth, declares
    no argument.) *)
Theorem absent_required_argument (t : tool) (req : request) (a : string)
    (w : world) :
  a ∈ required t -> stringArg req a = "" ->
  let given b := if String.eqb b a then "" else stringArg req b in
  let num :=
    if String.eqb a "session_num" then 0 else intArg req "session_num" 0 in
  if validates t
  then is_error (handler embedding t req w).1 = true /\
       (handler embedding t req w).2 = w
  else exists q qs,
         statement_of t (given "project_id") (given "topic") (given "key")
           num = Some q /\
         w_log (handler embedding t req w).2 = w_log w ++ q :: qs /\
         is_usage_insert q = false.
Proof.
  intros Hin Ha given num.
  assert (Hg : forall b, given b = stringArg req b).
  { intros b. unfold given. destruct (String.eqb_spec b a) as [->|]; auto. }
  assert (Hn : num = intArg req "session_num" 0).
  { unfold num. destruct (String.eqb_spec a "session_num") as [->|]; auto.
    symmetry. now apply intArg_absent. }
  destruct (validates t) eqn:Hv.
  - clear given num Hg Hn.
    destruct t; try discriminate; cbn [required] in Hin;
      repeat (apply elem_of_cons in Hin as [->|Hin]);
      try (now apply elem_of_nil in Hin);
      unfold_handlers; rewrite ?intArg_absent by exact Ha; rewrite ?Ha;
      cbn [String.eqb Z.eqb]; rewrite ?orb_true_r; split; reflexivity.
  - rewrite !Hg, Hn. now apply unvalidated_reaches_store.
Qed.

End ToolArguments.

Section ToolRoundTrip.
Context `{Externals}.
Variable embedding : Service.

(** A read by key looks at the table of memories only. *)
Lemma GetMemory_value (p t k : string) (w1 w2 : world) :
  memories (w_db w1) = memories (w_db w2) ->
  (GetMemory p t k w1).1 = (GetMemory p t k w2).1.
Proof.
  intros Hm. rewrite !GetMemory_eq. cbn [fst]. unfold select_memory.
  now rewrite Hm.
Qed.

Lemma SetMemory_GetMemory (m : Memory) (emb : option Vector) (w : world) :
  (SetMemory m emb w).1 = None ->
  pg_fault (SelectMemory (m_ProjectID m) (m_Topic m) (m_Key m)) = false ->
  exists got,
    (GetMemory (m_ProjectID m) (m_Topic m) (m_Key m)
       (SetMemory m emb w).2).1 = (Some got, None) /\
    m_ProjectID got = m_ProjectID m /\ m_Topic got = m_Topic m /\
    m_Key got = m_Key m /\ m_Value got = m_Value m.
Proof.
  intros Hok Hf.
  destruct (SetMemory_ok m emb w Hok) as (_ & db' & Hr & Hw).
  apply upsert_memory_inr in Hr as (_ & _ & ->).
  rewrite GetMemory_eq, Hf, Hw. unfold select_memory. simpl.
  rewrite lookup_insert_eq. simpl. eexists. split; [reflexivity|].
  destruct (memories (w_db w) !! _); simpl; auto.
Qed.

Lemma DeleteMemory_GetMemory (p t k : string) (w : world) :
  (DeleteMemory p t k w).1 = None ->
  pg_fault (SelectMemory p t k) = false ->
  (GetMemory p t k (DeleteMemory p t k w).2).1 = (None, None).
Proof.
  intros Hok Hf. rewrite DeleteMemory_eq in *.
  destruct (pg_fault (DeleteMemoryRow p t k)); [discriminate|].
  rewrite GetMemory_eq, Hf. unfold select_memory. simpl.
  now rewrite lookup_delete_eq.
Qed.

Lemma recordUsage_memories (tool p q : string) (n : Z) (w : world) :
  memories (w_db (recordUsage tool p q n w).2) = memories (w_db w).
Proof.
  apply (keeps_recordUsage (fun w => memories (w_db w))); intros; reflexivity.
Qed.

(** X23: the memory tools compose.  After a [memory_set] that returned no
    error, a [memory_get] of the same project, topic and key that the engine
    answers returns that memory with the value just set; after a
    [memory_delete] that returned no error, it returns "not found". *)
Theorem memory_tools_round_trip (req req' : request) (w : world) :
  stringArg req' "project_id" = stringArg req "project_id" ->
  stringArg req' "topic" = stringArg req "topic" ->
  stringArg req' "key" = stringArg req "key" ->
  pg_fault (SelectMemory (stringArg req "project_id") (stringArg req "topic")
              (stringArg req "key")) = false ->
  (is_error (handleMemorySet embedding req w).1 = false ->
   exists m,
     (handleMemoryGet req' (handleMemorySet embedding req w).2).1
     = ToolResultText (JSONMemory m) /\
     m_ProjectID m = stringArg req "project_id" /\
     m_Topic m = stringArg req "topic" /\ m_Key m = stringArg req "key" /\
     m_Value m = stringArg req "value") /\
  (is_error (handleMemoryDelete req w).1 = false ->
   (handleMemoryGet req' (handleMemoryDelete req w).2).1
   = ToolResultText (Plain "not found")).
Proof.
  intros Hp Ht Hk Hf. split.
  - unfold handleMemorySet, handleMemoryGet. cbv zeta.
    rewrite Hp, Ht, Hk.
    destruct (_ || _); [discriminate|].
    rewrite (bind_eq (Embed _ _)). rewrite (bind_eq (SetMemory _ _)).
    set (emb := (Embed embedding (stringArg req "value") w).1).
    set (w1 := (Embed embedding (stringArg req "value") w).2).
    set (m := {| m_ID := 0; m_ProjectID := stringArg req "project_id";
                 m_Topic := stringArg req "topic";
                 m_Key := stringArg req "key";
                 m_Value := stringArg req "value"; m_CreatedAt := 0;
                 m_UpdatedAt := 0; m_CreatedBy := "";
                 m_Score := 0%float |}).
    destruct (SetMemory m emb w1).1 as [e|] eqn:Hset; [discriminate|].
    intros _. rewrite (bind_eq (recordUsage _ _ _ _)). cbn [ret fst snd].
    destruct (SetMemory_GetMemory m emb w1 Hset Hf)
      as (got & Hg & G1 & G2 & G3 & G4).
    exists got. split; [|auto].
    rewrite bind_eq.
    rewrite (GetMemory_value _ _ _ _ (SetMemory m emb w1).2)
      by apply recordUsage_memories.
    cbn [m_ProjectID m_Topic m_Key m] in Hg. rewrite Hg.
    now rewrite bind_eq.
  - unfold handleMemoryDelete, handleMemoryGet. cbv zeta.
    rewrite Hp, Ht, Hk. rewrite (bind_eq (DeleteMemory _ _ _)).
    destruct (DeleteMemory _ _ _ w).1 as [e|] eqn:Hdel; [discriminate|].
    intros _. rewrite (bind_eq (recordUsage _ _ _ _)). cbn [ret fst snd].
    rewrite bind_eq.
    rewrite (GetMemory_value _ _ _ _ (DeleteMemory (stringArg req "project_id")
               (stringArg req "topic") (stringArg req "key") w).2)
      by apply recordUsage_memories.
    now rewrite (DeleteMemory_GetMemory _ _ _ w Hdel Hf).
Qed.

(** The search statement of a search tool is followed by its usage insert,
    which is no search. *)
Lemma searches_sent_search (s : strategy) (w w1 w2 w3 : world) (q : stmt) :
  w_log w1 = w_log w -> runs_only s w1 w2 ->
  w_log w3 = w_log w2 ++ [q] -> is_usage_insert q = true ->
  searches_sent w w3 = [s].
Proof.
  intros L1 (q2 & L2 & S2) L3 Hq. unfold searches_sent.
  rewrite L3, L2, L1, <- app_assoc, drop_app_length. simpl. rewrite S2.
  now destruct q.
Qed.

(** X24: a search tool reports the strategy that ran.  A [memory_search],
    [session_search] or [file_search] that returns no error has sent exactly
    one search statement: by similarity when [Embed] returned a vector for
    the query, reported as "semantic (vector)", by keyword otherwise,
    reported as "full-text"; the count it reports is the number of items it
    returns. *)
Theorem search_tool_reports_its_strategy (t : tool) (req : request)
    (w : world) :
  let r := (handler embedding t req w).1 in
  let w' := (handler embedding t req w).2 in
  let emb := (Embed embedding (stringArg req "query") w).1 in
  is_search t = true -> is_error r = false ->
  searches_sent w w' = [chosen emb] /\
  exists n, reported r = Some (search_type emb, n, Z.of_nat n).
Proof.
  cbv zeta. intros Ht.
  destruct (Embed_frame embedding (stringArg req "query") w)
    as (_ & L1 & _).
  destruct t; try discriminate; unfold_handlers;
    (destruct (_ || _); [discriminate|]);
    rewrite (bind_eq (Embed _ _));
    set (emb := (Embed embedding (stringArg req "query") w).1) in *;
    set (w1 := (Embed embedding (stringArg req "query") w).2) in *;
    rewrite bind_eq.
  - pose proof (SearchMemories_runs (stringArg req "project_id")
                  (stringArg req "query") emb (intArg req "limit" 10) w1)
      as Hruns.
    destruct (SearchMemories _ _ _ _ w1) as [[rs [e|]] w2];
      [discriminate|].
    intros _. cbn [fst snd] in *. rewrite bind_eq. cbn [ret fst snd].
    split; [|exists (length rs); reflexivity].
    match goal with
    | |- context [recordUsage ?a ?b ?c ?d ?w0] =>
        destruct (recordUsage_effect a b c d w0) as (L3 & _)
    end.
    eapply searches_sent_search; [exact L1 | exact Hruns | exact L3 |].
    reflexivity.
  - pose proof (SearchSessions_runs (stringArg req "project_id")
                  (stringArg req "query") emb (intArg req "limit" 10) w1)
      as Hruns.
    destruct (SearchSessions _ _ _ _ w1) as [[rs [e|]] w2];
      [discriminate|].
    intros _. cbn [fst snd] in *. rewrite bind_eq. cbn [ret fst snd].
    split; [|exists (length rs); reflexivity].
    match goal with
    | |- context [recordUsage ?a ?b ?c ?d ?w0] =>
        destruct (recordUsage_effect a b c d w0) as (L3 & _)
    end.
    eapply searches_sent_search; [exact L1 | exact Hruns | exact L3 |].
    reflexivity.
  - pose proof (SearchFiles_runs (stringArg req "project_id")
                  (stringArg req "query") emb (intArg req "limit" 10) w1)
      as Hruns.
    destruct (SearchFiles _ _ _ _ w1) as [[rs [e|]] w2];
      [discriminate|].
    intros _. cbn [fst snd] in *. rewrite bind_eq. cbn [ret fst snd].
    split; [|exists (length rs); reflexivity].
    match goal with
    | |- context [recordUsage ?a ?b ?c ?d ?w0] =>
        destruct (recordUsage_effect a b c d w0) as (L3 & _)
    end.
    eapply searches_sent_search; [exact L1 | exact Hruns | exact L3 |].
    reflexivity.
Qed.

End ToolRoundTrip.

(** ** The web layer *)

Section WebFacts.
Context `{Externals}.
Variable embedding : Service.

Lemma first_with_id_Some (id : Z) (mems : list Memory) (m : Memory) :
  first_with_id id mems = Some m -> m ∈ mems /\ m_ID m = id.
Proof.
  induction mems as [|x mems IH]; simpl; [discriminate|].
  destruct (Z.eqb_spec (m_ID x) id) as [Hx|Hx].
  - intros [= <-]. split; [left | exact Hx].
  - intros [Hin Hid]%IH. split; [now right | exact Hid].
Qed.

Lemma first_with_id_None (id : Z) (mems : list Memory) :
  first_with_id id mems = None <-> forall m, m ∈ mems -> m_ID m <> id.
Proof.
  induction mems as [|x mems IH]; simpl.
  - split; [intros _ m Hm; now apply elem_of_nil in Hm | reflexivity].
  - destruct (Z.eqb_spec (m_ID x) id) as [Hx|Hx].
    + split; [discriminate|]. intros Hall. exfalso.
      apply (Hall x); [left | exact Hx].
    + rewrite IH. split.
      * intros Hall m [->|Hm]%elem_of_cons; auto.
      * intros Hall m Hm. apply Hall. now right.
Qed.

(** The loops of the web layer keep what the store's reads keep. *)
Section Keeps.
Context {X : Type} (f : world -> X).
Hypothesis f_log : forall q w, f (log_stmt q w) = f w.

Lemma keeps_find_in_projects (id : Z) (ps : list Project) :
  keeps f (find_in_projects id ps).
Proof.
  induction ps as [|p ps IH]; simpl; [apply keeps_ret|].
  apply keeps_bind; [now apply keeps_ListMemories|].
  intros [mems e]. destruct (first_with_id id mems); [apply keeps_ret|].
  exact IH.
Qed.

Lemma keeps_findMemoryByID (id : Z) : keeps f (findMemoryByID id).
Proof.
  unfold findMemoryByID. apply keeps_bind; [now apply keeps_ListProjects|].
  intros [ps e]. apply keeps_find_in_projects.
Qed.

Lemma keeps_group_topics (ps : list Project) :
  forall groups, keeps f (group_topics ps groups).
Proof.
  induction ps as [|p ps IH]; intros groups; simpl; [apply keeps_ret|].
  apply keeps_bind; [now apply keeps_ListMemories|].
  intros [mems e]. apply IH.
Qed.

End Keeps.

Lemma quietly_ret {A} (a : A) : quietly (ret a).
Proof. intros w. apply quiet_refl. Qed.

Lemma quietly_bind {A B} (c : M A) (k : A -> M B) :
  quietly c -> (forall a, quietly (k a)) -> quietly (bind c k).
Proof.
  intros Hc Hk w. rewrite bind_eq.
  eapply quiet_trans; [apply Hc | apply Hk].
Qed.

Lemma quietly_find_in_projects (id : Z) (ps : list Project) :
  quietly (find_in_projects id ps).
Proof.
  induction ps as [|p ps IH]; simpl; [apply quietly_ret|].
  apply quietly_bind; [intros w; apply ListMemories_quiet|].
  intros [mems e]. destruct (first_with_id id mems); [apply quietly_ret|].
  exact IH.
Qed.

Lemma quietly_findMemoryByID (id : Z) : quietly (findMemoryByID id).
Proof.
  unfold findMemoryByID.
  apply quietly_bind; [intros w; apply ListProjects_quiet|].
  intros [ps e]. apply quietly_find_in_projects.
Qed.

Lemma quietly_group_topics (ps : list Project) :
  forall groups, quietly (group_topics ps groups).
Proof.
  induction ps as [|p ps IH]; intros groups; simpl; [apply quietly_ret|].
  apply quietly_bind; [intros w; apply ListMemories_quiet|].
  intros [mems e]. apply IH.
Qed.

Lemma quietly_search_projects (q : string) (emb : option Vector) (limit : Z)
    (ps : list Project) :
  forall acc, quietly (search_projects q emb limit ps acc).
Proof.
  induction ps as [|p ps IH]; intros acc; simpl; [apply quietly_ret|].
  apply quietly_bind; [|intros a; apply IH].
  unfold search_project.
  apply quietly_bind; [intros w; apply SearchMemories_quiet|]. intros [ms e1].
  apply quietly_bind; [intros w; apply SearchSessions_quiet|]. intros [ss e2].
  apply quietly_bind; [intros w; apply SearchFiles_quiet|]. intros [fs e3].
  apply quietly_ret.
Qed.

Lemma quietly_SearchAll (q : string) (emb : option Vector) (limit : Z) :
  quietly (SearchAll q emb limit).
Proof.
  unfold SearchAll. apply quietly_bind; [intros w; apply ListProjects_quiet|].
  intros [ps [e|]]; [apply quietly_ret|].
  apply quietly_bind; [apply quietly_search_projects|].
  intros r. apply quietly_ret.
Qed.

End WebFacts.

Local Ltac keeps_web_prim :=
  first
    [ keeps_prim
    | apply keeps_findMemoryByID; intros; reflexivity
    | apply keeps_group_topics; intros; reflexivity ].

Local Ltac keeps_web :=
  repeat first
    [ keeps_web_prim
    | apply keeps_bind; [keeps_web_prim | intros ?]
    | match goal with
      | |- keeps _ (if ?b then _ else _) => destruct b
      | |- keeps _ (match ?x with _ => _ end) => destruct x
      end ].

Local Ltac quietly_prim :=
  first
    [ apply quietly_ret
    | apply quietly_findMemoryByID
    | apply quietly_group_topics
    | apply quietly_SearchAll
    | intros ?; first
        [ apply Embed_quiet | apply ListProjects_quiet
        | apply ListMemories_quiet | apply ListSessions_quiet
        | apply GetSession_quiet | apply SetMemory_quiet
        | apply DeleteMemory_quiet ] ].

Local Ltac quietly_chain :=
  repeat first
    [ quietly_prim
    | apply quietly_bind; [quietly_prim | intros ?]
    | match goal with
      | |- quietly (if ?b then _ else _) => destruct b
      | |- quietly (match ?x with _ => _ end) => destruct x
      end ].

Local Ltac unfold_routes :=
  unfold serve, handleHistory, handleSearch, handleMemories,
    handleAPISessions, handleAPISessionDetail, handleAPISearch,
    handleAPIMemories, handleAPIMemoryEdit, handleAPIMemoryUpdate,
    handleAPIMemoryDelete, handleAPIMemoryCreate; cbv zeta.

Section WebAccounting.
Context `{Externals}.
Variable embedding : Service.

(** X25: the dashboard is outside the accounting.  No request to these
    routes, reading or writing, sends a usage insert, appends an accounting
    record or publishes an event; none changes the projects, the sessions or
    the file index; and only the three routes that write memories (update,
    delete, create) change the table of memories. *)
Theorem web_never_accounts (rt : route) (r : http_request) (w : world) :
  let w' := (serve embedding rt r w).2 in
  unaccounted w w' /\
  projects (w_db w') = projects (w_db w) /\
  sessions (w_db w') = sessions (w_db w) /\
  file_index (w_db w') = file_index (w_db w) /\
  (route_writes rt = false -> memories (w_db w') = memories (w_db w)).
Proof.
  cbv zeta.
  assert (Hq : quietly (serve embedding rt r))
    by (destruct rt; unfold_routes; quietly_chain).
  assert (He : keeps w_events (serve embedding rt r))
    by (destruct rt; unfold_routes; keeps_web).
  assert (Hp : keeps (fun w => projects (w_db w)) (serve embedding rt r))
    by (destruct rt; unfold_routes; keeps_web).
  assert (Hs : keeps (fun w => sessions (w_db w)) (serve embedding rt r))
    by (destruct rt; unfold_routes; keeps_web).
  assert (Hf : keeps (fun w => file_index (w_db w)) (serve embedding rt r))
    by (destruct rt; unfold_routes; keeps_web).
  split; [|split; [apply Hp | split; [apply Hs | split; [apply Hf|]]]].
  - destruct (quiet_sent _ _ (Hq w)) as [Hi _].
    destruct (Hq w) as [_ Hu]. repeat split; [exact Hi | exact Hu | apply He].
  - intros Hw. revert w.
    change (keeps (fun w => memories (w_db w)) (serve embedding rt r)).
    destruct rt; try discriminate; unfold_routes; keeps_web.
Qed.

End WebAccounting.

Section WebLookups.
Context `{Externals}.
Variable embedding : Service.

Lemma ListMemories_all (p : string) (w : world) :
  ListMemories p "" w =
    ((if pg_fault (SelectMemories p None) then ([], Some ErrEngine)
      else (delivered (pg_stream (SelectMemories p None))
              (select_memories p None (w_db w)), None)),
     log_stmt (SelectMemories p None) w).
Proof. apply (ListMemories_eq p "" w). Qed.

Lemma ListMemories_value (p topic : string) (w1 w2 : world) :
  w_db w1 = w_db w2 -> (ListMemories p topic w1).1 = (ListMemories p topic w2).1.
Proof. intros Hdb. rewrite !ListMemories_eq. cbn [fst]. now rewrite Hdb. Qed.

Lemma find_in_projects_Some (id : Z) (ps : list Project) :
  forall (w : world) (m : Memory),
    (find_in_projects id ps w).1 = Some m ->
    m_ID m = id /\
    exists p, p ∈ ps /\ m ∈ select_memories (p_ID p) None (w_db w).
Proof.
  induction ps as [|p ps IH]; intros w m; simpl; [discriminate|].
  rewrite bind_eq, ListMemories_all. cbn [fst snd].
  destruct (pg_fault _); cbn [first_with_id].
  - intros (Hid & p' & Hp' & Hm)%IH. split; [exact Hid|].
    exists p'. split; [now right | exact Hm].
  - destruct (first_with_id id _) as [m0|] eqn:Hfirst.
    + intros [= <-]. apply first_with_id_Some in Hfirst as [Hin Hid].
      apply elem_of_delivered in Hin.
      split; [exact Hid|]. exists p. split; [left | exact Hin].
    + intros (Hid & p' & Hp' & Hm)%IH. split; [exact Hid|].
      exists p'. split; [now right | exact Hm].
Qed.

Lemma find_in_projects_complete (id : Z) (ps : list Project) :
  (forall p, pg_fault (SelectMemories p None) = false) ->
  (forall p, pg_stream (SelectMemories p None) = None) ->
  forall w : world,
    (exists p m, p ∈ ps /\ m ∈ select_memories (p_ID p) None (w_db w) /\
                 m_ID m = id) ->
    is_Some (find_in_projects id ps w).1.
Proof.
  intros Hf Hs.
  induction ps as [|p ps IH]; intros w (p' & m & Hp' & Hm & Hid).
  - now apply elem_of_nil in Hp'.
  - simpl. rewrite bind_eq, ListMemories_all, Hf, Hs. cbn [fst snd delivered].
    destruct (first_with_id id _) as [m0|] eqn:Hfirst; [now eexists|].
    apply IH. apply elem_of_cons in Hp' as [->|Hp'].
    + exfalso. apply (proj1 (first_with_id_None id _) Hfirst m Hm Hid).
    + exists p', m. auto.
Qed.

Lemma findMemoryByID_eq (id : Z) (w : world) :
  (findMemoryByID id w).1 =
    (find_in_projects id
       (if pg_fault SelectProjects then []
        else delivered (pg_stream SelectProjects) (select_projects (w_db w)))
       (log_stmt SelectProjects w)).1.
Proof.
  unfold findMemoryByID. rewrite bind_eq, ListProjects_eq. cbn [fst snd].
  now destruct (pg_fault SelectProjects).
Qed.

(** What [findMemoryByID] returns is a stored memory of a registered
    project, with the identifier asked for. *)
Lemma findMemoryByID_Some (id : Z) (w : world) (m : Memory) :
  (findMemoryByID id w).1 = Some m ->
  m_ID m = id /\
  is_Some (projects (w_db w) !! m_ProjectID m) /\
  exists row,
    memories (w_db w) !! (m_ProjectID m, m_Topic m, m_Key m) = Some row /\
    m = memory_of_row (m_ProjectID m, m_Topic m, m_Key m) row 0%float.
Proof.
  rewrite findMemoryByID_eq.
  intros (Hid & p & Hp & Hm)%find_in_projects_Some. cbn [log_stmt w_db] in Hm.
  apply elem_of_select_memories in Hm as (Hrow & Hproj & _).
  split; [exact Hid|]. split; [|exact Hrow].
  destruct (pg_fault SelectProjects); [now apply elem_of_nil in Hp|].
  apply elem_of_delivered in Hp.
  apply elem_of_select_projects in Hp as (row & Hr & _).
  rewrite Hproj. eauto.
Qed.

(** X26: [findMemoryByID] looks through the memories of every project that
    the listing of the projects delivers.  What it returns has the identifier
    asked for and is a stored memory of a registered project.  When the
    engine accepts the listings and delivers all their rows, a stored memory
    of a registered project with that identifier is found.  When the call
    that lists the projects returns an error, the error is dropped and
    nothing is found, stored or not; the same when the engine fails before
    the first row of that listing, which the loop takes for its end. *)
Theorem findMemoryByID_finds_stored (id : Z) (w : world) :
  (forall m, (findMemoryByID id w).1 = Some m ->
     m_ID m = id /\
     is_Some (projects (w_db w) !! m_ProjectID m) /\
     exists row,
       memories (w_db w) !! (m_ProjectID m, m_Topic m, m_Key m) = Some row /\
       m = memory_of_row (m_ProjectID m, m_Topic m, m_Key m) row 0%float) /\
  (pg_fault SelectProjects = false -> pg_stream SelectProjects = None ->
   (forall p, pg_fault (SelectMemories p None) = false) ->
   (forall p, pg_stream (SelectMemories p None) = None) ->
   forall p t k row,
     is_Some (projects (w_db w) !! p) ->
     memories (w_db w) !! (p, t, k) = Some row -> mr_id row = id ->
     exists m, (findMemoryByID id w).1 = Some m /\ m_ID m = id) /\
  (pg_fault SelectProjects = true -> (findMemoryByID id w).1 = None) /\
  (pg_stream SelectProjects = Some 0%nat -> (findMemoryByID id w).1 = None).
Proof.
  split; [|split; [|split]].
  - intros m. apply findMemoryByID_Some.
  - intros Hf Hst Hfs Hss p t k row [prow Hp] Hrow Hid.
    assert (Hsome : is_Some (findMemoryByID id w).1).
    { rewrite findMemoryByID_eq, Hf, Hst. cbn [delivered].
      apply find_in_projects_complete; [exact Hfs | exact Hss |].
      exists (project_of_row p prow), (memory_of_row (p, t, k) row 0%float).
      split; [|split].
      - apply elem_of_select_projects. simpl. eauto.
      - apply elem_of_select_memories. simpl. repeat split. eauto.
      - exact Hid. }
    destruct Hsome as [m Hm]. exists m. split; [exact Hm|].
    now apply findMemoryByID_Some in Hm as [? _].
  - intros Hf. rewrite findMemoryByID_eq, Hf. reflexivity.
  - intros Hst. rewrite findMemoryByID_eq, Hst. cbn [delivered]. rewrite take_0.
    now destruct (pg_fault SelectProjects).
Qed.

(** X27: the search fragment.  Without a query nothing happens and the
    prompt is written.  With one, the answer is the error 500 exactly when
    the call that lists the projects returns an error; otherwise it is the
    fragment of results, for that query, with at most ten memories, ten
    sessions and ten files, and labelled "semantic" exactly when [Embed]
    returned a vector for the query.  An engine that accepts the listing of
    the projects and fails before its first row is not noticed: the answer
    is the fragment with no result. *)
Theorem handleAPISearch_result (r : http_request) (w : world) :
  let q := queryParam r "q" "" in
  let emb := (Embed embedding q w).1 in
  let label := match emb with Some _ => "semantic" | None => "full-text" end in
  (q = "" -> handleAPISearch embedding r w = (Written StartTyping, w)) /\
  (q <> "" ->
   if pg_fault SelectProjects
   then (handleAPISearch embedding r w).1 = HttpError "Search error" 500
   else exists ms ss fs,
       (handleAPISearch embedding r w).1 =
         Fragment "_search_results.html" (SearchData q label ms ss fs) /\
       (length ms <= 10)%nat /\ (length ss <= 10)%nat /\
       (length fs <= 10)%nat) /\
  (q <> "" -> pg_fault SelectProjects = false ->
   pg_stream SelectProjects = Some 0%nat ->
   (handleAPISearch embedding r w).1 =
     Fragment "_search_results.html" (SearchData q label [] [] [])).
Proof.
  cbv zeta. unfold handleAPISearch. cbv zeta. split; [|split].
  - intros ->. reflexivity.
  - intros Hq%String.eqb_neq. rewrite Hq. rewrite bind_eq.
    set (q := queryParam r "q" "").
    set (emb := (Embed embedding q w).1).
    set (w1 := (Embed embedding q w).2).
    rewrite bind_eq. rewrite SearchAll_eq, ListProjects_eq. cbn [fst snd].
    destruct (pg_fault SelectProjects); [reflexivity|].
    set (ps := delivered (pg_stream SelectProjects)
                 (select_projects (w_db w1))).
    cbv zeta. cbn [ret fst Memories Sessions Files].
    eexists _, _, _. split; [reflexivity|].
    change (default_limit 10) with 10.
    repeat split.
    + pose proof (cap_length 10
        (sort_desc m_Score
           (concat (memories_of_tenant q emb 10 w1 <$> ps)))). lia.
    + pose proof (cap_length 10
        (sort_desc s_Score
           (concat (sessions_of_tenant q emb 10 w1 <$> ps)))). lia.
    + pose proof (cap_length 10
        (sort_desc f_Score
           (concat (files_of_tenant q emb 10 w1 <$> ps)))). lia.
  - intros Hq%String.eqb_neq Hf Hst. rewrite Hq. rewrite bind_eq.
    rewrite bind_eq. rewrite SearchAll_eq, ListProjects_eq, Hf, Hst.
    reflexivity.
Qed.

End WebLookups.

Section WebWrites.
Context `{Externals}.
Variable embedding : Service.

(** X28: an update through the dashboard rewrites the value of the one
    memory that [findMemoryByID] found.  When the answer is a fragment, the
    row of that memory keeps its identifier and carries the submitted value,
    or the value it had when the submitted one is empty; the card shows that
    value; every other memory is as before. *)
Theorem handleAPIMemoryUpdate_stores (r : http_request) (w : world)
    (name : string) (data : template_data) :
  let submitted :=
    if String.eqb (r_content_type r) "application/json"
    then Get (r_json r) "value" else Get (r_form r) "value" in
  let w' := (handleAPIMemoryUpdate embedding r w).2 in
  (handleAPIMemoryUpdate embedding r w).1 = Fragment name data ->
  exists mem old new,
    (findMemoryByID (r_id r) w).1 = Some mem /\
    m_ID mem = r_id r /\
    memories (w_db w) !! (m_ProjectID mem, m_Topic mem, m_Key mem)
    = Some old /\
    memories (w_db w') !! (m_ProjectID mem, m_Topic mem, m_Key mem)
    = Some new /\
    mr_id new = mr_id old /\
    mr_value new =
      (if String.eqb submitted "" then mr_value old else submitted) /\
    data = MemoryCardData (with_Value (mr_value new) mem) /\
    (forall k, k <> (m_ProjectID mem, m_Topic mem, m_Key mem) ->
               memories (w_db w') !! k = memories (w_db w) !! k).
Proof.
  cbv zeta. unfold handleAPIMemoryUpdate. cbv zeta.
  rewrite (bind_eq (findMemoryByID _)).
  pose proof (keeps_findMemoryByID w_db ltac:(reflexivity) (r_id r) w)
    as Hdb0.
  destruct (findMemoryByID (r_id r) w) as [[mem|] w0] eqn:Hfind;
    cbn [fst snd] in *; [|discriminate].
  pose proof (findMemoryByID_Some (r_id r) w mem) as Hsound.
  rewrite Hfind in Hsound.
  destruct (Hsound eq_refl) as (Hid & _ & old & Hold & Hmem).
  set (submitted := if String.eqb (r_content_type r) "application/json"
                    then Get (r_json r) "value" else Get (r_form r) "value").
  set (value := if String.eqb submitted "" then m_Value mem else submitted).
  rewrite (bind_eq (Embed _ _)).
  destruct (Embed_frame embedding value w0) as (Hdb1 & _).
  set (emb := (Embed embedding value w0).1) in *.
  set (w1 := (Embed embedding value w0).2) in *.
  rewrite (bind_eq (SetMemory _ _)).
  set (m := {| m_ID := 0; m_ProjectID := m_ProjectID mem;
               m_Topic := m_Topic mem; m_Key := m_Key mem; m_Value := value;
               m_CreatedAt := 0; m_UpdatedAt := 0; m_CreatedBy := "";
               m_Score := 0%float |}).
  destruct (SetMemory m emb w1).1 as [e|] eqn:Hset; [discriminate|].
  destruct (SetMemory_ok m emb w1 Hset) as (_ & db' & Hr & Hw).
  apply upsert_memory_inr in Hr as (_ & _ & ->).
  cbn [ret fst snd]. intros [= <- <-]. rewrite Hw.
  cbn [m_ProjectID m_Topic m_Key m_Value m] in *.
  rewrite Hdb1, Hdb0, Hold. cbn [memories with_memories].
  exists mem, old. eexists. split; [reflexivity|]. split; [exact Hid|].
  split; [exact Hold|]. split; [apply lookup_insert_eq|].
  split; [reflexivity|]. cbn [mr_value].
  assert (Hv : m_Value mem = mr_value old) by (rewrite Hmem; reflexivity).
  split; [unfold value; now rewrite Hv|]. split; [reflexivity|].
  intros k Hk. now rewrite lookup_insert_ne.
Qed.

Lemma topics_loop_spec (mems : list Memory) :
  forall (seen : gmap string bool) (topics : list string),
    (forall t, default false (seen !! t) = true <-> t ∈ topics) ->
    NoDup topics ->
    NoDup (topics_loop mems seen topics) /\
    forall t, t ∈ topics_loop mems seen topics <->
              t ∈ topics \/ exists m, m ∈ mems /\ m_Topic m = t.
Proof.
  induction mems as [|m mems IH]; intros seen topics Hseen Hnd; simpl.
  - split; [exact Hnd|]. intros t. split; [now left|].
    intros [Ht|(m & Hm & _)]; [exact Ht | now apply elem_of_nil in Hm].
  - destruct (default false (seen !! m_Topic m)) eqn:Hs; simpl.
    + destruct (IH seen topics Hseen Hnd) as [Hnd' Hel].
      split; [exact Hnd'|]. intros t. rewrite Hel. split.
      * intros [Ht|(m' & Hm' & Ht)]; [now left|].
        right. exists m'. split; [now right | exact Ht].
      * intros [Ht|(m' & [->|Hm']%elem_of_cons & Ht)]; [now left| |].
        -- left. rewrite <- Ht. now apply Hseen.
        -- right. eauto.
    + assert (Hnew : m_Topic m ∉ topics).
      { intros Hin%Hseen. congruence. }
      destruct (IH (<[m_Topic m := true]> seen) (topics ++ [m_Topic m]))
        as [Hnd' Hel].
      * intros t. rewrite elem_of_app, list_elem_of_singleton.
        destruct (decide (t = m_Topic m)) as [->|Hne].
        -- rewrite lookup_insert_eq. simpl. split; auto.
        -- rewrite lookup_insert_ne by congruence. rewrite Hseen. tauto.
      * apply NoDup_app. split; [exact Hnd|]. split.
        -- intros x Hx ->%list_elem_of_singleton. contradiction.
        -- apply NoDup_singleton.
      * split; [exact Hnd'|]. intros t. rewrite Hel, elem_of_app,
          list_elem_of_singleton. split.
        -- intros [[Ht| ->]|(m' & Hm' & Ht)].
           ++ now left.
           ++ right. exists m. split; [left | reflexivity].
           ++ right. exists m'. split; [now right | exact Ht].
        -- intros [Ht|(m' & [->|Hm']%elem_of_cons & Ht)].
           ++ left. now left.
           ++ left. right. now symmetry.
           ++ right. eauto.
Qed.

Lemma group_topics_eq (w0 : world) (ps : list Project) :
  forall (groups : list topicGroup) (w : world),
    w_db w = w_db w0 ->
    (group_topics ps groups w).1 =
      groups ++
      ((fun p => {| g_Project := p;
                    g_Topics :=
                      topics_loop (ListMemories (p_ID p) "" w0).1.1 ∅ [] |})
         <$> ps).
Proof.
  induction ps as [|p ps IH]; intros groups w Hdb; simpl.
  - now rewrite app_nil_r.
  - rewrite bind_eq.
    rewrite (ListMemories_value (p_ID p) "" w w0 Hdb).
    destruct (ListMemories (p_ID p) "" w0).1 as [mems e] eqn:Hl.
    cbn [fst]. rewrite IH.
    + now rewrite <- app_assoc.
    + rewrite <- Hdb.
      apply (keeps_ListMemories w_db ltac:(reflexivity) (p_ID p) "" w).
Qed.

(** X29: the page of memories groups the topics by project.  There is one
    group per listed project, in the order of the listing; the topics of a
    group are the topics of the memories listed for its project, each
    once. *)
Theorem handleMemories_groups (r : http_request) (w : world) :
  exists groups,
    (handleMemories r w).1
    = Page "memories.html" (GroupsData groups "memories") /\
    g_Project <$> groups = (ListProjects w).1.1 /\
    Forall (fun g =>
              NoDup (g_Topics g) /\
              forall t, t ∈ g_Topics g <->
                        exists m,
                          m ∈ (ListMemories (p_ID (g_Project g)) "" w).1.1 /\
                          m_Topic m = t)
      groups.
Proof.
  unfold handleMemories. rewrite bind_eq.
  pose proof (keeps_ListProjects w_db ltac:(reflexivity) w) as Hdb.
  destruct (ListProjects w) as [[ps e] w1]. cbn [fst snd] in *.
  rewrite bind_eq. cbn [ret fst].
  rewrite (group_topics_eq w ps [] w1 Hdb). rewrite app_nil_l.
  eexists. split; [reflexivity|]. split.
  - rewrite <- list_fmap_compose. simpl. apply list_fmap_id.
  - apply Forall_fmap, Forall_forall. intros p _. simpl.
    destruct (topics_loop_spec (ListMemories (p_ID p) "" w).1.1 ∅ [])
      as [Hnd Hel].
    + intros t. rewrite lookup_empty. simpl. split; [discriminate|].
      intros Ht. now apply elem_of_nil in Ht.
    + apply NoDup_nil_2.
    + split; [exact Hnd|]. intros t. rewrite Hel. split.
      * intros [Ht|Hm]; [now apply elem_of_nil in Ht | exact Hm].
      * intros Hm. now right.
Qed.

End WebWrites.

(** ** Migrations *)

Module MigrationFacts.
Import Migrations.

Section Run.
Context {env : Env}.

(** Whatever the outcome, the loop only adds: versions and scripts. *)
Lemma migrate_grows (files : list string) :
  forall s : schema,
    applied s ⊆ applied (migrate files s).2 /\
    exists new, executed (migrate files s).2 = executed s ++ new.
Proof.
  induction files as [|f files IH]; intros s; simpl.
  - split; [reflexivity|]. exists []. now rewrite app_nil_r.
  - destruct (check_fails _); simpl.
    { split; [reflexivity|]. exists []. now rewrite app_nil_r. }
    case_bool_decide as Hin; [apply IH|].
    destruct (ReadFile f) as [sql|]; simpl;
      [|split; [reflexivity|]; exists []; now rewrite app_nil_r].
    destruct (apply_fails sql); simpl.
    { split; [reflexivity|]. exists []. now rewrite app_nil_r. }
    destruct (record_fails _); simpl.
    { split; [reflexivity|]. now exists [sql]. }
    match goal with
    | |- context [migrate files ?s1] => destruct (IH s1) as [Ha [new Hn]]
    end.
    simpl in *. split.
    + etransitivity; [|exact Ha]. apply union_subseteq_r.
    + rewrite Hn, <- app_assoc. eauto.
Qed.

(** After a run of the loop without error, every file's version is
    recorded. *)
Lemma migrate_records (files : list string) :
  forall s : schema,
    (migrate files s).1 = None ->
    forall f, f ∈ files ->
              check_fails (Base f) = false /\
              Base f ∈ applied (migrate files s).2.
Proof.
  induction files as [|f files IH]; intros s Hok f' Hf'.
  - now apply elem_of_nil in Hf'.
  - simpl in *. destruct (check_fails (Base f)) eqn:Hc; [discriminate|].
    case_bool_decide as Hin.
    + apply elem_of_cons in Hf' as [->|Hf']; [|now apply IH].
      split; [exact Hc|]. now apply (proj1 (migrate_grows files s)).
    + destruct (ReadFile f) as [sql|]; [|discriminate].
      destruct (apply_fails sql); [discriminate|].
      destruct (record_fails _); [discriminate|].
      apply elem_of_cons in Hf' as [->|Hf']; [|now apply IH].
      split; [exact Hc|].
      match goal with
      | |- context [migrate files ?s1] =>
          apply (proj1 (migrate_grows files s1))
      end.
      simpl. apply elem_of_union_l, elem_of_singleton. reflexivity.
Qed.

(** A later run of the loop, on an engine and a file system of its own,
    over files whose versions are all recorded: it changes nothing, and it
    returns no error exactly when every check is answered. *)
Lemma migrate_nothing (again : Env) (files : list string) (s : schema) :
  (forall f, f ∈ files -> @Base again f ∈ applied s) ->
  (@migrate again files s).2 = s /\
  ((@migrate again files s).1 = None <->
   forall f, f ∈ files -> @check_fails again (@Base again f) = false).
Proof.
  induction files as [|f files IH]; intros Hall; simpl.
  - split; [reflexivity|]. split; [|reflexivity].
    intros _ f Hf. now apply elem_of_nil in Hf.
  - destruct (@check_fails again (@Base again f)) eqn:Hc; simpl.
    + split; [reflexivity|]. split; [discriminate|].
      intros Hno. rewrite (Hno f) in Hc by left. discriminate.
    + rewrite bool_decide_eq_true_2 by (apply Hall; left).
      destruct IH as [Hs Hiff]; [intros f' Hf'; apply Hall; now right|].
      split; [exact Hs|]. rewrite Hiff. split.
      * intros Hno f' [->|Hf']%elem_of_cons; auto.
      * intros Hno f' Hf'. apply Hno. now right.
Qed.

(** When recording fails, the script has run and its version is not
    recorded. *)
Lemma migrate_unrecorded (files : list string) (v : string) :
  forall s : schema,
    (migrate files s).1 = Some (RecordMigration v) ->
    (v ∉ applied (migrate files s).2) /\
    exists f sql earlier,
      f ∈ files /\ Base f = v /\ ReadFile f = Some sql /\
      executed (migrate files s).2 = executed s ++ earlier ++ [sql].
Proof.
  induction files as [|f files IH]; intros s; simpl; [discriminate|].
  destruct (check_fails _); [discriminate|].
  case_bool_decide as Hin.
  - intros (Hv & f' & sql & b & Hf' & Hrest)%IH. split; [exact Hv|].
    exists f', sql, b. split; [now right | exact Hrest].
  - destruct (ReadFile f) as [sql|] eqn:Hread; [|discriminate].
    destruct (apply_fails sql); [discriminate|].
    destruct (record_fails _).
    + simpl. intros [= <-]. split; [exact Hin|].
      exists f, sql, []. split; [left|]. auto.
    + intros (Hv & f' & sql' & b & Hf' & Hb & Hr & He)%IH.
      split; [exact Hv|].
      exists f', sql', (sql :: b). split; [now right|].
      split; [exact Hb|]. split; [exact Hr|].
      rewrite He. simpl. now rewrite <- app_assoc.
Qed.

(** X30: [RunMigrations] can be run again.  A run only adds versions and
    scripts.  After a run that returned no error, a later run over the same
    files, whatever the engine then does, executes no script and records no
    version; it returns no error exactly when the engine then creates the
    tracking table and answers the check of every file.  But the two
    statements of one migration are not one unit: when the run fails
    recording a version, the script of the file of that version has run,
    last, and the version is not recorded. *)
Theorem RunMigrations_again (again : Env) (dir : string) (s : schema) :
  let s' := (@RunMigrations env dir s).2 in
  (applied s ⊆ applied s' /\
   exists new, executed s' = executed s ++ new) /\
  ((@RunMigrations env dir s).1 = None ->
   @Glob again dir "*.sql" = @Glob env dir "*.sql" ->
   (forall f, @Base again f = @Base env f) ->
   exists files,
     @Glob env dir "*.sql" = Some files /\
     (@RunMigrations again dir s').2 = s' /\
     ((@RunMigrations again dir s').1 = None <->
      @create_fails again = false /\
      forall f, f ∈ files -> @check_fails again (@Base env f) = false)) /\
  (forall v,
     (@RunMigrations env dir s).1 = Some (RecordMigration v) ->
     (v ∉ applied s') /\
     exists files f sql earlier,
       @Glob env dir "*.sql" = Some files /\ f ∈ files /\
       @Base env f = v /\ @ReadFile env f = Some sql /\
       executed s' = executed s ++ earlier ++ [sql]).
Proof.
  cbv zeta. set (later := @RunMigrations again). unfold RunMigrations.
  destruct (@create_fails env).
  { simpl. split; [|split; [discriminate | discriminate]].
    split; [reflexivity|]. exists []. now rewrite app_nil_r. }
  destruct (@Glob env dir "*.sql") as [files|] eqn:Hglob.
  2:{ simpl. split; [|split; [discriminate | discriminate]].
      split; [reflexivity|]. exists []. now rewrite app_nil_r. }
  split; [apply migrate_grows|]. split.
  - intros Hok Hg Hb. exists files. split; [reflexivity|].
    unfold later, RunMigrations. rewrite Hg.
    destruct (migrate_nothing again (order_by String.leb files)
                (@migrate env (order_by String.leb files) s).2)
      as [Hs Hiff].
    { intros f Hf. rewrite Hb. now apply (migrate_records _ s Hok). }
    destruct (@create_fails again); simpl.
    + split; [reflexivity|]. split; [discriminate | now intros [? _]].
    + split; [exact Hs|]. rewrite Hiff. split.
      * intros Hno. split; [reflexivity|]. intros f Hf. rewrite <- Hb.
        apply Hno. now apply elem_of_order_by.
      * intros [_ Hno] f Hf%elem_of_order_by. rewrite Hb. now apply Hno.
  - intros v
      (Hv & f & sql & b & Hf%elem_of_order_by & Hrest)%migrate_unrecorded.
    split; [exact Hv|]. exists files, f, sql, b. auto.
Qed.

End Run.

End MigrationFacts.

(** ** The theorems at concrete inputs *)

Lemma write_then_read_witness :
  (@SetMemory Demo.healthy Demo.rewrite_a None Demo.w0).1 = None /\
  @pg_fault Demo.healthy (SelectMemory "t1" "arch" "a") = false /\
  exists got,
    (@GetMemory Demo.healthy "t1" "arch" "a"
       (@SetMemory Demo.healthy Demo.rewrite_a None Demo.w0).2).1
    = (Some got, None) /\
    m_Value got = "auth, revised".
Proof.
  assert (Hset : (@SetMemory Demo.healthy Demo.rewrite_a None Demo.w0).1
                 = None) by (vm_compute; reflexivity).
  assert (Hf : @pg_fault Demo.healthy (SelectMemory "t1" "arch" "a") = false)
    by reflexivity.
  split; [exact Hset|]. split; [exact Hf|].
  destruct (proj1 (@write_then_read Demo.healthy Demo.w0) Demo.rewrite_a None
              Hset Hf) as (got & Hg & _ & _ & _ & Hv).
  exists got. exact (conj Hg Hv).
Defined.


Lemma upsert_touches_one_row_witness :
  ("t1", "arch", "b") <> ("t1", "arch", "a") /\
  memories (w_db (@SetMemory Demo.healthy Demo.rewrite_a None Demo.w0).2)
    !! ("t1", "arch", "b")
  = memories (w_db Demo.w0) !! ("t1", "arch", "b").
Proof.
  assert (Hk : ("t1", "arch", "b") <> ("t1", "arch", "a")) by discriminate.
  split; [exact Hk|].
  exact (proj1 (proj1 (@upsert_touches_one_row Demo.healthy Demo.w0)
                  Demo.rewrite_a None) ("t1", "arch", "b") Hk).
Defined.

Lemma rejected_write_stores_nothing_witness :
  projects (w_db Demo.w0) !! m_ProjectID Sample.stray = None /\
  (@SetMemory Demo.healthy Sample.stray None Demo.w0).1
  = Some ErrForeignKey /\
  stored (w_db (@SetMemory Demo.healthy Sample.stray None Demo.w0).2)
  = stored (w_db Demo.w0) /\
  memories_id_seq (w_db (@SetMemory Demo.healthy Sample.stray None
                           Demo.w0).2)
  = memories_id_seq (w_db Demo.w0) + 1.
Proof.
  assert (Hp : projects (w_db Demo.w0) !! m_ProjectID Sample.stray = None)
    by (vm_compute; reflexivity).
  split; [exact Hp|].
  destruct (proj1 (@rejected_write_stores_nothing Demo.healthy Demo.w0)
              Sample.stray None (or_introl Hp)) as (_ & Hst & Hfk).
  destruct (Hfk eq_refl eq_refl) as [He Hseq].
  exact (conj He (conj Hst Hseq)).
Defined.

Lemma DeleteMemory_removes_one_row_witness :
  (@DeleteMemory Demo.healthy "t1" "arch" "a" Demo.w0).1 = None /\
  memories (w_db (@DeleteMemory Demo.healthy "t1" "arch" "a" Demo.w0).2)
    !! ("t1", "arch", "a") = None.
Proof.
  assert (Hdel : (@DeleteMemory Demo.healthy "t1" "arch" "a" Demo.w0).1
                 = None) by (vm_compute; reflexivity).
  split; [exact Hdel|].
  exact (proj1 (proj1 (@DeleteMemory_removes_one_row Demo.healthy "t1" "arch"
                         "a" Demo.w0) Hdel)).
Defined.

Lemma CreateProject_updates_in_place_witness :
  (@CreateProject Demo.healthy Sample.renamed Demo.w0).1 = None /\
  memories (w_db (@CreateProject Demo.healthy Sample.renamed Demo.w0).2)
  = memories (w_db Demo.w0).
Proof.
  assert (Hok : (@CreateProject Demo.healthy Sample.renamed Demo.w0).1 = None)
    by (vm_compute; reflexivity).
  split; [exact Hok|].
  exact (proj1 (proj2 (proj2 (@CreateProject_updates_in_place Demo.healthy
                                Sample.renamed Demo.w0 Hok)))).
Defined.

Lemma ListProjects_lists_registered_witness :
  (@ListProjects Demo.healthy Demo.w0).1 = (Demo.tenants, None) /\
  NoDup (p_ID <$> Demo.tenants) /\
  length Demo.tenants = size (projects (w_db Demo.w0)).
Proof.
  assert (Hps : (@ListProjects Demo.healthy Demo.w0).1 = (Demo.tenants, None))
    by (vm_compute; reflexivity).
  split; [exact Hps|].
  destruct (@ListProjects_lists_registered Demo.healthy Demo.w0 Demo.tenants
              Hps) as (_ & Hnd & _ & Hall & _).
  exact (conj Hnd (proj2 Hall)).
Defined.

(** The same listing on an engine that fails before the first row: no
    error, and no project. *)
Example ListProjects_broken_stream :
  (@ListProjects Sample.broken Demo.w0).1 = ([], None).
Proof. vm_compute. reflexivity. Qed.

Lemma ListMemories_lists_stored_witness :
  (@ListMemories Demo.healthy "t1" "arch" Demo.w0).1
  = ((@ListMemories Demo.healthy "t1" "arch" Demo.w0).1.1, None) /\
  @pg_stream Demo.healthy (SelectMemories "t1" (Some "arch")) = None /\
  memory_of_row ("t1", "arch", "b") (Demo.note 2 "auth bb" None) 0%float
  ∈ (@ListMemories Demo.healthy "t1" "arch" Demo.w0).1.1.
Proof.
  assert (Hms : (@ListMemories Demo.healthy "t1" "arch" Demo.w0).1
                = ((@ListMemories Demo.healthy "t1" "arch" Demo.w0).1.1,
                   None)) by (vm_compute; reflexivity).
  assert (Hst : @pg_stream Demo.healthy (SelectMemories "t1" (Some "arch"))
                = None) by reflexivity.
  assert (Hrow : memories (w_db Demo.w0) !! ("t1", "arch", "b")
                 = Some (Demo.note 2 "auth bb" None))
    by (vm_compute; reflexivity).
  split; [exact Hms|]. split; [exact Hst|].
  apply (proj1 (proj2 (proj2 (@ListMemories_lists_stored Demo.healthy "t1"
                                "arch" Demo.w0 _ Hms))) Hst).
  split; [|split; [reflexivity | right; reflexivity]].
  exists (Demo.note 2 "auth bb" None). split; [exact Hrow | reflexivity].
Defined.

Lemma ListSessions_without_content_witness :
  (@ListSessions Demo.healthy "t1" Sample.with_session).1
  = ((@ListSessions Demo.healthy "t1" Sample.with_session).1.1, None) /\
  Forall (fun s => s_Content s = "")
    (@ListSessions Demo.healthy "t1" Sample.with_session).1.1.
Proof.
  assert (Hss : (@ListSessions Demo.healthy "t1" Sample.with_session).1
                = ((@ListSessions Demo.healthy "t1" Sample.with_session).1.1,
                   None)) by (vm_compute; reflexivity).
  split; [exact Hss|].
  exact (proj1 (proj2 (@ListSessions_without_content Demo.healthy "t1"
                         Sample.with_session _ Hss))).
Defined.

Example ListSessions_lists_the_session :
  (fun s => (s_SessionNum s, s_Title s, s_Content s)) <$>
    (@ListSessions Demo.healthy "t1" Sample.with_session).1.1
  = [(1, "kick-off", "")].
Proof. vm_compute. reflexivity. Qed.

Lemma publish_n_reachable (n : nat) :
  forall s, EventBus.reachable s -> EventBus.reachable (Demo.publish_n n s).
Proof.
  induction n as [|n IH]; intros s Hs; simpl; [exact Hs|].
  apply IH. eapply rtc_r; [exact Hs | apply EventBus.step_Publish].
Qed.

Lemma full_inbox_reachable : EventBus.reachable Demo.full_inbox.
Proof.
  apply publish_n_reachable. apply rtc_once, EventBus.step_Subscribe.
Qed.

Lemma inbox_never_over_capacity_witness :
  EventBus.reachable Demo.full_inbox /\
  forall c, EventBus.chans Demo.full_inbox !! Demo.inbox = Some c ->
            (length (EventBus.buf c) <= 16)%nat.
Proof.
  split; [exact full_inbox_reachable|]. intros c Hc.
  exact (proj1 (proj2 (EventBusMore.inbox_never_over_capacity Demo.full_inbox
                         full_inbox_reachable Demo.inbox c Hc))).
Defined.

Lemma inbox_is_first_in_first_out_witness :
  EventBus.well_formed Demo.subscribed = true /\
  (EventBus.Subscribe Demo.subscribed).1
  ∈ EventBus.clients
      (publish_all ["first"; "second"]
         (EventBus.Subscribe Demo.subscribed).2).
Proof.
  assert (Hwf : EventBus.well_formed Demo.subscribed = true)
    by (vm_compute; reflexivity).
  split; [exact Hwf|].
  exact (proj1 (EventBusMore.inbox_is_first_in_first_out Demo.subscribed
                  ["first"; "second"] Hwf)).
Defined.

Lemma unsub_leaves_others_witness :
  EventBus.well_formed Demo.full_inbox = true /\
  Demo.inbox ∈ dom (EventBus.chans Demo.full_inbox) /\
  EventBus.well_formed
    (EventBus.state_of (EventBus.unsub Demo.inbox Demo.full_inbox)) = true.
Proof.
  assert (Hwf : EventBus.well_formed Demo.full_inbox = true)
    by (vm_compute; reflexivity).
  assert (Hin : Demo.inbox ∈ dom (EventBus.chans Demo.full_inbox))
    by (apply elem_of_dom; vm_compute; eexists; reflexivity).
  split; [exact Hwf|]. split; [exact Hin|].
  exact (proj1 (EventBusMore.unsub_leaves_others Demo.full_inbox Demo.inbox
                  Hwf Hin)).
Defined.

Lemma tool_writes_only_its_table_witness :
  writes memory_get <> Some MemoriesTable /\
  memories (w_db (@handler Demo.healthy Demo.service memory_get
                    Demo.get_missing Demo.w0).2)
  = memories (w_db Demo.w0).
Proof.
  assert (Hw : writes memory_get <> Some MemoriesTable) by discriminate.
  split; [exact Hw|].
  exact (@tool_writes_only_its_table Demo.healthy Demo.service memory_get
           MemoriesTable Demo.get_missing Demo.w0 Hw).
Defined.

Lemma absent_required_argument_witness :
  ("project_id" ∈ required memory_search /\
   stringArg Sample.no_project "project_id" = "" /\
   is_error (@handler Demo.healthy Demo.service memory_search
               Sample.no_project Demo.w0).1 = true /\
   (@handler Demo.healthy Demo.service memory_search Sample.no_project
      Demo.w0).2 = Demo.w0) /\
  ("session_num" ∈ required session_get /\
   stringArg Sample.session_of_t1 "session_num" = "" /\
   exists qs,
     w_log (@handler Demo.healthy Demo.service session_get
              Sample.session_of_t1 Demo.w0).2
     = w_log Demo.w0 ++ SelectSession "t1" 0 :: qs).
Proof.
  assert (Hin : "project_id" ∈ required memory_search) by (simpl; left).
  assert (Ha : stringArg Sample.no_project "project_id" = "")
    by (vm_compute; reflexivity).
  assert (Hin' : "session_num" ∈ required session_get)
    by (simpl; right; left).
  assert (Ha' : stringArg Sample.session_of_t1 "session_num" = "")
    by (vm_compute; reflexivity).
  split.
  - split; [exact Hin|]. split; [exact Ha|].
    exact (@absent_required_argument Demo.healthy Demo.service memory_search
             Sample.no_project "project_id" Demo.w0 Hin Ha).
  - split; [exact Hin'|]. split; [exact Ha'|].
    destruct (@absent_required_argument Demo.healthy Demo.service session_get
                Sample.session_of_t1 "session_num" Demo.w0 Hin' Ha')
      as (q & qs & Hq & Hl & _).
    exists qs.
    exact (eq_trans Hl
             (f_equal (fun q => w_log Demo.w0 ++ q :: qs)
                (eq_sym (f_equal (default q) Hq)))).
Defined.

Lemma memory_tools_round_trip_witness :
  stringArg Sample.key_a "project_id" = stringArg Sample.set_a "project_id" /\
  stringArg Sample.key_a "topic" = stringArg Sample.set_a "topic" /\
  stringArg Sample.key_a "key" = stringArg Sample.set_a "key" /\
  @pg_fault Demo.healthy
    (SelectMemory (stringArg Sample.set_a "project_id")
       (stringArg Sample.set_a "topic") (stringArg Sample.set_a "key"))
  = false /\
  is_error (@handleMemorySet Demo.healthy Demo.service Sample.set_a
              Demo.w0).1 = false /\
  exists m,
    (@handleMemoryGet Demo.healthy Sample.key_a
       (@handleMemorySet Demo.healthy Demo.service Sample.set_a Demo.w0).2).1
    = ToolResultText (JSONMemory m) /\
    m_Value m = stringArg Sample.set_a "value".
Proof.
  assert (Hp : stringArg Sample.key_a "project_id"
               = stringArg Sample.set_a "project_id")
    by (vm_compute; reflexivity).
  assert (Ht : stringArg Sample.key_a "topic" = stringArg Sample.set_a "topic")
    by (vm_compute; reflexivity).
  assert (Hk : stringArg Sample.key_a "key" = stringArg Sample.set_a "key")
    by (vm_compute; reflexivity).
  assert (Hf : @pg_fault Demo.healthy
                 (SelectMemory (stringArg Sample.set_a "project_id")
                    (stringArg Sample.set_a "topic")
                    (stringArg Sample.set_a "key")) = false) by reflexivity.
  assert (Hok : is_error (@handleMemorySet Demo.healthy Demo.service
                            Sample.set_a Demo.w0).1 = false)
    by (vm_compute; reflexivity).
  split; [exact Hp|]. split; [exact Ht|]. split; [exact Hk|].
  split; [exact Hf|]. split; [exact Hok|].
  destruct (proj1 (@memory_tools_round_trip Demo.healthy Demo.service
                     Sample.set_a Sample.key_a Demo.w0 Hp Ht Hk Hf) Hok)
    as (m & Hm & _ & _ & _ & Hv).
  exists m. exact (conj Hm Hv).
Defined.

Lemma search_tool_reports_its_strategy_witness :
  is_search memory_search = true /\
  is_error (@handler Demo.healthy Demo.service memory_search
              Sample.search_auth Demo.w0).1 = false /\
  searches_sent Demo.w0
    (@handler Demo.healthy Demo.service memory_search Sample.search_auth
       Demo.w0).2
  = [chosen (@Embed Demo.healthy Demo.service
               (stringArg Sample.search_auth "query") Demo.w0).1].
Proof.
  assert (Hs : is_search memory_search = true) by reflexivity.
  assert (Hok : is_error (@handler Demo.healthy Demo.service memory_search
                            Sample.search_auth Demo.w0).1 = false)
    by (vm_compute; reflexivity).
  split; [exact Hs|]. split; [exact Hok|].
  exact (proj1 (@search_tool_reports_its_strategy Demo.healthy Demo.service
                  memory_search Sample.search_auth Demo.w0 Hs Hok)).
Defined.

Example memory_search_reports_full_text :
  reported (@handler Demo.healthy Demo.service memory_search
              Sample.search_auth Demo.w0).1
  = Some ("full-text", 3%nat, 3).
Proof. vm_compute. reflexivity. Qed.

Lemma findMemoryByID_finds_stored_witness :
  @pg_fault Demo.healthy SelectProjects = false /\
  @pg_stream Demo.healthy SelectProjects = None /\
  (forall p, @pg_fault Demo.healthy (SelectMemories p None) = false) /\
  (forall p, @pg_stream Demo.healthy (SelectMemories p None) = None) /\
  is_Some (projects (w_db Demo.w0) !! "t2") /\
  memories (w_db Demo.w0) !! ("t2", "arch", "b")
  = Some (Demo.note 5 "auth yy" None) /\
  (exists m,
     (@findMemoryByID Demo.healthy 5 Demo.w0).1 = Some m /\ m_ID m = 5) /\
  @pg_stream Sample.broken SelectProjects = Some 0%nat /\
  (@findMemoryByID Sample.broken 5 Demo.w0).1 = None.
Proof.
  assert (Hf : @pg_fault Demo.healthy SelectProjects = false) by reflexivity.
  assert (Hst : @pg_stream Demo.healthy SelectProjects = None)
    by reflexivity.
  assert (Hfs : forall p, @pg_fault Demo.healthy (SelectMemories p None)
                          = false) by reflexivity.
  assert (Hss : forall p, @pg_stream Demo.healthy (SelectMemories p None)
                          = None) by reflexivity.
  assert (Hp : is_Some (projects (w_db Demo.w0) !! "t2"))
    by (vm_compute; eexists; reflexivity).
  assert (Hrow : memories (w_db Demo.w0) !! ("t2", "arch", "b")
                 = Some (Demo.note 5 "auth yy" None))
    by (vm_compute; reflexivity).
  assert (Hb : @pg_stream Sample.broken SelectProjects = Some 0%nat)
    by reflexivity.
  split; [exact Hf|]. split; [exact Hst|]. split; [exact Hfs|].
  split; [exact Hss|]. split; [exact Hp|]. split; [exact Hrow|].
  split.
  - exact (proj1 (proj2 (@findMemoryByID_finds_stored Demo.healthy 5
                           Demo.w0))
             Hf Hst Hfs Hss "t2" "arch" "b" _ Hp Hrow eq_refl).
  - split; [exact Hb|].
    exact (proj2 (proj2 (proj2 (@findMemoryByID_finds_stored Sample.broken 5
                                  Demo.w0))) Hb).
Defined.

Lemma handleAPISearch_result_witness :
  queryParam Sample.get_search "q" "" <> "" /\
  (exists ms ss fs,
     (@handleAPISearch Demo.healthy Demo.service Sample.get_search Demo.w0).1
     = Fragment "_search_results.html"
         (SearchData "auth" "full-text" ms ss fs) /\
     (length ms <= 10)%nat) /\
  @pg_stream Sample.broken SelectProjects = Some 0%nat /\
  (@handleAPISearch Sample.broken Demo.service Sample.get_search Demo.w0).1
  = Fragment "_search_results.html" (SearchData "auth" "full-text" [] [] []).
Proof.
  assert (Hq : queryParam Sample.get_search "q" "" <> "")
    by (vm_compute; discriminate).
  assert (Hb : @pg_stream Sample.broken SelectProjects = Some 0%nat)
    by reflexivity.
  split; [exact Hq|]. split.
  - destruct (proj1 (proj2 (@handleAPISearch_result Demo.healthy Demo.service
                              Sample.get_search Demo.w0)) Hq)
      as (ms & ss & fs & Hr & Hm & _).
    exists ms, ss, fs. exact (conj Hr Hm).
  - split; [exact Hb|].
    exact (proj2 (proj2 (@handleAPISearch_result Sample.broken Demo.service
                           Sample.get_search Demo.w0)) Hq eq_refl Hb).
Defined.

Lemma handleAPIMemoryUpdate_stores_witness :
  (@handleAPIMemoryUpdate Demo.healthy Demo.service Sample.put_1 Demo.w0).1
  = Fragment "_memory_card"
      (MemoryCardData (Sample.card_a "auth, revised")) /\
  exists mem new,
    m_ID mem = 1 /\
    memories
      (w_db (@handleAPIMemoryUpdate Demo.healthy Demo.service Sample.put_1
               Demo.w0).2)
      !! (m_ProjectID mem, m_Topic mem, m_Key mem) = Some new /\
    mr_value new = "auth, revised".
Proof.
  assert (Hr : (@handleAPIMemoryUpdate Demo.healthy Demo.service Sample.put_1
                  Demo.w0).1
               = Fragment "_memory_card"
                   (MemoryCardData (Sample.card_a "auth, revised")))
    by (vm_compute; reflexivity).
  split; [exact Hr|].
  destruct (@handleAPIMemoryUpdate_stores Demo.healthy Demo.service
              Sample.put_1 Demo.w0 _ _ Hr)
    as (mem & old & new & _ & Hid & _ & Hnew & _ & Hv & _).
  exists mem, new. split; [exact Hid|]. split; [exact Hnew|]. exact Hv.
Defined.

Example update_with_empty_value :
  (@handleAPIMemoryUpdate Demo.healthy Demo.service Sample.put_1_empty
     Demo.w0).1
  = Fragment "_memory_card" (MemoryCardData (Sample.card_a "auth a")).
Proof. vm_compute. reflexivity. Qed.

Lemma RunMigrations_again_witness :
  (@Migrations.RunMigrations Migrations.two_scripts "m" Migrations.fresh).1
  = None /\
  @Migrations.RunMigrations Migrations.unrecorded "m"
    (@Migrations.RunMigrations Migrations.two_scripts "m"
       Migrations.fresh).2
  = (None,
     (@Migrations.RunMigrations Migrations.two_scripts "m"
        Migrations.fresh).2).
Proof.
  assert (Hok : (@Migrations.RunMigrations Migrations.two_scripts "m"
                   Migrations.fresh).1 = None) by (vm_compute; reflexivity).
  split; [exact Hok|].
  destruct (proj1 (proj2 (@MigrationFacts.RunMigrations_again
                            Migrations.two_scripts Migrations.unrecorded
                            "m" Migrations.fresh))
              Hok eq_refl (fun _ => eq_refl))
    as (files & _ & Hs & Hiff).
  pose proof (proj2 Hiff (conj eq_refl (fun _ _ => eq_refl))) as Hnone.
  destruct (@Migrations.RunMigrations Migrations.unrecorded "m"
              (@Migrations.RunMigrations Migrations.two_scripts "m"
                 Migrations.fresh).2) as [e s2].
  simpl in Hs, Hnone. now rewrite Hs, Hnone.
Defined.

Example migrations_run_in_order :
  Migrations.executed
    (@Migrations.RunMigrations Migrations.two_scripts "m"
       Migrations.fresh).2
  = ["-- m/001_init.sql"; "-- m/002_usage.sql"].
Proof. vm_compute. reflexivity. Qed.

Example migration_applied_but_not_recorded :
  let r := @Migrations.RunMigrations Migrations.unrecorded "m"
             Migrations.fresh in
  r.1 = Some (Migrations.RecordMigration "002_usage.sql") /\
  Migrations.executed r.2 = ["-- m/001_init.sql"; "-- m/002_usage.sql"] /\
  elements (Migrations.applied r.2) = ["001_init.sql"].
Proof. vm_compute. repeat split. Qed.

Lemma search_returns_at_most_limit_witness :
  (@SearchMemories Demo.flaky "t1" "auth" None 2 Demo.w0).1.2 <> None /\
  (@SearchMemories Demo.flaky "t1" "auth" None 2 Demo.w0).1.1 = [] /\
  Z.of_nat (length (@SearchMemories Demo.healthy "t1" "auth" None 2
                      Demo.w0).1.1) <= 2.
Proof.
  assert (He : (@SearchMemories Demo.flaky "t1" "auth" None 2 Demo.w0).1.2
               <> None) by (vm_compute; discriminate).
  split; [exact He|]. split.
  - exact (proj2 (proj1 (@search_returns_at_most_limit Demo.flaky "t1" "auth"
                           None 2 Demo.w0)) He).
  - exact (proj1 (proj1 (@search_returns_at_most_limit Demo.healthy "t1"
                           "auth" None 2 Demo.w0))).
Defined.

Lemma Embed_vector_provenance_witness :
  (@Embed Sample.answering Demo.enabled_service "where is auth" Demo.w0).1
  = Some Demo.new_vector /\
  Z.of_nat (length Demo.new_vector) = svc_dim Demo.enabled_service /\
  w_net (@Embed Sample.answering Demo.enabled_service "where is auth"
           Demo.w0).2
  = w_net Demo.w0 ++ [(svc_url Demo.enabled_service, "where is auth")].
Proof.
  assert (Hv : (@Embed Sample.answering Demo.enabled_service "where is auth"
                  Demo.w0).1 = Some Demo.new_vector)
    by (vm_compute; reflexivity).
  split; [exact Hv|].
  destruct (proj1 (@Embed_vector_provenance Sample.answering
                     Demo.enabled_service "where is auth" Demo.w0) _ Hv)
    as (Hl & _ & _ & _ & Hn).
  exact (conj Hl Hn).
Defined.

Lemma tool_embeds_its_text_once_witness :
  @passes_test Sample.answering memory_set Sample.set_stray = true /\
  embedded_text memory_set Sample.set_stray = Some "auth" /\
  is_error (@handler Sample.answering Demo.enabled_service memory_set
              Sample.set_stray Demo.w0).1 = true /\
  w_net (@handler Sample.answering Demo.enabled_service memory_set
           Sample.set_stray Demo.w0).2
  = [(svc_url Demo.enabled_service, "auth")].
Proof.
  assert (Hp : @passes_test Sample.answering memory_set Sample.set_stray
               = true) by (vm_compute; reflexivity).
  assert (Ht : embedded_text memory_set Sample.set_stray = Some "auth")
    by (vm_compute; reflexivity).
  assert (He : is_error (@handler Sample.answering Demo.enabled_service
                           memory_set Sample.set_stray Demo.w0).1 = true)
    by (vm_compute; reflexivity).
  split; [exact Hp|]. split; [exact Ht|]. split; [exact He|].
  exact (proj1 (proj2 (@tool_embeds_its_text_once Sample.answering
                         Demo.enabled_service memory_set Sample.set_stray
                         Demo.w0)) _ Hp Ht).
Defined.

(** The refused write of that call: the statement was sent, a row id was
    drawn, and no memory was stored. *)
Example memory_set_refused_after_embedding :
  let rw := @handler Sample.answering Demo.enabled_service memory_set
              Sample.set_stray Demo.w0 in
  length (w_log rw.2) = 1%nat /\
  memories (w_db rw.2) !! ("t9", "arch", "a") = None /\
  memories_id_seq (w_db rw.2) = 8.
Proof. vm_compute. repeat split. Qed.

Example memory_set_stores_the_vector :
  mr_embedding <$>
    memories (w_db (@handler Sample.answering Demo.enabled_service memory_set
                      Sample.set_a Demo.w0).2) !! ("t1", "arch", "a")
  = Some (Some Demo.new_vector).
Proof. vm_compute. reflexivity. Qed.

Lemma web_never_accounts_witness :
  route_writes GET_api_search = false /\
  unaccounted Demo.w0
    (@serve Demo.healthy Demo.service GET_api_search Sample.get_search
       Demo.w0).2 /\
  memories (w_db (@serve Demo.healthy Demo.service GET_api_search
                    Sample.get_search Demo.w0).2)
  = memories (w_db Demo.w0).
Proof.
  assert (Hr : route_writes GET_api_search = false) by reflexivity.
  split; [exact Hr|].
  destruct (@web_never_accounts Demo.healthy Demo.service GET_api_search
              Sample.get_search Demo.w0) as (Hu & _ & _ & _ & Hm).
  exact (conj Hu (Hm Hr)).
Defined.
